(** * Mashka: the registry of leftover application data (src/mmodel.cpp)

    A shallow embedding of [MModel] and of the free functions of
    [mmodel.cpp].  The Qt file-system calls are an interface
    ([FileSystem]); every method of the model is a computation over a
    [World]: the disk, the model's members and the signals emitted so far.
    What mmodel.h and mknown_apps.hpp declare ([MEntry::exists()], the
    table of known apps, the pattern of excluded directories) and the
    macro SAFE_MODE are fields of a [Platform].

    The definitions come first: the data, the code, a file system in
    memory to run it on, and the vocabulary of the properties.  The
    properties follow, component by component. *)

From Stdlib Require Import ZArith List Ascii String Bool Lia.
Import ListNotations.

Local Open Scope string_scope.
Local Open Scope list_scope.
Local Open Scope Z_scope.

(** ** qint64 and int arithmetic *)

Module Int64.

Definition modulus : Z := 2 ^ 64.
Definition half : Z := 2 ^ 63.

(** The value a 64-bit two's complement register holds for [z]. *)
Definition wrap (z : Z) : Z := (z + half) mod modulus - half.

(** [a += b] on qint64. *)
Definition add (a b : Z) : Z := wrap (a + b).

Definition in_range (z : Z) : Prop := - half <= z < half.

(** The plain sum of a list of sizes. *)
Definition sum (l : list Z) : Z := fold_right Z.add 0 l.

(** What a qint64 accumulator started at [acc] holds after the sizes
    of [l] were added one by one. *)
Definition accumulate (acc : Z) (l : list Z) : Z := fold_left add l acc.

End Int64.

(** ** Strings *)

(** [QString::isEmpty]. *)
Definition isEmpty (s : string) : bool := String.eqb s "".

(** ** The Qt file-system calls used by mmodel.cpp *)

Class FileSystem : Type := {
  disk : Type;
  (** [QFileInfo(p).exists()], [.isDir()], [.isFile()], [.size()] *)
  fi_exists : disk -> string -> bool;
  fi_isDir : disk -> string -> bool;
  fi_isFile : disk -> string -> bool;
  fi_size : disk -> string -> Z;
  (** [QDirIterator(path, QDir::Files | QDir::Hidden,
      QDirIterator::Subdirectories)]: the files the iterator visits. *)
  dirFiles : disk -> string -> list string;
  (** [QDirIterator(root, filters, QDir::Dirs | QDir::NoDotAndDotDot)]:
      [(it.next(), it.fileName())] for each directory visited. *)
  dirSubdirs : disk -> string -> list string -> list (string * string);
  (** [QDir(p).removeRecursively()] and [QFile::remove(p)] *)
  removeRecursively : disk -> string -> disk * bool;
  removeFile : disk -> string -> disk * bool;
  (** [QSettings(path, QSettings::IniFormat).value(key)], when set *)
  settingsValue : disk -> string -> string -> option string;
  (** A path that does not exist is neither a directory nor a file. *)
  missing_not_dir : forall d p, fi_exists d p = false -> fi_isDir d p = false;
  missing_not_file : forall d p, fi_exists d p = false -> fi_isFile d p = false;
  (** A directory lists each of its entries once. *)
  dirSubdirs_names : forall d root filters,
    NoDup (map snd (dirSubdirs d root filters));
  (** What was removed is not there any more, and a removal brings
      nothing into existence. *)
  removeRecursively_gone : forall d p d',
    removeRecursively d p = (d', true) -> fi_exists d' p = false;
  removeFile_gone : forall d p d',
    removeFile d p = (d', true) -> fi_exists d' p = false;
  removeRecursively_keeps_missing : forall d p q,
    fi_exists d q = false -> fi_exists (fst (removeRecursively d p)) q = false;
  removeFile_keeps_missing : forall d p q,
    fi_exists d q = false -> fi_exists (fst (removeFile d p)) q = false
}.

(** ** MEntry, the roles and the flags (mmodel.h is not part of the
    sources at hand: the members are those mmodel.cpp uses) *)

Record MEntry : Type := mkMEntry {
  installed : bool;
  config_size : Z;
  cache_size : Z;
  data_size : Z;
  title : string;
  icon : string;
  config_paths : list string;
  cache_paths : list string;
  data_paths : list string
}.

(** A default-constructed entry, [MEntry e;]. *)
Definition MEntry_default : MEntry := mkMEntry false 0 0 0 "" "" [] [] [].

Inductive DataType : Type := ConfigData | CacheData | LocalData.

(** [QFlags<DataType>] *)
Record DataTypes : Type := mkDataTypes {
  flagConfig : bool;
  flagCache : bool;
  flagLocal : bool
}.

Definition testFlag (types : DataTypes) (f : DataType) : bool :=
  match f with
  | ConfigData => flagConfig types
  | CacheData => flagCache types
  | LocalData => flagLocal types
  end.

(** The [int role] of [data()]: the enumerators the switch names, and
    every other integer. *)
Inductive Role : Type :=
| NameRole | TitleRole | IconRole | InstalledRole
| ConfigSizeRole | CacheSizeRole | LocalDataSizeRole | SortRole
| OtherRole (r : Z).

Inductive QVariant : Type :=
| QVariantNull
| QVariantString (s : string)
| QVariantBool (b : bool)
| QVariantLongLong (n : Z).

(** [QModelIndex]: valid when row and column are not negative and the
    index belongs to a model. *)
Record QModelIndex : Type := mkIndex {
  row : Z;
  column : Z;
  hasModel : bool
}.

Definition isValid (i : QModelIndex) : bool :=
  (0 <=? row i) && (0 <=? column i) && hasModel i.

(** [QModelIndex()] *)
Definition rootIndex : QModelIndex := mkIndex (-1) (-1) false.

Inductive Signal : Type :=
| busyChanged
| resettingChanged
| totalChanged
| deletionError (path : string)
| dataDeleted (bytes : Z)
| modelAboutToBeReset
| modelReset
| rowsAboutToBeRemoved (first last : Z)
| rowsRemoved (first last : Z)
| dataChanged (first last : Z) (roles : list Role).

(** ** The members of MModel *)

Record MModel : Type := mkMModel {
  m_busy : bool;
  m_resetting : bool;
  m_names : list string;
  m_entries : list (string * MEntry);
  m_unused_apps_count : Z;
  m_total_cache_size : Z;
  m_total_config_size : Z;
  m_total_localdata_size : Z;
  m_unused_config_size : Z;
  m_unused_cache_size : Z;
  m_unused_localdata_size : Z
}.

(** The constructor's initialiser list. *)
Definition MModel_init : MModel :=
  mkMModel false false [] [] 0 0 0 0 0 0 0.

Definition set_busy (b : bool) (m : MModel) : MModel :=
  mkMModel b (m_resetting m) (m_names m) (m_entries m)
    (m_unused_apps_count m) (m_total_cache_size m) (m_total_config_size m)
    (m_total_localdata_size m) (m_unused_config_size m)
    (m_unused_cache_size m) (m_unused_localdata_size m).

Definition set_resetting (b : bool) (m : MModel) : MModel :=
  mkMModel (m_busy m) b (m_names m) (m_entries m)
    (m_unused_apps_count m) (m_total_cache_size m) (m_total_config_size m)
    (m_total_localdata_size m) (m_unused_config_size m)
    (m_unused_cache_size m) (m_unused_localdata_size m).

Definition set_names (l : list string) (m : MModel) : MModel :=
  mkMModel (m_busy m) (m_resetting m) l (m_entries m)
    (m_unused_apps_count m) (m_total_cache_size m) (m_total_config_size m)
    (m_total_localdata_size m) (m_unused_config_size m)
    (m_unused_cache_size m) (m_unused_localdata_size m).

Definition set_entries (l : list (string * MEntry)) (m : MModel) : MModel :=
  mkMModel (m_busy m) (m_resetting m) (m_names m) l
    (m_unused_apps_count m) (m_total_cache_size m) (m_total_config_size m)
    (m_total_localdata_size m) (m_unused_config_size m)
    (m_unused_cache_size m) (m_unused_localdata_size m).

(** ** The name-to-entry map

    [m_entries] is kept as an association list with one binding per key;
    its order stands for the iteration order of the Qt container. *)

Module Entries.

Definition t : Type := list (string * MEntry).

Fixpoint lookup (k : string) (m : t) : option MEntry :=
  match m with
  | [] => None
  | (k', e) :: m' => if String.eqb k k' then Some e else lookup k m'
  end.

(** [m.contains(k)] *)
Definition contains (k : string) (m : t) : bool :=
  match lookup k m with Some _ => true | None => false end.

(** [m.insert(k, e)], also the write through a reference [m[k]]. *)
Fixpoint insert (k : string) (e : MEntry) (m : t) : t :=
  match m with
  | [] => [(k, e)]
  | (k', e') :: m' =>
      if String.eqb k k' then (k, e) :: m' else (k', e') :: insert k e m'
  end.

(** [m.remove(k)], [m.erase(it)] *)
Fixpoint remove (k : string) (m : t) : t :=
  match m with
  | [] => []
  | (k', e') :: m' =>
      if String.eqb k k' then remove k m' else (k', e') :: remove k m'
  end.

(** The value of [m[k]]: the entry bound to [k], a default-constructed
    one when there is none. *)
Definition at_ (k : string) (m : t) : MEntry :=
  match lookup k m with Some e => e | None => MEntry_default end.

Definition keys (m : t) : list string := map fst m.

End Entries.

(** [QStringList::indexOf]: the first position of [x], or -1. *)
Fixpoint indexOf_from (i : Z) (x : string) (l : list string) : Z :=
  match l with
  | [] => -1
  | y :: l' => if String.eqb x y then i else indexOf_from (i + 1) x l'
  end.

Definition indexOf (x : string) (l : list string) : Z := indexOf_from 0 x l.

(** [QStringList::removeOne]: drops the first occurrence of [x]. *)
Fixpoint removeOne (x : string) (l : list string) : list string :=
  match l with
  | [] => []
  | y :: l' => if String.eqb x y then l' else y :: removeOne x l'
  end.

(** ** What the build and the platform provide *)

(** An element of [knownApps()] (mknown_apps.hpp). *)
Record KnownApp : Type := mkKnownApp {
  name : string;
  config : list string;
  cache : list string;
  local_data : list string
}.

Record Platform : Type := mkPlatform {
  (** whether the build defines the macro SAFE_MODE *)
  SAFE_MODE : bool;
  (** [MEntry::exists()], declared in mmodel.h *)
  entry_exists : MEntry -> bool;
  (** [knownApps()] *)
  knownApps : list KnownApp;
  (** [excludeDirs()]: whether its pattern is empty, and its matcher *)
  exclude_pattern_isEmpty : bool;
  exclude_hasMatch : string -> bool;
  (** [QStandardPaths::writableLocation] of the three generic locations *)
  GenericConfigLocation : string;
  GenericCacheLocation : string;
  GenericDataLocation : string;
  (** [QStandardPaths::standardLocations(ApplicationsLocation)] *)
  ApplicationsLocation : list string
}.

(** Modelled from the spec: [MEntry::exists()] is declared in mmodel.h,
    which is missing.  The spec calls a record whose three categories
    are empty, "no paths, size 0", non-existent, and has the record
    removed as soon as the only category that held data was cleared (P5,
    and the scenario of its section 8, where both rows are gone after
    the deletion).  [clearEntry] sets the size of a cleared category to
    0 and leaves its paths recorded, so the sizes are what [exists()]
    looks at: a record exists when one of its three cached sizes is more
    than 0. *)
Definition exists_by_size (e : MEntry) : bool :=
  (config_size e >? 0) || (cache_size e >? 0) || (data_size e >? 0).

(** ** getSize and processKnownPaths *)

Section Probe.

Context {FS : FileSystem}.

Definition getSize (d : disk) (path : string) : Z :=
  let res := 0 in
  if fi_isDir d path then
    Int64.accumulate res (map (fi_size d) (dirFiles d path))
  else if fi_isFile d path then
    Int64.add res (fi_size d path)
  else res.

(** One round of the loop of [processKnownPaths]. *)
Definition processKnownPath (d : disk) (acc : list string * Z) (p : string)
  : list string * Z :=
  if fi_exists d p
  then (fst acc ++ [p], Int64.add (snd acc) (getSize d p))
  else acc.

Definition processKnownPaths (d : disk) (paths : list string) (size : Z)
    (known_paths : list string) : list string * Z :=
  fold_left (processKnownPath d) known_paths (paths, size).

(** The deletion [removePaths] attempts on one path: recursive for a
    directory, single for a file, a failure for anything else. *)
Definition removal (d : disk) (p : string) : disk * bool :=
  if fi_isDir d p then removeRecursively d p
  else if fi_isFile d p then removeFile d p
  else (d, false).

End Probe.

(** ** Computations of the model *)

Record World {FS : FileSystem} : Type := mkWorld {
  w_disk : disk;
  w_model : MModel;
  w_signals : list Signal          (* oldest first *)
}.

Arguments mkWorld {FS} _ _ _.

Definition M {FS : FileSystem} (A : Type) : Type := World -> A * World.

Definition ret {FS : FileSystem} {A} (a : A) : M A := fun w => (a, w).

Definition bind {FS : FileSystem} {A B} (c : M A) (f : A -> M B) : M B :=
  fun w => let (a, w') := c w in f a w'.

Notation "x <- c1 ;; c2" := (bind c1 (fun x => c2))
  (at level 61, c1 at next level, right associativity).
Notation "c1 ;; c2" := (bind c1 (fun _ => c2))
  (at level 61, right associativity).

Definition emit {FS : FileSystem} (s : Signal) : M unit :=
  fun w => (tt, mkWorld (w_disk w) (w_model w) (w_signals w ++ [s])).

Definition getModel {FS : FileSystem} : M MModel := fun w => (w_model w, w).

Definition modify {FS : FileSystem} (f : MModel -> MModel) : M unit :=
  fun w => (tt, mkWorld (w_disk w) (f (w_model w)) (w_signals w)).

Definition getDisk {FS : FileSystem} : M disk := fun w => (w_disk w, w).

Definition putDisk {FS : FileSystem} (d : disk) : M unit :=
  fun w => (tt, mkWorld d (w_model w) (w_signals w)).

Section Model.

Context {FS : FileSystem}.
Variable env : Platform.

Definition when (b : bool) (c : M unit) : M unit :=
  if b then c else ret tt.

Definition setBusy (busy : bool) : M unit :=
  modify (set_busy busy) ;;
  emit busyChanged.

(** *** removePaths *)

Definition removePath (p : string) : M bool :=
  d <- getDisk ;;
  let (d', ok) := removal d p in
  putDisk d' ;;
  ret ok.

(** The second loop of [removePaths], [res] being the running total. *)
Fixpoint removePaths_loop (paths : list string) (res : Z) : M Z :=
  match paths with
  | [] => ret res
  | p :: rest =>
      d <- getDisk ;;
      let size := getSize d p in
      if SAFE_MODE env then
        removePaths_loop rest (Int64.add res size)
      else
        ok <- removePath p ;;
        if ok then
          removePaths_loop rest (Int64.add res size)
        else
          emit (deletionError p) ;;
          removePaths_loop rest res
  end.

Definition removePaths (paths : list string) : M Z :=
  if existsb isEmpty paths then ret 0
  else removePaths_loop paths 0.

(** *** clearEntry *)

(** [clearEntry] works on a reference to the entry and on a reference to
    the running total: both come back with the list of changed roles. *)
Definition clearEntry (entry : MEntry) (deleted : Z) (types : DataTypes)
  : M (MEntry * Z * list Role) :=
  let changed := [] in
  r1 <-
    (if testFlag types ConfigData && (config_size entry >? 0) then
       c <- removePaths (config_paths entry) ;;
       if c >? 0 then
         ret (mkMEntry (installed entry) 0 (cache_size entry)
                (data_size entry) (title entry) (icon entry)
                (config_paths entry) (cache_paths entry)
                (data_paths entry),
              Int64.add deleted c, changed ++ [ConfigSizeRole])
       else ret (entry, deleted, changed)
     else ret (entry, deleted, changed)) ;;
  let '(entry, deleted, changed) := r1 in
  r2 <-
    (if testFlag types CacheData && (cache_size entry >? 0) then
       c <- removePaths (cache_paths entry) ;;
       if c >? 0 then
         ret (mkMEntry (installed entry) (config_size entry) 0
                (data_size entry) (title entry) (icon entry)
                (config_paths entry) (cache_paths entry)
                (data_paths entry),
              Int64.add deleted c, changed ++ [CacheSizeRole])
       else ret (entry, deleted, changed)
     else ret (entry, deleted, changed)) ;;
  let '(entry, deleted, changed) := r2 in
  if testFlag types LocalData && (data_size entry >? 0) then
    c <- removePaths (data_paths entry) ;;
    if c >? 0 then
      ret (mkMEntry (installed entry) (config_size entry)
             (cache_size entry) 0 (title entry) (icon entry)
             (config_paths entry) (cache_paths entry)
             (data_paths entry),
           Int64.add deleted c, changed ++ [LocalDataSizeRole])
    else ret (entry, deleted, changed)
  else ret (entry, deleted, changed).

(** *** calculateTotal *)

(** [++m_unused_apps_count] on int. *)
Definition int_incr (n : Z) : Z := (n + 1 + 2 ^ 31) mod 2 ^ 32 - 2 ^ 31.

(** One round of the loop of [calculateTotal]. *)
Definition addEntry (m : MModel) (e : MEntry) : MModel :=
  let localdata := Int64.add (m_total_localdata_size m) (config_size e) in
  let cache := Int64.add (m_total_cache_size m) (cache_size e) in
  let config := Int64.add (m_total_config_size m) (data_size e) in
  if negb (installed e) then
    mkMModel (m_busy m) (m_resetting m) (m_names m) (m_entries m)
      (int_incr (m_unused_apps_count m)) cache config localdata
      (Int64.add (m_unused_config_size m) (config_size e))
      (Int64.add (m_unused_cache_size m) (cache_size e))
      (Int64.add (m_unused_localdata_size m) (data_size e))
  else
    mkMModel (m_busy m) (m_resetting m) (m_names m) (m_entries m)
      (m_unused_apps_count m) cache config localdata
      (m_unused_config_size m) (m_unused_cache_size m)
      (m_unused_localdata_size m).

Definition zeroTotals (m : MModel) : MModel :=
  mkMModel (m_busy m) (m_resetting m) (m_names m) (m_entries m)
    0 0 0 0 0 0 0.

Definition calculateTotal : M unit :=
  modify (fun m => fold_left addEntry (map snd (m_entries m)) (zeroTotals m)) ;;
  emit totalChanged.

(** *** deleteData and deleteUnusedData *)

(** What [deleteDataImpl] and the loop of [deleteUnusedDataImpl] both do
    after [clearEntry]: [e], which the code holds by reference into the
    map, is written back, and the row is removed or reported changed. *)
Definition pruneOrUpdate (name : string) (e : MEntry) (changed : list Role)
  : M unit :=
  modify (fun m => set_entries (Entries.insert name e (m_entries m)) m) ;;
  m <- getModel ;;
  let row := indexOf name (m_names m) in
  if negb (entry_exists env e) then
    emit (rowsAboutToBeRemoved row row) ;;
    modify (fun m => set_names (removeOne name (m_names m)) m) ;;
    modify (fun m => set_entries (Entries.remove name (m_entries m)) m) ;;
    emit (rowsRemoved row row)
  else
    emit (dataChanged row row changed).

Definition deleteDataImpl (name : string) (types : DataTypes) : M unit :=
  m <- getModel ;;
  if negb (Entries.contains name (m_entries m)) then
    ret tt
  else
    setBusy true ;;
    let deleted := 0 in
    let e := Entries.at_ name (m_entries m) in
    r <- clearEntry e deleted types ;;
    let '(e, deleted, changed) := r in
    pruneOrUpdate name e changed ;;
    when (deleted >? 0) (calculateTotal ;; emit (dataDeleted deleted)) ;;
    setBusy false.

(** The loop of [deleteUnusedDataImpl] over the bindings the iterator has
    still to visit.  The iterator comes to every binding once and the
    loop writes to the binding at the iterator only, so [e] is the entry
    the map held for [name] when the loop began. *)
Fixpoint deleteUnused_loop (types : DataTypes)
    (pending : list (string * MEntry)) (deleted : Z) : M Z :=
  match pending with
  | [] => ret deleted
  | (name, e) :: rest =>
      if installed e then
        deleteUnused_loop types rest deleted
      else
        r <- clearEntry e deleted types ;;
        let '(e, deleted, changed) := r in
        pruneOrUpdate name e changed ;;
        deleteUnused_loop types rest deleted
  end.

Definition deleteUnusedDataImpl (types : DataTypes) : M unit :=
  setBusy true ;;
  m <- getModel ;;
  deleted <- deleteUnused_loop types (m_entries m) 0 ;;
  when (deleted >? 0) (calculateTotal ;; emit (dataDeleted deleted)) ;;
  setBusy false.

(** *** resetImpl *)

(** The first loop: one element of [knownApps()], over the names and the
    entries gathered so far. *)
Definition addKnownApp (d : disk) (st : list string * Entries.t)
    (app : KnownApp) : list string * Entries.t :=
  let e := MEntry_default in
  let (cfg_paths, cfg_size) :=
    processKnownPaths d (config_paths e) (config_size e) (config app) in
  let (cch_paths, cch_size) :=
    processKnownPaths d (cache_paths e) (cache_size e) (cache app) in
  let (dat_paths, dat_size) :=
    processKnownPaths d (data_paths e) (data_size e) (local_data app) in
  let e := mkMEntry (installed e) cfg_size cch_size dat_size
             (title e) (icon e) cfg_paths cch_paths dat_paths in
  if entry_exists env e
  then (fst st ++ [name app], Entries.insert (name app) e (snd st))
  else st.

Definition filters : list string := ["harbour-*"].

Definition app_paths : list string :=
  [GenericConfigLocation env; GenericCacheLocation env;
   GenericDataLocation env].

(** The [switch (i)] of the second loop. *)
Definition recordDir (i : nat) (dirpath : string) (size : Z) (e : MEntry)
  : MEntry :=
  match i with
  | 0%nat =>
      mkMEntry (installed e) size (cache_size e) (data_size e)
        (title e) (icon e)
        (config_paths e ++ [dirpath]) (cache_paths e) (data_paths e)
  | 1%nat =>
      mkMEntry (installed e) (config_size e) size (data_size e)
        (title e) (icon e)
        (config_paths e) (cache_paths e ++ [dirpath]) (data_paths e)
  | 2%nat =>
      mkMEntry (installed e) (config_size e) (cache_size e) size
        (title e) (icon e)
        (config_paths e) (cache_paths e) (data_paths e ++ [dirpath])
  | _ => e                                    (* Q_UNREACHABLE *)
  end.

(** The body of the [while (it.hasNext())] loop for one directory. *)
Definition mergeDir (d : disk) (i : nat) (st : list string * Entries.t)
    (dir : string * string) : list string * Entries.t :=
  let (dirpath, dirname) := dir in
  let check_excludes := negb (exclude_pattern_isEmpty env) in
  if check_excludes && exclude_hasMatch env dirpath then st
  else
    let size := getSize d dirpath in
    let names :=
      if negb (Entries.contains dirname (snd st))
      then fst st ++ [dirname] else fst st in
    let e := Entries.at_ dirname (snd st) in
    (names, Entries.insert dirname (recordDir i dirpath size e) (snd st)).

Definition searchRoot (d : disk) (st : list string * Entries.t) (i : nat)
  : list string * Entries.t :=
  fold_left (mergeDir d i) (dirSubdirs d (nth i app_paths "") filters) st.

Definition name_key : string := "Desktop Entry/Name".
Definition icon_key : string := "Desktop Entry/Icon".

(** [desktop_tmpl.arg(path, name)] *)
Definition desktop_tmpl (path name : string) : string :=
  (path ++ "/" ++ name ++ ".desktop")%string.

(** [icon_tmpls], each with its [.arg(icon_name)]. *)
Definition icon_tmpls : list (string -> string) :=
  [ (fun a => "/usr/share/icons/hicolor/86x86/apps/" ++ a ++ ".png")%string;
    (fun a => "/usr/share/themes/sailfish-default/meegotouch/z1.0/icons/"
                ++ a ++ ".png")%string ].

Fixpoint findIcon (d : disk) (icon_name : string)
    (tmpls : list (string -> string)) : option string :=
  match tmpls with
  | [] => None
  | tmpl :: rest =>
      let icon := tmpl icon_name in
      if fi_isFile d icon then Some icon else findIcon d icon_name rest
  end.

(** The loop over [desktop_paths] for one name: the entry as rewritten
    at the first desktop file found, if any. *)
Fixpoint probeDesktop (d : disk) (name : string) (e : MEntry)
    (desktop_paths : list string) : option MEntry :=
  match desktop_paths with
  | [] => None
  | path :: rest =>
      let desktop_path := desktop_tmpl path name in
      if fi_isFile d desktop_path then
        let title :=
          match settingsValue d desktop_path name_key with
          | Some v => v | None => "" end in
        let icon_name :=
          match settingsValue d desktop_path icon_key with
          | Some v => v | None => name end in
        let icon :=
          match findIcon d icon_name icon_tmpls with
          | Some i => i | None => icon e end in
        Some (mkMEntry true (config_size e) (cache_size e) (data_size e)
                title icon
                (config_paths e) (cache_paths e) (data_paths e))
      else probeDesktop d name e rest
  end.

Definition resolveInstalled (d : disk) (entries : Entries.t) (name : string)
  : Entries.t :=
  match probeDesktop d name (Entries.at_ name entries)
          (ApplicationsLocation env) with
  | Some e => Entries.insert name e entries
  | None => entries
  end.

(** The names and entries [resetImpl] builds from the disk. *)
Definition scan (d : disk) : list string * Entries.t :=
  let st := fold_left (addKnownApp d) (knownApps env) ([], []) in
  let st := fold_left (searchRoot d) [0%nat; 1%nat; 2%nat] st in
  (fst st, fold_left (resolveInstalled d) (Entries.keys (snd st)) (snd st)).

Definition resetImpl : M unit :=
  setBusy true ;;
  emit modelAboutToBeReset ;;
  modify (set_resetting true) ;;
  emit resettingChanged ;;
  modify (set_names []) ;;
  modify (set_entries []) ;;
  d <- getDisk ;;
  modify (fun m => set_entries (snd (scan d)) (set_names (fst (scan d)) m)) ;;
  emit modelReset ;;
  calculateTotal ;;
  setBusy false ;;
  modify (set_resetting false) ;;
  emit resettingChanged.

(** *** The row interface *)

Definition rowCount (m : MModel) (parent : QModelIndex) : Z :=
  if negb (isValid parent) then Z.of_nat (List.length (m_names m)) else 0.

(** [data()]; [None] stands for the read of [m_names] past its end. *)
Definition data (m : MModel) (index : QModelIndex) (role : Role)
  : option QVariant :=
  if negb (isValid index) then Some QVariantNull
  else
    match nth_error (m_names m) (Z.to_nat (row index)) with
    | None => None
    | Some name =>
        let entry := Entries.at_ name (m_entries m) in
        Some
          match role with
          | NameRole => QVariantString name
          | TitleRole =>
              QVariantString
                (if isEmpty (title entry) then name else title entry)
          | IconRole => QVariantString (icon entry)
          | InstalledRole => QVariantBool (installed entry)
          | ConfigSizeRole => QVariantLongLong (config_size entry)
          | CacheSizeRole => QVariantLongLong (cache_size entry)
          | LocalDataSizeRole => QVariantLongLong (data_size entry)
          | SortRole =>
              QVariantString
                ((if negb (installed entry) then "1" else "0")
                   ++ (if isEmpty (title entry) then name
                       else title entry))%string
          | OtherRole _ => QVariantNull
          end
    end.

End Model.

(** ** A file system in memory

    An instance of [FileSystem] on which the model can be run: a table
    from absolute paths to files (with a size, the keys of an ini file,
    and whether the file can be removed) and directories. *)

Module SimFS.

Inductive Node : Type :=
| File (size : Z) (removable : bool) (ini : list (string * string))
| Dir (removable : bool).

Definition t : Type := list (string * Node).

Fixpoint lookup (p : string) (d : t) : option Node :=
  match d with
  | [] => None
  | (q, n) :: d' => if String.eqb p q then Some n else lookup p d'
  end.

Definition exists_ (d : t) (p : string) : bool :=
  match lookup p d with Some _ => true | None => false end.

Definition isDir (d : t) (p : string) : bool :=
  match lookup p d with Some (Dir _) => true | _ => false end.

Definition isFile (d : t) (p : string) : bool :=
  match lookup p d with Some (File _ _ _) => true | _ => false end.

Definition size (d : t) (p : string) : Z :=
  match lookup p d with Some (File s _ _) => s | _ => 0 end.

(** [q] lies below the directory [p]. *)
Definition below (p q : string) : bool := String.prefix (p ++ "/")%string q.

Definition is_file (n : Node) : bool :=
  match n with File _ _ _ => true | Dir _ => false end.

Definition can_remove (n : Node) : bool :=
  match n with File _ r _ => r | Dir r => r end.

Definition files (d : t) (p : string) : list string :=
  map fst (filter (fun x => below p (fst x) && is_file (snd x)) d).

(** What is left of [q] once [pre] is taken from its front. *)
Fixpoint strip (pre q : string) : option string :=
  match pre, q with
  | EmptyString, _ => Some q
  | String a pre', String b q' =>
      if Ascii.eqb a b then strip pre' q' else None
  | String _ _, EmptyString => None
  end.

Fixpoint has_slash (s : string) : bool :=
  match s with
  | EmptyString => false
  | String a s' => Ascii.eqb a "/"%char || has_slash s'
  end.

(** A name filter: [pre*] matches the names that start with [pre], any
    other filter only itself. *)
Fixpoint matches (pattern name : string) : bool :=
  match pattern with
  | EmptyString => isEmpty name
  | String "*"%char EmptyString => true
  | String a pattern' =>
      match name with
      | String b name' => Ascii.eqb a b && matches pattern' name'
      | EmptyString => false
      end
  end.

Definition child (root : string) (filters : list string)
    (x : string * Node) : option (string * string) :=
  match snd x, strip (root ++ "/")%string (fst x) with
  | Dir _, Some n =>
      if negb (isEmpty n) && negb (has_slash n)
         && existsb (fun f => matches f n) filters
      then Some (fst x, n) else None
  | _, _ => None
  end.

Fixpoint children (root : string) (filters : list string) (d : t)
  : list (string * string) :=
  match d with
  | [] => []
  | x :: d' =>
      match child root filters x with
      | Some c => c :: children root filters d'
      | None => children root filters d'
      end
  end.

(** The first entry of each name. *)
Fixpoint uniq (l : list (string * string)) : list (string * string) :=
  match l with
  | [] => []
  | x :: l' =>
      x :: filter (fun y => negb (String.eqb (snd y) (snd x))) (uniq l')
  end.

Definition subdirs (d : t) (root : string) (filters : list string)
  : list (string * string) :=
  uniq (children root filters d).

(** [q] cannot go: it, or something below it, is not removable. *)
Definition stuck (d : t) (q : string) : bool :=
  existsb (fun x => (String.eqb (fst x) q || below q (fst x))
                    && negb (can_remove (snd x))) d.

(** [removeRecursively] deletes what it can and reports whether the
    directory itself went. *)
Definition removeTree (d : t) (p : string) : t * bool :=
  (filter (fun x => negb ((String.eqb (fst x) p || below p (fst x))
                          && negb (stuck d (fst x)))) d,
   negb (stuck d p)).

Definition unlink (d : t) (p : string) : t * bool :=
  match lookup p d with
  | Some (File _ true _) =>
      (filter (fun x => negb (String.eqb (fst x) p)) d, true)
  | _ => (d, false)
  end.

Fixpoint assoc (k : string) (l : list (string * string)) : option string :=
  match l with
  | [] => None
  | (k', v) :: l' => if String.eqb k k' then Some v else assoc k l'
  end.

Definition value (d : t) (path key : string) : option string :=
  match lookup path d with
  | Some (File _ _ ini) => assoc key ini
  | _ => None
  end.

(** The three laws of [FileSystem] hold of the table: a path without a
    node is neither a directory nor a file, and [uniq] keeps one entry
    per name. *)
#[export] Instance fileSystem : FileSystem.
Proof.
  refine {|
    disk := t;
    fi_exists := exists_;
    fi_isDir := isDir;
    fi_isFile := isFile;
    fi_size := size;
    dirFiles := files;
    dirSubdirs := subdirs;
    removeRecursively := removeTree;
    removeFile := unlink;
    settingsValue := value
  |}.
  all: assert (Hmissing : forall (f : string * Node -> bool) q d,
                  lookup q d = None -> lookup q (filter f d) = None)
    by (intros f q d; induction d as [|[k n] d IH]; simpl; [reflexivity|];
        destruct (String.eqb q k) eqn:E; [discriminate|];
        intros H; destruct (f (k, n)); simpl; [rewrite E|]; auto).
  all: assert (Hrejected : forall (f : string * Node -> bool) q d,
                  (forall n, f (q, n) = false) -> lookup q (filter f d) = None)
    by (intros f q d Hf; induction d as [|[k n] d IH]; simpl; [reflexivity|];
        destruct (f (k, n)) eqn:Ef; simpl; [|exact IH];
        destruct (String.eqb q k) eqn:E; [|exact IH];
        apply String.eqb_eq in E; subst k; rewrite Hf in Ef; discriminate).
  - intros d p. unfold exists_, isDir. destruct (lookup p d); congruence.
  - intros d p. unfold exists_, isFile. destruct (lookup p d); congruence.
  - intros d root filters. unfold subdirs.
    induction (children root filters d) as [|x l IH]; simpl.
    + constructor.
    + assert (Hin : forall (f : string * string -> bool) l0 n,
                 In n (map snd (filter f l0)) -> In n (map snd l0)).
      { intros f l0 n. rewrite !in_map_iff. intros [y [Hy Hy']].
        apply filter_In in Hy'. exists y. tauto. }
      assert (Hnodup : forall (f : string * string -> bool) l0,
                 NoDup (map snd l0) -> NoDup (map snd (filter f l0))).
      { intros f l0. induction l0 as [|y l0 IH0]; simpl; intros H.
        - constructor.
        - inversion H as [|? ? Hn Hl]; subst.
          destruct (f y); simpl; auto.
          constructor; auto.
          intros Hy. apply Hn. eapply Hin; eassumption. }
      constructor.
      * rewrite in_map_iff. intros [y [Hy Hy']].
        apply filter_In in Hy'. destruct Hy' as [_ Hne].
        rewrite Hy, String.eqb_refl in Hne. discriminate.
      * apply Hnodup, IH.
  - intros d p d' Hrm. unfold removeTree in Hrm. inversion Hrm as [[Hd Hok]].
    unfold exists_. rewrite Hrejected; [reflexivity|].
    intros n. simpl. rewrite String.eqb_refl. simpl.
    rewrite Hok. reflexivity.
  - intros d p d' Hrm. unfold unlink in Hrm.
    destruct (lookup p d) as [[sz [|] ini|r]|]; inversion Hrm; subst.
    unfold exists_. rewrite Hrejected; [reflexivity|].
    intros n. simpl. rewrite String.eqb_refl. reflexivity.
  - intros d p q. unfold exists_, removeTree. simpl.
    destruct (lookup q d) eqn:E; [discriminate|]. intros _.
    rewrite Hmissing by exact E. reflexivity.
  - intros d p q. unfold exists_, unlink.
    destruct (lookup q d) eqn:E; [discriminate|]. intros _.
    destruct (lookup p d) as [[sz [|] ini|r]|]; simpl;
      try rewrite Hmissing by exact E; rewrite ?E; reflexivity.
Defined.

End SimFS.

(** ** The vocabulary of the specification *)

Section Vocabulary.

Context {FS : FileSystem}.

(** [n] calls of [getSize] on the same path, one after the other. *)
Fixpoint probes (n : nat) (path : string) : M (list Z) :=
  match n with
  | O => ret []
  | S n' =>
      d <- getDisk ;;
      rest <- probes n' path ;;
      ret (getSize d path :: rest)
  end.

(** One path of a batch as the specification of PathRemover has it
    handled: measured first, then deleted or not. *)
Record Attempt : Type := mkAttempt {
  a_path : string;
  a_size : Z;
  a_ok : bool
}.

Fixpoint attempts (d : disk) (paths : list string) : list Attempt :=
  match paths with
  | [] => []
  | p :: rest =>
      mkAttempt p (getSize d p) (snd (removal d p))
        :: attempts (fst (removal d p)) rest
  end.

(** The disk once every path of the batch was attempted in turn. *)
Fixpoint disk_after (d : disk) (paths : list string) : disk :=
  match paths with
  | [] => d
  | p :: rest => disk_after (fst (removal d p)) rest
  end.

Definition failed (a : Attempt) : bool := negb (a_ok a).

(** The three categories of an entry. *)
Definition cat_size (c : DataType) (e : MEntry) : Z :=
  match c with
  | ConfigData => config_size e
  | CacheData => cache_size e
  | LocalData => data_size e
  end.

Definition cat_paths (c : DataType) (e : MEntry) : list string :=
  match c with
  | ConfigData => config_paths e
  | CacheData => cache_paths e
  | LocalData => data_paths e
  end.

Definition cat_role (c : DataType) : Role :=
  match c with
  | ConfigData => ConfigSizeRole
  | CacheData => CacheSizeRole
  | LocalData => LocalDataSizeRole
  end.

(** The flags of [types] that [clearEntry] looks at before it comes
    to [c]. *)
Definition before (c : DataType) (types : DataTypes) : DataTypes :=
  match c with
  | ConfigData => mkDataTypes false false false
  | CacheData => mkDataTypes (flagConfig types) false false
  | LocalData => mkDataTypes (flagConfig types) (flagCache types) false
  end.

(** The qint64 sum of [getSize] over the paths recorded for a category. *)
Definition measured (d : disk) (paths : list string) : Z :=
  Int64.wrap (Int64.sum (map (getSize d) paths)).

(** The cached sizes of [e] are those of its recorded paths on [d]. *)
Definition sizes_consistent (d : disk) (e : MEntry) : Prop :=
  forall c, cat_size c e = measured d (cat_paths c e).

(** The sums the specification asks of the totals. *)
Definition sum_over (f : MEntry -> Z) (m : MModel) : Z :=
  Int64.wrap (Int64.sum (map (fun x => f (snd x)) (m_entries m))).

Definition count_unused (m : MModel) : Z :=
  Z.of_nat (List.length (filter (fun x => negb (installed (snd x)))
                           (m_entries m))).

(** The map binds every key once, and the rows are its keys. *)
Definition well_formed (m : MModel) : Prop :=
  NoDup (Entries.keys (m_entries m)) /\ NoDup (m_names m)
  /\ forall k, In k (m_names m) <-> In k (Entries.keys (m_entries m)).

End Vocabulary.

(** ** What the proofs speak of *)

Section Invariants.

Context {FS : FileSystem}.
Variable env : Platform.

(** The entry with the cached size of one category set to 0. *)
Definition zero_size (c : DataType) (e : MEntry) : MEntry :=
  match c with
  | ConfigData =>
      mkMEntry (installed e) 0 (cache_size e) (data_size e) (title e)
        (icon e) (config_paths e) (cache_paths e) (data_paths e)
  | CacheData =>
      mkMEntry (installed e) (config_size e) 0 (data_size e) (title e)
        (icon e) (config_paths e) (cache_paths e) (data_paths e)
  | LocalData =>
      mkMEntry (installed e) (config_size e) (cache_size e) 0 (title e)
        (icon e) (config_paths e) (cache_paths e) (data_paths e)
  end.

(** One of the three blocks of [clearEntry], for the category [c]. *)
Definition clearCategory (c : DataType) (types : DataTypes)
    (st : MEntry * Z * list Role) : M (MEntry * Z * list Role) :=
  let '(entry, deleted, changed) := st in
  if testFlag types c && (cat_size c entry >? 0) then
    n <- removePaths env (cat_paths c entry) ;;
    if n >? 0 then
      ret (zero_size c entry, Int64.add deleted n, changed ++ [cat_role c])
    else ret st
  else ret st.

(** The blocks of [clearEntry] for the categories [cs], in turn. *)
Fixpoint clearCategories (cs : list DataType) (types : DataTypes)
    (st : MEntry * Z * list Role) : M (MEntry * Z * list Role) :=
  match cs with
  | [] => ret st
  | c :: cs' =>
      st' <- clearCategory c types st ;;
      clearCategories cs' types st'
  end.

(** What [clearEntry] may do to an entry: nothing but setting cached
    sizes to 0. *)
Definition cleared_from (e e' : MEntry) : Prop :=
  installed e' = installed e /\ title e' = title e /\ icon e' = icon e /\
  (forall c, cat_paths c e' = cat_paths c e) /\
  (forall c, cat_size c e' = cat_size c e \/ cat_size c e' = 0).

(** The rows of the model: the name list and the map. *)
Definition rows (m : MModel) : list string * Entries.t :=
  (m_names m, m_entries m).

(** The rows once the entry [e] was written back under [name] and the
    record removed if it does not exist any more. *)
Definition pruned (name : string) (e : MEntry)
    (r : list string * Entries.t) : list string * Entries.t :=
  if entry_exists env e
  then (fst r, Entries.insert name e (snd r))
  else (removeOne name (fst r),
        Entries.remove name (Entries.insert name e (snd r))).

(** How the map of the model stands to the map the deletion started
    from: installed records are as they were, and every record is one of
    before with nothing but sizes set to 0. *)
Definition derived_from (before_ now : Entries.t) : Prop :=
  (forall k x, Entries.lookup k before_ = Some x -> installed x = true ->
               Entries.lookup k now = Some x) /\
  (forall k x', Entries.lookup k now = Some x' ->
                exists x, Entries.lookup k before_ = Some x
                          /\ cleared_from x x').


(** The position of a category among the three search roots. *)
Definition root_index (c : DataType) : nat :=
  match c with
  | ConfigData => 0%nat
  | CacheData => 1%nat
  | LocalData => 2%nat
  end.

(** The test at the head of the second loop of [resetImpl]. *)
Definition excluded (dirpath : string) : bool :=
  negb (exclude_pattern_isEmpty env) && exclude_hasMatch env dirpath.

(** The directories the iterator finds in the search root of [c]. *)
Definition found_in_root (d : disk) (c : DataType) : list (string * string) :=
  dirSubdirs d (nth (root_index c) (app_paths env) "") filters.

(** The entry the first loop builds for a known app. *)
Definition known_entry (d : disk) (app : KnownApp) : MEntry :=
  mkMEntry false
    (snd (processKnownPaths d [] 0 (config app)))
    (snd (processKnownPaths d [] 0 (cache app)))
    (snd (processKnownPaths d [] 0 (local_data app)))
    "" ""
    (fst (processKnownPaths d [] 0 (config app)))
    (fst (processKnownPaths d [] 0 (cache app)))
    (fst (processKnownPaths d [] 0 (local_data app))).

(** The map when the first loop of [resetImpl] is done. *)
Definition known_records (d : disk) : Entries.t :=
  snd (fold_left (addKnownApp env d) (knownApps env) ([], [])).

(** No directory that the second loop records for a category goes to a
    record in which the first loop left a size other than 0 for that
    category. *)
Definition no_size_clash (d : disk) : Prop :=
  forall c dir x,
    In dir (found_in_root d c) -> excluded (fst dir) = false ->
    Entries.lookup (snd dir) (known_records d) = Some x ->
    cat_size c x = 0.

(** Every cached size of every record of the map is that of the paths
    recorded for it. *)
Definition all_consistent (d : disk) (m : Entries.t) : Prop :=
  forall k x, Entries.lookup k m = Some x -> sizes_consistent d x.




End Invariants.

(** ** roleNames, and more vocabulary *)

(** [QVariant::isValid()]: false of [QVariant()], which is what
    [QVariantNull] stands for, and true of a QVariant made from a
    QString, empty or not, from a bool or from a qint64. *)
Definition variant_isValid (v : QVariant) : bool :=
  match v with
  | QVariantNull => false
  | _ => true
  end.

(** The QVariant holds a value of the type of the member [data] returns
    for the role. *)
Definition role_holds (r : Role) (v : QVariant) : bool :=
  match r, v with
  | (NameRole | TitleRole | IconRole | SortRole), QVariantString _ => true
  | InstalledRole, QVariantBool _ => true
  | (ConfigSizeRole | CacheSizeRole | LocalDataSizeRole), QVariantLongLong _
      => true
  | _, _ => false
  end.

(** [roleNames()]: the initializer list of the hash, in its order. *)
Definition roleNames : list (Role * string) :=
  [ (NameRole, "name");
    (TitleRole, "title");
    (IconRole, "icon");
    (InstalledRole, "installed");
    (ConfigSizeRole, "configSize");
    (CacheSizeRole, "cacheSize");
    (LocalDataSizeRole, "localDataSize") ].

Section Coverage.

Context {FS : FileSystem}.
Variable env : Platform.

(** The candidate paths of a known app for a category. *)
Definition known_paths (c : DataType) (app : KnownApp) : list string :=
  match c with
  | ConfigData => config app
  | CacheData => cache app
  | LocalData => local_data app
  end.

(** The first of the desktop files [desktop_tmpl.arg(path, k)], over
    the directories of [ApplicationsLocation] in their order, that is a
    file. *)
Definition desktop_file (d : disk) (k : string) : option string :=
  find (fi_isFile d)
    (map (fun path => desktop_tmpl path k) (ApplicationsLocation env)).

(** [desktop.value(key).toString()] and [desktop.value(key, dflt)]. *)
Definition desktop_value (d : disk) (file key dflt : string) : string :=
  match settingsValue d file key with
  | Some v => v
  | None => dflt
  end.

(** The entries that are not installed, and the qint64 sum of one of
    their fields. *)
Definition unused_entries (m : MModel) : list MEntry :=
  filter (fun e => negb (installed e)) (map snd (m_entries m)).

Definition sum_unused (f : MEntry -> Z) (m : MModel) : Z :=
  Int64.wrap (Int64.sum (map f (unused_entries m))).

(** A [deletionError] for one of the paths of a batch. *)
Definition deletionError_of (paths : list string) (s : Signal) : Prop :=
  exists p, s = deletionError p /\ In p paths.

(** Every path recorded for the entry, whatever the category. *)
Definition entry_paths (e : MEntry) : list string :=
  config_paths e ++ cache_paths e ++ data_paths e.

(** The signals of [deleteDataImpl] for the row, and those for what was
    deleted. *)
Definition row_signals (row : Z) (kept : bool) (changed : list Role)
  : list Signal :=
  if kept then [dataChanged row row changed]
  else [rowsAboutToBeRemoved row row; rowsRemoved row row].

Definition deleted_signals (n : Z) : list Signal :=
  if n >? 0 then [totalChanged; dataDeleted n] else [].

(** No requested category of the entry has a positive cached size. *)
Definition nothing_to_clear (types : DataTypes) (e : MEntry) : Prop :=
  forall c, testFlag types c = true -> cat_size c e <= 0.

(** The names and the map when the first two loops of [resetImpl] are
    done, before the desktop files are looked for. *)
Definition discovered (d : disk) : list string * Entries.t :=
  fold_left (searchRoot env d) [0%nat; 1%nat; 2%nat]
    (fold_left (addKnownApp env d) (knownApps env) ([], [])).

(** The map records the path [p] for the category [c] of the name [k]. *)
Definition recorded (m : Entries.t) (k : string) (c : DataType)
    (p : string) : Prop :=
  exists x, Entries.lookup k m = Some x /\ In p (cat_paths c x).

(** [p] is a candidate of the known app [k] for [c] that exists. *)
Definition from_known (d : disk) (k : string) (c : DataType) (p : string)
  : Prop :=
  exists app, In app (knownApps env) /\ name app = k /\
              In p (known_paths c app) /\ fi_exists d p = true.

(** [p] is a directory called [k] that the iterator finds in the root of
    [c] and that the exclusion pattern does not match. *)
Definition from_root (d : disk) (k : string) (c : DataType) (p : string)
  : Prop :=
  In (p, k) (found_in_root env d c) /\ excluded env p = false.

(** An entry no desktop file was found for. *)
Definition not_yet_installed (e : MEntry) : Prop :=
  installed e = false /\ title e = "" /\ icon e = "".

(** The seven totals of the model. *)
Definition totals (m : MModel) : Z * (Z * Z * Z) * (Z * Z * Z) :=
  (m_unused_apps_count m,
   (m_total_cache_size m, m_total_config_size m, m_total_localdata_size m),
   (m_unused_config_size m, m_unused_cache_size m,
    m_unused_localdata_size m)).

End Coverage.

(** ** Worlds to run the model on *)

Module Examples.

Definition world (d : SimFS.t) (m : MModel) : World :=
  @mkWorld SimFS.fileSystem d m [].

(** The scenario of the specification: one known app with a config
    directory of 100 bytes, one harbour directory of 50 bytes in the
    cache root, no desktop file. *)
Definition env : Platform :=
  mkPlatform false exists_by_size
    [mkKnownApp "app.x" ["/fake/config/app.x"] [] []]
    false (fun p => String.eqb p "/fake/config/app.x")
    "/fake/config" "/fake/cache" "/fake/data"
    ["/usr/share/applications"].

Definition disk0 : SimFS.t :=
  [ ("/fake/config/app.x", SimFS.Dir true);
    ("/fake/config/app.x/settings", SimFS.File 100 true []);
    ("/fake/cache/harbour-foo", SimFS.Dir true);
    ("/fake/cache/harbour-foo/blob", SimFS.File 50 true []) ].

Definition scanned : World := snd (resetImpl env (world disk0 MModel_init)).

(** A batch of three files, the second of which cannot be removed. *)
Definition disk_locked : SimFS.t :=
  [ ("/d/a", SimFS.File 10 true []);
    ("/d/b", SimFS.File 5 false []);
    ("/d/c", SimFS.File 7 true []) ].

Definition batch : list string := ["/d/a"; "/d/b"; "/d/c"].

(** A known app whose config data is two files, one of them locked,
    and whose cache is a third file. *)
Definition env_locked : Platform :=
  mkPlatform false exists_by_size
    [mkKnownApp "app.y" ["/d/a"; "/d/b"] ["/d/c"] []]
    true (fun _ => false)
    "/fake/config" "/fake/cache" "/fake/data"
    ["/usr/share/applications"].

Definition scanned_locked : World :=
  snd (resetImpl env_locked (world disk_locked MModel_init)).

(** A known app called like a harbour directory of the config root
    that is none of its paths. *)
Definition env_clash : Platform :=
  mkPlatform false exists_by_size
    [mkKnownApp "harbour-foo" ["/fake/config/foo.conf"] [] []]
    false (fun p => String.eqb p "/fake/config/foo.conf")
    "/fake/config" "/fake/cache" "/fake/data"
    ["/usr/share/applications"].

Definition disk_clash : SimFS.t :=
  [ ("/fake/config/foo.conf", SimFS.File 100 true []);
    ("/fake/config/harbour-foo", SimFS.Dir true);
    ("/fake/config/harbour-foo/state", SimFS.File 50 true []) ].

Definition scanned_clash : World :=
  snd (resetImpl env_clash (world disk_clash MModel_init)).

(** A known app whose config directory is in the config root, where
    the pattern excludes it, and which has a directory of its name in
    the cache root. *)
Definition env_merge : Platform :=
  mkPlatform false exists_by_size
    [mkKnownApp "harbour-k" ["/fake/config/harbour-k"] [] []]
    false (fun p => String.eqb p "/fake/config/harbour-k")
    "/fake/config" "/fake/cache" "/fake/data"
    ["/usr/share/applications"].

Definition disk_merge : SimFS.t :=
  [ ("/fake/config/harbour-k", SimFS.Dir true);
    ("/fake/config/harbour-k/settings", SimFS.File 100 true []);
    ("/fake/cache/harbour-k", SimFS.Dir true);
    ("/fake/cache/harbour-k/blob", SimFS.File 8 true []) ].

(** An installed app next to a removed one. *)
Definition disk_mixed : SimFS.t :=
  [ ("/fake/config/harbour-one", SimFS.Dir true);
    ("/fake/config/harbour-one/conf", SimFS.File 30 true []);
    ("/fake/cache/harbour-two", SimFS.Dir true);
    ("/fake/cache/harbour-two/blob", SimFS.File 40 true []);
    ("/usr/share/applications/harbour-one.desktop",
     SimFS.File 1 true [("Desktop Entry/Name", "One")]);
    ("/usr/share/icons/hicolor/86x86/apps/harbour-one.png",
     SimFS.File 1 true []) ].

Definition env_mixed : Platform :=
  mkPlatform false exists_by_size [] true (fun _ => false)
    "/fake/config" "/fake/cache" "/fake/data"
    ["/usr/share/applications"].

Definition scanned_mixed : World :=
  snd (resetImpl env_mixed (world disk_mixed MModel_init)).

(** An installed app and nothing else. *)
Definition disk_installed : SimFS.t :=
  [ ("/fake/config/harbour-one", SimFS.Dir true);
    ("/fake/config/harbour-one/conf", SimFS.File 30 true []);
    ("/usr/share/applications/harbour-one.desktop",
     SimFS.File 1 true [("Desktop Entry/Name", "One")]) ].

Definition scanned_installed : World :=
  snd (resetImpl env_mixed (world disk_installed MModel_init)).

(** The record of the harbour directory in [scanned]. *)
Definition foo_entry : MEntry :=
  mkMEntry false 0 50 0 "" "" [] ["/fake/cache/harbour-foo"] [].

Definition config_only : DataTypes := mkDataTypes true false false.
Definition config_and_cache : DataTypes := mkDataTypes true true false.
Definition all_types : DataTypes := mkDataTypes true true true.
Definition no_types : DataTypes := mkDataTypes false false false.

(** The scenario in a build with SAFE_MODE. *)
Definition env_safe : Platform :=
  mkPlatform true exists_by_size
    [mkKnownApp "app.x" ["/fake/config/app.x"] [] []]
    false (fun p => String.eqb p "/fake/config/app.x")
    "/fake/config" "/fake/cache" "/fake/data"
    ["/usr/share/applications"].

End Examples.

(** ** Properties *)

Ltac run :=
  unfold bind, ret, emit, modify, getModel, getDisk, putDisk; simpl.

(** *** qint64 *)

Module Int64Facts.

Import Int64.

Lemma wrap_in_range z : in_range (wrap z).
Proof.
  unfold in_range, wrap, modulus, half.
  pose proof (Z.mod_pos_bound (z + 2 ^ 63) (2 ^ 64) ltac:(lia)). lia.
Qed.

Lemma wrap_small z : in_range z -> wrap z = z.
Proof.
  unfold in_range, wrap, modulus, half. intros Hz.
  rewrite Z.mod_small by lia. lia.
Qed.

Lemma wrap_wrap_add a b : wrap (wrap a + b) = wrap (a + b).
Proof.
  unfold wrap, modulus, half.
  f_equal.
  replace ((a + 2 ^ 63) mod 2 ^ 64 - 2 ^ 63 + b + 2 ^ 63)
    with ((a + 2 ^ 63) mod 2 ^ 64 + b) by lia.
  rewrite Zplus_mod_idemp_l. f_equal. lia.
Qed.

Lemma add_wrap_l a b : add (wrap a) b = wrap (a + b).
Proof. apply wrap_wrap_add. Qed.

Lemma accumulate_wrap l : forall acc,
  accumulate (wrap acc) l = wrap (acc + sum l).
Proof.
  induction l as [|x l IH]; intros acc; simpl.
  - rewrite Z.add_0_r. reflexivity.
  - unfold accumulate in *. simpl. rewrite add_wrap_l, IH.
    f_equal. lia.
Qed.

Lemma accumulate_zero l : accumulate 0 l = wrap (sum l).
Proof.
  change 0 with (wrap 0) at 1. rewrite accumulate_wrap. reflexivity.
Qed.

End Int64Facts.

(** [QString::isEmpty] is true of the empty string only. *)
Lemma isEmpty_true s : isEmpty s = true <-> s = "".
Proof. unfold isEmpty. apply String.eqb_eq. Qed.

Lemma DataType_eq_dec (a b : DataType) : {a = b} + {a <> b}.
Proof. decide equality. Defined.

(** *** SizeProbe *)

Section SizeProbe.

Context {FS : FileSystem}.

Lemma getSize_in_range d path : Int64.in_range (getSize d path).
Proof.
  unfold getSize.
  destruct (fi_isDir d path).
  - rewrite Int64Facts.accumulate_zero. apply Int64Facts.wrap_in_range.
  - destruct (fi_isFile d path).
    + apply Int64Facts.wrap_in_range.
    + unfold Int64.in_range, Int64.half. lia.
Qed.

Lemma getSize_missing d path : fi_exists d path = false -> getSize d path = 0.
Proof.
  intros Hmissing. unfold getSize.
  rewrite (missing_not_dir _ _ Hmissing), (missing_not_file _ _ Hmissing).
  reflexivity.
Qed.

(** C9: for a path that does not exist [getSize] returns 0, its result
    type having no room for an error, and any number of calls in a row
    return 0 each and leave the world as it was. *)
Theorem getSize_of_missing_path (d : disk) (path : string) :
  fi_exists d path = false ->
  getSize d path = 0 /\
  forall (n : nat) (w : World),
    w_disk w = d -> probes n path w = (repeat 0 n, w).
Proof.
  intros Hmissing. split.
  - apply getSize_missing, Hmissing.
  - induction n as [|n IH]; intros w Hw.
    + reflexivity.
    + simpl. run. rewrite (IH w Hw). simpl.
      rewrite Hw, (getSize_missing _ _ Hmissing). reflexivity.
Qed.

End SizeProbe.

Lemma getSize_of_missing_path_witness :
  SimFS.exists_ Examples.disk0 "/fake/none" = false /\
  getSize (FS := SimFS.fileSystem) Examples.disk0 "/fake/none" = 0 /\
  probes 3 "/fake/none" (Examples.world Examples.disk0 MModel_init)
    = ([0; 0; 0], Examples.world Examples.disk0 MModel_init).
Proof.
  assert (H : SimFS.exists_ Examples.disk0 "/fake/none" = false)
    by reflexivity.
  destruct (getSize_of_missing_path (FS := SimFS.fileSystem)
              Examples.disk0 "/fake/none" H) as [H0 Hn].
  split; [exact H|]. split; [exact H0|].
  apply (Hn 3%nat). reflexivity.
Defined.

(** *** The row interface *)

(** C10, as the code has it: [data] returns a null QVariant for an
    invalid index whatever the role, and for a role the switch does not
    name when the row of the valid index is one of the rows; [rowCount]
    is 0 for every valid parent. *)
Theorem data_null_rowCount_zero (m : MModel) (index parent : QModelIndex)
    (role : Role) (r : Z) :
  (isValid index = false -> data m index role = Some QVariantNull) /\
  (isValid index = true ->
   row index < Z.of_nat (List.length (m_names m)) ->
   data m index (OtherRole r) = Some QVariantNull) /\
  (isValid parent = true -> rowCount m parent = 0).
Proof.
  repeat split.
  - intros Hinv. unfold data. rewrite Hinv. reflexivity.
  - intros Hval Hrow. unfold data. rewrite Hval. simpl.
    destruct (nth_error (m_names m) (Z.to_nat (row index))) eqn:Hnth.
    + reflexivity.
    + apply nth_error_None in Hnth.
      unfold isValid in Hval.
      apply andb_true_iff in Hval. destruct Hval as [Hval _].
      apply andb_true_iff in Hval. destruct Hval as [Hval _].
      apply Z.leb_le in Hval. lia.
  - intros Hval. unfold rowCount. rewrite Hval. reflexivity.
Qed.

Lemma data_null_rowCount_zero_witness :
  let m := w_model Examples.scanned in
  data m rootIndex NameRole = Some QVariantNull /\
  data m (mkIndex 1 0 true) (OtherRole 0) = Some QVariantNull /\
  rowCount m (mkIndex 0 0 true) = 0.
Proof.
  intros m.
  destruct (data_null_rowCount_zero m rootIndex (mkIndex 0 0 true) NameRole 0)
    as [Hroot [_ Hcount]].
  destruct (data_null_rowCount_zero m (mkIndex 1 0 true) rootIndex NameRole 0)
    as [_ [Hother _]].
  split; [apply Hroot; reflexivity|].
  split; [apply Hother; [reflexivity | vm_compute; reflexivity]|].
  apply Hcount. reflexivity.
Defined.

(** C10 fails as stated: a valid index whose row is past the last row,
    asked for a role the switch does not name, makes [data] read
    [m_names] out of bounds instead of returning a null QVariant. *)
Lemma data_valid_index_past_the_rows :
  isValid (mkIndex 0 0 true) = true /\
  data MModel_init (mkIndex 0 0 true) (OtherRole 0) <> Some QVariantNull.
Proof. split; [reflexivity | discriminate]. Qed.

(** *** deleteData on an unknown name *)

Section UnknownName.

Context {FS : FileSystem}.
Variable env : Platform.

(** C7: when the name is not a key of the map, [deleteDataImpl] returns
    at once: the disk, every member of the model and the signals
    emitted are those of before. *)
Theorem deleteData_unknown_name (name : string) (types : DataTypes)
    (w : World) :
  Entries.lookup name (m_entries (w_model w)) = None ->
  deleteDataImpl env name types w = (tt, w).
Proof.
  intros Habsent. unfold deleteDataImpl. run.
  unfold Entries.contains. rewrite Habsent. reflexivity.
Qed.

End UnknownName.

Lemma deleteData_unknown_name_witness :
  Entries.lookup "harbour-bar" (m_entries (w_model Examples.scanned)) = None /\
  deleteDataImpl Examples.env "harbour-bar" Examples.all_types Examples.scanned
    = (tt, Examples.scanned).
Proof.
  split; [reflexivity|].
  apply (deleteData_unknown_name Examples.env). reflexivity.
Defined.

(** *** calculateTotal *)

Section Totals.

Context {FS : FileSystem}.

Lemma fold_addEntry_totals (l : list MEntry) :
  forall m,
    m_total_cache_size (fold_left addEntry l m)
      = Int64.accumulate (m_total_cache_size m) (map cache_size l) /\
    m_total_config_size (fold_left addEntry l m)
      = Int64.accumulate (m_total_config_size m) (map data_size l) /\
    m_total_localdata_size (fold_left addEntry l m)
      = Int64.accumulate (m_total_localdata_size m) (map config_size l).
Proof.
  induction l as [|e l IH]; intros m; [repeat split|].
  cbn [fold_left map]. destruct (IH (addEntry m e)) as (Hcache & Hconfig & Hlocal).
  rewrite Hcache, Hconfig, Hlocal.
  unfold addEntry, Int64.accumulate.
  destruct (negb (installed e)); repeat split.
Qed.

(** What [calculateTotal] leaves in the three totals: the cache total is
    the sum of the cache sizes, the config total is the sum of the
    local-data sizes, and the local-data total the sum of the config
    sizes. *)
Lemma calculateTotal_totals (w : World) :
  let m := w_model (snd (calculateTotal w)) in
  m_total_cache_size m = sum_over cache_size (w_model w) /\
  m_total_config_size m = sum_over data_size (w_model w) /\
  m_total_localdata_size m = sum_over config_size (w_model w).
Proof.
  unfold calculateTotal, sum_over. run.
  destruct (fold_addEntry_totals (map snd (m_entries (w_model w)))
              (zeroTotals (w_model w))) as (Hcache & Hconfig & Hlocal).
  rewrite Hcache, Hconfig, Hlocal. simpl.
  rewrite !Int64Facts.accumulate_zero, !map_map. repeat split.
Qed.

End Totals.

(** C1, on the scenario of the specification: after the rescan the one
    config directory of 100 bytes is counted in [m_total_localdata_size],
    and [m_total_config_size], which gets the local-data sizes, is 0. *)
Theorem calculateTotal_swaps_config_and_localdata :
  let m := w_model Examples.scanned in
  sum_over config_size m = 100 /\ m_total_config_size m = 0 /\
  sum_over data_size m = 0 /\ m_total_localdata_size m = 100 /\
  sum_over cache_size m = 50 /\ m_total_cache_size m = 50 /\
  count_unused m = 2 /\ m_unused_apps_count m = 2.
Proof. vm_compute. repeat split. Qed.

(** *** PathRemover *)

Section PathRemover.

Context {FS : FileSystem}.
Variable env : Platform.

Lemma existsb_isEmpty (paths : list string) :
  existsb isEmpty paths = true <-> In "" paths.
Proof.
  rewrite existsb_exists. split.
  - intros [p [Hin Hp]]. apply isEmpty_true in Hp. subst p. exact Hin.
  - intros Hin. exists "". split; [exact Hin | reflexivity].
Qed.

(** C4: a batch with an empty path in it is given up before anything is
    measured or deleted: [removePaths] returns 0, and the disk, the model
    and the signals emitted stay as they were. *)
Theorem removePaths_empty_path (paths : list string) (w : World) :
  In "" paths -> removePaths env paths w = (0, w).
Proof.
  intros Hin. unfold removePaths.
  apply existsb_isEmpty in Hin. rewrite Hin. reflexivity.
Qed.

(** The deletion loop against the attempts of the specification. *)
Lemma removePaths_loop_attempts (Hsafe : SAFE_MODE env = false)
    (paths : list string) :
  forall (res : Z) (w : World),
    removePaths_loop env paths res w =
    (Int64.accumulate res
       (map a_size (filter a_ok (attempts (w_disk w) paths))),
     mkWorld (disk_after (w_disk w) paths) (w_model w)
       (w_signals w
        ++ map (fun a => deletionError (a_path a))
             (filter failed (attempts (w_disk w) paths)))).
Proof.
  induction paths as [|p rest IH]; intros res w.
  - simpl. rewrite app_nil_r. destruct w; reflexivity.
  - cbn [removePaths_loop attempts disk_after].
    unfold bind at 1. unfold getDisk at 1.
    rewrite Hsafe. unfold removePath. run.
    destruct (removal (w_disk w) p) as [d' ok] eqn:Hrem. simpl.
    unfold failed at 1. simpl.
    destruct ok; simpl.
    + rewrite IH. simpl. reflexivity.
    + rewrite IH. simpl. rewrite <- app_assoc. reflexivity.
Qed.

Lemma attempts_paths (paths : list string) :
  forall d, map a_path (attempts d paths) = paths.
Proof.
  induction paths as [|p rest IH]; intros d; simpl; [|rewrite IH]; reflexivity.
Qed.

Lemma removal_gone (d : disk) (p : string) :
  snd (removal d p) = true -> fi_exists (fst (removal d p)) p = false.
Proof.
  unfold removal. destruct (fi_isDir d p).
  - destruct (removeRecursively d p) as [d' ok] eqn:E. simpl. intros ->.
    apply (removeRecursively_gone _ _ _ E).
  - destruct (fi_isFile d p).
    + destruct (removeFile d p) as [d' ok] eqn:E. simpl. intros ->.
      apply (removeFile_gone _ _ _ E).
    + simpl. discriminate.
Qed.

Lemma removal_keeps_missing (d : disk) (p q : string) :
  fi_exists d q = false -> fi_exists (fst (removal d p)) q = false.
Proof.
  intros Hq. unfold removal. destruct (fi_isDir d p).
  - apply removeRecursively_keeps_missing, Hq.
  - destruct (fi_isFile d p); [|exact Hq].
    apply removeFile_keeps_missing, Hq.
Qed.

Lemma disk_after_keeps_missing (paths : list string) :
  forall d q, fi_exists d q = false -> fi_exists (disk_after d paths) q = false.
Proof.
  induction paths as [|p rest IH]; intros d q Hq; [exact Hq|].
  simpl. apply IH, removal_keeps_missing, Hq.
Qed.

(** A path whose attempt succeeded is gone from the disk the batch
    leaves. *)
Lemma attempts_deleted_gone (paths : list string) :
  forall d a,
    In a (attempts d paths) -> a_ok a = true ->
    fi_exists (disk_after d paths) (a_path a) = false.
Proof.
  induction paths as [|p rest IH]; intros d a Hin Hok; [contradiction|].
  simpl in Hin. simpl. destruct Hin as [<-|Hin].
  - simpl in *. apply disk_after_keeps_missing, removal_gone, Hok.
  - apply IH; assumption.
Qed.

(** C5: on a batch without an empty path every path is attempted, in
    order and each one after its size was measured on the disk its
    predecessors left; the result is the qint64 sum of the sizes measured
    for the paths that were deleted (the plain sum when that fits
    qint64), one [deletionError] is emitted per path that was not, in
    order; the paths that were deleted are gone from the disk whatever
    happened to the others, and the model is not touched. *)
Theorem removePaths_failures_are_independent (paths : list string)
    (w : World) :
  SAFE_MODE env = false ->
  ~ In "" paths ->
  let tried := attempts (w_disk w) paths in
  let reclaimed := Int64.sum (map a_size (filter a_ok tried)) in
  map a_path tried = paths /\
  fst (removePaths env paths w) = Int64.wrap reclaimed /\
  (Int64.in_range reclaimed -> fst (removePaths env paths w) = reclaimed) /\
  w_signals (snd (removePaths env paths w)) =
    w_signals w ++ map (fun a => deletionError (a_path a))
                     (filter failed tried) /\
  w_disk (snd (removePaths env paths w)) = disk_after (w_disk w) paths /\
  (forall a, In a tried -> a_ok a = true ->
             fi_exists (w_disk (snd (removePaths env paths w))) (a_path a)
             = false) /\
  w_model (snd (removePaths env paths w)) = w_model w.
Proof.
  intros Hsafe Hnonempty tried reclaimed.
  assert (Hscan : existsb isEmpty paths = false).
  { destruct (existsb isEmpty paths) eqn:E; [|reflexivity].
    apply existsb_isEmpty in E. contradiction. }
  unfold removePaths. rewrite Hscan.
  rewrite (removePaths_loop_attempts Hsafe). simpl.
  fold tried. rewrite Int64Facts.accumulate_zero. fold reclaimed.
  split; [apply attempts_paths|].
  split; [reflexivity|].
  split; [intros Hfit; apply Int64Facts.wrap_small, Hfit|].
  split; [reflexivity|]. split; [reflexivity|].
  split; [|reflexivity].
  intros a Hin Hok. apply attempts_deleted_gone; assumption.
Qed.

End PathRemover.

Lemma removePaths_empty_path_witness :
  In "" ["/d/a"; ""; "/d/c"] /\
  removePaths Examples.env ["/d/a"; ""; "/d/c"]
    (Examples.world Examples.disk_locked MModel_init)
  = (0, Examples.world Examples.disk_locked MModel_init).
Proof.
  assert (H : In "" ["/d/a"; ""; "/d/c"]) by (simpl; auto).
  split; [exact H|].
  apply (removePaths_empty_path Examples.env _ _ H).
Defined.

(** The batch of the specification: [a] and [c] go, [b] is locked. *)
Lemma removePaths_failures_are_independent_witness :
  let w := Examples.world Examples.disk_locked MModel_init in
  SAFE_MODE Examples.env = false /\
  ~ In "" Examples.batch /\
  fst (removePaths Examples.env Examples.batch w) = 10 + 7 /\
  w_signals (snd (removePaths Examples.env Examples.batch w))
    = [deletionError "/d/b"] /\
  w_disk (snd (removePaths Examples.env Examples.batch w))
    = [("/d/b", SimFS.File 5 false [])].
Proof.
  intros w.
  assert (Hsafe : SAFE_MODE Examples.env = false) by reflexivity.
  assert (Hne : ~ In "" Examples.batch).
  { simpl. intros [H|[H|[H|[]]]]; discriminate H. }
  destruct (removePaths_failures_are_independent Examples.env
              Examples.batch w Hsafe Hne)
    as [_ [_ [Hsum [Hsig [Hdisk _]]]]].
  split; [exact Hsafe|]. split; [exact Hne|].
  split; [apply Hsum; vm_compute; split; [discriminate | reflexivity]|].
  split; [rewrite Hsig; reflexivity | rewrite Hdisk; reflexivity].
Defined.

(** *** clearEntry *)

Section ClearEntry.

Context {FS : FileSystem}.
Variable env : Platform.

Lemma removePaths_loop_model (paths : list string) :
  forall res w, w_model (snd (removePaths_loop env paths res w)) = w_model w.
Proof.
  induction paths as [|p rest IH]; intros res w; [reflexivity|].
  cbn [removePaths_loop]. unfold bind at 1. unfold getDisk at 1.
  destruct (SAFE_MODE env).
  - apply IH.
  - unfold removePath. run.
    destruct (removal (w_disk w) p) as [d' ok]. simpl.
    destruct ok; rewrite IH; reflexivity.
Qed.

Lemma removePaths_model (paths : list string) (w : World) :
  w_model (snd (removePaths env paths w)) = w_model w.
Proof.
  unfold removePaths. destruct (existsb isEmpty paths); [reflexivity|].
  apply removePaths_loop_model.
Qed.

Lemma clearEntry_blocks (e : MEntry) (deleted : Z) (types : DataTypes)
    (w : World) :
  clearEntry env e deleted types w =
  (r1 <- clearCategory env ConfigData types (e, deleted, []) ;;
   r2 <- clearCategory env CacheData types r1 ;;
   clearCategory env LocalData types r2) w.
Proof.
  unfold clearEntry, clearCategory, bind, ret. simpl.
  destruct (flagConfig types && (config_size e >? 0)); simpl;
    [destruct (removePaths env (config_paths e) w) as [n1 w1];
     destruct (n1 >? 0); simpl|];
    (destruct (flagCache types && (cache_size e >? 0)); simpl;
     [match goal with
      | |- context [removePaths env (cache_paths e) ?w0] =>
          destruct (removePaths env (cache_paths e) w0) as [n2 w2]
      end; destruct (n2 >? 0); simpl|]);
    reflexivity.
Qed.

Lemma cleared_from_refl e : cleared_from e e.
Proof. unfold cleared_from. auto 6. Qed.

Lemma cleared_from_trans e1 e2 e3 :
  cleared_from e1 e2 -> cleared_from e2 e3 -> cleared_from e1 e3.
Proof.
  intros (Hi1 & Ht1 & Hc1 & Hp1 & Hs1) (Hi2 & Ht2 & Hc2 & Hp2 & Hs2).
  unfold cleared_from.
  split; [congruence|]. split; [congruence|]. split; [congruence|]. split.
  - intros c. rewrite Hp2. apply Hp1.
  - intros c. destruct (Hs2 c) as [H2|H2]; [|auto].
    rewrite H2. apply Hs1.
Qed.

Lemma cleared_from_zero_size c e : cleared_from e (zero_size c e).
Proof.
  unfold cleared_from.
  split; [destruct c; reflexivity|]. split; [destruct c; reflexivity|].
  split; [destruct c; reflexivity|]. split.
  - intros c0. destruct c, c0; reflexivity.
  - intros c0. destruct c, c0; simpl; auto.
Qed.

(** A block leaves the model alone, only zeroes sizes, and marks its
    category exactly when it zeroed it. *)
Lemma clearCategory_effect (c : DataType) (types : DataTypes)
    (e : MEntry) (deleted : Z) (changed : list Role) (w : World) :
  let r := clearCategory env c types (e, deleted, changed) w in
  let fired := testFlag types c && (cat_size c e >? 0)
               && (fst (removePaths env (cat_paths c e) w) >? 0) in
  w_model (snd r) = w_model w /\
  fst r = if fired
          then (zero_size c e,
                Int64.add deleted (fst (removePaths env (cat_paths c e) w)),
                changed ++ [cat_role c])
          else (e, deleted, changed).
Proof.
  unfold clearCategory, bind, ret.
  destruct (testFlag types c && (cat_size c e >? 0)); simpl.
  - pose proof (removePaths_model (cat_paths c e) w) as Hm.
    destruct (removePaths env (cat_paths c e) w) as [n w1]. simpl in *.
    destruct (n >? 0); simpl; auto.
  - auto.
Qed.

Lemma clearCategory_skipped (c : DataType) (types : DataTypes)
    (st : MEntry * Z * list Role) (w : World) :
  testFlag types c = false -> clearCategory env c types st w = (st, w).
Proof.
  intros Hflag. destruct st as [[e deleted] changed].
  unfold clearCategory. rewrite Hflag. reflexivity.
Qed.

Lemma clearCategory_flag (c : DataType) (t1 t2 : DataTypes)
    (st : MEntry * Z * list Role) (w : World) :
  testFlag t1 c = testFlag t2 c ->
  clearCategory env c t1 st w = clearCategory env c t2 st w.
Proof.
  intros Hflag. destruct st as [[e deleted] changed].
  unfold clearCategory. rewrite Hflag. reflexivity.
Qed.

Lemma clearCategory_cleared (c : DataType) (types : DataTypes)
    (e : MEntry) (deleted : Z) (changed : list Role) (w : World) :
  let r := fst (clearCategory env c types (e, deleted, changed) w) in
  cleared_from e (fst (fst r)) /\
  (forall x, In x changed -> In x (snd r)).
Proof.
  destruct (clearCategory_effect c types e deleted changed w) as [_ Hr].
  cbv zeta. rewrite Hr.
  destruct (testFlag types c && (cat_size c e >? 0)
            && (fst (removePaths env (cat_paths c e) w) >? 0)); simpl.
  - split; [apply cleared_from_zero_size|].
    intros x Hx. apply in_or_app. auto.
  - split; [apply cleared_from_refl | auto].
Qed.

Lemma clearEntry_model (e : MEntry) (deleted : Z) (types : DataTypes)
    (w : World) :
  w_model (snd (clearEntry env e deleted types w)) = w_model w.
Proof.
  rewrite clearEntry_blocks. unfold bind.
  destruct (clearCategory_effect ConfigData types e deleted [] w) as [H1 _].
  destruct (clearCategory env ConfigData types (e, deleted, []) w)
    as [[[e1 d1] c1] w1]. simpl in H1.
  destruct (clearCategory_effect CacheData types e1 d1 c1 w1) as [H2 _].
  destruct (clearCategory env CacheData types (e1, d1, c1) w1)
    as [[[e2 d2] c2] w2]. simpl in H2.
  destruct (clearCategory_effect LocalData types e2 d2 c2 w2) as [H3 _].
  congruence.
Qed.

Lemma clearEntry_cleared (e : MEntry) (deleted : Z) (types : DataTypes)
    (w : World) :
  cleared_from e (fst (fst (fst (clearEntry env e deleted types w)))).
Proof.
  rewrite clearEntry_blocks. unfold bind.
  destruct (clearCategory_cleared ConfigData types e deleted [] w) as [H1 _].
  destruct (clearCategory env ConfigData types (e, deleted, []) w)
    as [[[e1 d1] c1] w1]. simpl in H1.
  destruct (clearCategory_cleared CacheData types e1 d1 c1 w1) as [H2 _].
  destruct (clearCategory env CacheData types (e1, d1, c1) w1)
    as [[[e2 d2] c2] w2]. simpl in H2.
  destruct (clearCategory_cleared LocalData types e2 d2 c2 w2) as [H3 _].
  eapply cleared_from_trans; [|exact H3].
  eapply cleared_from_trans; eassumption.
Qed.

End ClearEntry.

Section ClearedCategory.

Context {FS : FileSystem}.
Variable env : Platform.

Lemma zero_size_other (c0 c : DataType) (e : MEntry) :
  c <> c0 -> cat_size c (zero_size c0 e) = cat_size c e.
Proof. destruct c0, c; simpl; congruence. Qed.

Lemma zero_size_same (c : DataType) (e : MEntry) :
  cat_size c (zero_size c e) = 0.
Proof. destruct c; reflexivity. Qed.

Lemma zero_size_paths (c0 c : DataType) (e : MEntry) :
  cat_paths c (zero_size c0 e) = cat_paths c e.
Proof. destruct c0, c; reflexivity. Qed.

(** A block for another category leaves the size, the paths and the
    marks of [c] as they are. *)
Lemma clearCategory_other (c0 c : DataType) (types : DataTypes)
    (e : MEntry) (deleted : Z) (changed : list Role) (w : World) :
  c <> c0 ->
  let r := fst (clearCategory env c0 types (e, deleted, changed) w) in
  cat_size c (fst (fst r)) = cat_size c e /\
  cat_paths c (fst (fst r)) = cat_paths c e /\
  (In (cat_role c) changed -> In (cat_role c) (snd r)).
Proof.
  intros Hne.
  destruct (clearCategory_effect env c0 types e deleted changed w) as [_ Hr].
  cbv zeta. rewrite Hr.
  destruct (testFlag types c0 && (cat_size c0 e >? 0)
            && (fst (removePaths env (cat_paths c0 e) w) >? 0)); simpl.
  - rewrite zero_size_other by exact Hne. rewrite zero_size_paths.
    repeat split. intros Hin. apply in_or_app. auto.
  - auto.
Qed.

(** The block of [c] itself, when it reclaims something. *)
Lemma clearCategory_fired (c : DataType) (types : DataTypes)
    (e : MEntry) (deleted : Z) (changed : list Role) (w : World) :
  testFlag types c = true ->
  cat_size c e > 0 ->
  fst (removePaths env (cat_paths c e) w) > 0 ->
  let r := fst (clearCategory env c types (e, deleted, changed) w) in
  cat_size c (fst (fst r)) = 0 /\
  cat_paths c (fst (fst r)) = cat_paths c e /\
  In (cat_role c) (snd r).
Proof.
  intros Hflag Hsize Hgot.
  destruct (clearCategory_effect env c types e deleted changed w) as [_ Hr].
  cbv zeta. rewrite Hr, Hflag.
  replace (cat_size c e >? 0) with true by (symmetry; apply Z.gtb_lt; lia).
  replace (fst (removePaths env (cat_paths c e) w) >? 0) with true
    by (symmetry; apply Z.gtb_lt; lia).
  simpl. rewrite zero_size_same, zero_size_paths.
  repeat split. apply in_or_app. right. simpl. auto.
Qed.

(** C3, as the code has it: when a requested category with a positive
    cached size has its paths handed to [removePaths], in the world the
    earlier blocks of [clearEntry] left, and more than 0 bytes come back,
    the cached size of the category is 0 afterwards and its role is among
    the changed ones; the recorded paths of the category are the same as
    before. *)
Theorem clearEntry_zeroes_size_keeps_paths (e : MEntry) (deleted : Z)
    (types : DataTypes) (w : World) (c : DataType) :
  let wc := snd (clearEntry env e deleted (before c types) w) in
  let r := fst (clearEntry env e deleted types w) in
  testFlag types c = true ->
  cat_size c e > 0 ->
  fst (removePaths env (cat_paths c e) wc) > 0 ->
  cat_size c (fst (fst r)) = 0 /\
  cat_paths c (fst (fst r)) = cat_paths c e /\
  In (cat_role c) (snd r).
Proof.
  cbv zeta. rewrite !clearEntry_blocks. unfold bind.
  destruct c; simpl before; intros Hflag Hsize Hgot.
  - (* config: the first block *)
    rewrite !clearCategory_skipped in Hgot by reflexivity. simpl in Hgot.
    destruct (clearCategory_fired ConfigData types e deleted [] w
                Hflag Hsize Hgot) as (Hz & Hp & Hin).
    destruct (clearCategory env ConfigData types (e, deleted, []) w)
      as [[[e1 d1] c1] w1]. simpl in Hz, Hp, Hin.
    assert (Hne2 : ConfigData <> CacheData) by discriminate.
    destruct (clearCategory_other CacheData ConfigData types e1 d1 c1 w1
                Hne2) as (Hz2 & Hp2 & Hin2).
    destruct (clearCategory env CacheData types (e1, d1, c1) w1)
      as [[[e2 d2] c2] w2]. simpl in Hz2, Hp2, Hin2.
    assert (Hne3 : ConfigData <> LocalData) by discriminate.
    destruct (clearCategory_other LocalData ConfigData types e2 d2 c2 w2
                Hne3) as (Hz3 & Hp3 & Hin3).
    cbn [cat_size cat_paths cat_role] in *.
    split; [congruence|]. split; [congruence|]. auto.
  - (* cache: the second block, after the first *)
    rewrite (clearCategory_flag env ConfigData
               (mkDataTypes (flagConfig types) false false) types)
      in Hgot by reflexivity.
    assert (Hne1 : CacheData <> ConfigData) by discriminate.
    destruct (clearCategory_other ConfigData CacheData types e deleted [] w
                Hne1) as (Hz1 & Hp1 & _).
    destruct (clearCategory env ConfigData types (e, deleted, []) w)
      as [[[e1 d1] c1] w1]. simpl in Hz1, Hp1.
    rewrite !clearCategory_skipped in Hgot by reflexivity. simpl in Hgot.
    assert (Hsize1 : cat_size CacheData e1 > 0)
      by (cbn [cat_size] in *; congruence).
    assert (Hgot1 : fst (removePaths env (cat_paths CacheData e1) w1) > 0)
      by (cbn [cat_paths] in *; congruence).
    destruct (clearCategory_fired CacheData types e1 d1 c1 w1
                Hflag Hsize1 Hgot1) as (Hz & Hp & Hin).
    destruct (clearCategory env CacheData types (e1, d1, c1) w1)
      as [[[e2 d2] c2] w2]. simpl in Hz, Hp, Hin.
    assert (Hne3 : CacheData <> LocalData) by discriminate.
    destruct (clearCategory_other LocalData CacheData types e2 d2 c2 w2
                Hne3) as (Hz3 & Hp3 & Hin3).
    cbn [cat_size cat_paths cat_role] in *.
    split; [congruence|]. split; [congruence|]. auto.
  - (* local data: the third block, after the other two *)
    rewrite (clearCategory_flag env ConfigData
               (mkDataTypes (flagConfig types) (flagCache types) false) types)
      in Hgot by reflexivity.
    assert (Hne1 : LocalData <> ConfigData) by discriminate.
    destruct (clearCategory_other ConfigData LocalData types e deleted [] w
                Hne1) as (Hz1 & Hp1 & _).
    destruct (clearCategory env ConfigData types (e, deleted, []) w)
      as [[[e1 d1] c1] w1]. simpl in Hz1, Hp1.
    rewrite (clearCategory_flag env CacheData
               (mkDataTypes (flagConfig types) (flagCache types) false) types)
      in Hgot by reflexivity.
    assert (Hne2 : LocalData <> CacheData) by discriminate.
    destruct (clearCategory_other CacheData LocalData types e1 d1 c1 w1
                Hne2) as (Hz2 & Hp2 & _).
    destruct (clearCategory env CacheData types (e1, d1, c1) w1)
      as [[[e2 d2] c2] w2]. simpl in Hz2, Hp2.
    rewrite !clearCategory_skipped in Hgot by reflexivity. simpl in Hgot.
    assert (Hsize2 : cat_size LocalData e2 > 0)
      by (cbn [cat_size] in *; congruence).
    assert (Hgot2 : fst (removePaths env (cat_paths LocalData e2) w2) > 0)
      by (cbn [cat_paths] in *; congruence).
    destruct (clearCategory_fired LocalData types e2 d2 c2 w2
                Hflag Hsize2 Hgot2) as (Hz & Hp & Hin).
    cbn [cat_size cat_paths cat_role] in *.
    split; [congruence|]. split; [congruence|]. auto.
Qed.

End ClearedCategory.

(** *** Deletions without a failure *)

Section CleanDeletion.

Context {FS : FileSystem}.
Variable env : Platform.

(** When no attempt of the batch fails, every path of the batch is gone
    from the disk the batch leaves. *)
Lemma attempts_without_failure (paths : list string) :
  forall d,
    filter failed (attempts d paths) = [] ->
    forall p, In p paths -> fi_exists (disk_after d paths) p = false.
Proof.
  induction paths as [|a rest IH]; intros d Hnone p Hin; [contradiction|].
  simpl in Hnone. unfold failed at 1 in Hnone. simpl in Hnone.
  destruct (snd (removal d a)) eqn:Hok; simpl in Hnone; [|discriminate].
  simpl. destruct Hin as [->|Hin].
  - apply disk_after_keeps_missing, removal_gone, Hok.
  - apply IH; assumption.
Qed.

Lemma removePaths_loop_signals (paths : list string) :
  forall res w, exists l,
    w_signals (snd (removePaths_loop env paths res w)) = w_signals w ++ l.
Proof.
  induction paths as [|p rest IH]; intros res w.
  - exists []. simpl. rewrite app_nil_r. reflexivity.
  - cbn [removePaths_loop]. unfold bind at 1. unfold getDisk at 1.
    destruct (SAFE_MODE env); [apply IH|].
    unfold removePath. run.
    destruct (removal (w_disk w) p) as [d' ok]. simpl.
    destruct ok.
    + destruct (IH (Int64.add res (getSize (w_disk w) p))
                  (mkWorld d' (w_model w) (w_signals w))) as [l Hl].
      exists l. exact Hl.
    + destruct (IH res (mkWorld d' (w_model w)
                          (w_signals w ++ [deletionError p]))) as [l Hl].
      exists ([deletionError p] ++ l). simpl in *. rewrite Hl.
      rewrite <- app_assoc. reflexivity.
Qed.

Lemma removePaths_signals (paths : list string) (w : World) :
  exists l, w_signals (snd (removePaths env paths w)) = w_signals w ++ l.
Proof.
  unfold removePaths. destruct (existsb isEmpty paths).
  - exists []. simpl. rewrite app_nil_r. reflexivity.
  - apply removePaths_loop_signals.
Qed.

Lemma removePaths_loop_keeps_missing (paths : list string) (q : string) :
  forall res w,
    fi_exists (w_disk w) q = false ->
    fi_exists (w_disk (snd (removePaths_loop env paths res w))) q = false.
Proof.
  induction paths as [|p rest IH]; intros res w Hq; [exact Hq|].
  cbn [removePaths_loop]. unfold bind at 1. unfold getDisk at 1.
  destruct (SAFE_MODE env); [apply IH, Hq|].
  unfold removePath. run.
  pose proof (removal_keeps_missing (w_disk w) p q Hq) as Hq'.
  destruct (removal (w_disk w) p) as [d' ok]. simpl in *.
  destruct ok; apply IH; exact Hq'.
Qed.

Lemma removePaths_keeps_missing (paths : list string) (q : string)
    (w : World) :
  fi_exists (w_disk w) q = false ->
  fi_exists (w_disk (snd (removePaths env paths w))) q = false.
Proof.
  unfold removePaths. destruct (existsb isEmpty paths); [auto|].
  apply removePaths_loop_keeps_missing.
Qed.

(** A batch that reclaims something and raises no [deletionError] leaves
    none of its paths on the disk. *)
Lemma removePaths_without_failure (paths : list string) (w : World) :
  SAFE_MODE env = false ->
  fst (removePaths env paths w) > 0 ->
  w_signals (snd (removePaths env paths w)) = w_signals w ->
  forall p, In p paths ->
    fi_exists (w_disk (snd (removePaths env paths w))) p = false.
Proof.
  intros Hsafe. unfold removePaths.
  destruct (existsb isEmpty paths); [simpl; lia|].
  rewrite (removePaths_loop_attempts env Hsafe). simpl.
  intros _ Hsignals.
  rewrite <- (app_nil_r (w_signals w)) in Hsignals at 2.
  apply app_inv_head in Hsignals. apply map_eq_nil in Hsignals.
  apply attempts_without_failure, Hsignals.
Qed.

Lemma clearCategory_cases (c : DataType) (types : DataTypes) (e : MEntry)
    (deleted : Z) (changed : list Role) (w : World) :
  (fst (removePaths env (cat_paths c e) w) > 0 /\
   clearCategory env c types (e, deleted, changed) w =
   ((zero_size c e,
     Int64.add deleted (fst (removePaths env (cat_paths c e) w)),
     changed ++ [cat_role c]),
    snd (removePaths env (cat_paths c e) w)))
  \/
  (fst (clearCategory env c types (e, deleted, changed) w)
     = (e, deleted, changed) /\
   (snd (clearCategory env c types (e, deleted, changed) w) = w \/
    snd (clearCategory env c types (e, deleted, changed) w)
      = snd (removePaths env (cat_paths c e) w))).
Proof.
  unfold clearCategory, bind, ret.
  destruct (testFlag types c && (cat_size c e >? 0)); [|right; auto].
  destruct (removePaths env (cat_paths c e) w) as [n w1]. simpl.
  destruct (n >? 0) eqn:En; [|right; auto].
  left. split; [|reflexivity]. apply Z.gtb_lt in En. lia.
Qed.

Lemma clearCategory_signals (c : DataType) (types : DataTypes)
    (st : MEntry * Z * list Role) (w : World) :
  exists l,
    w_signals (snd (clearCategory env c types st w)) = w_signals w ++ l.
Proof.
  destruct st as [[e deleted] changed].
  destruct (removePaths_signals (cat_paths c e) w) as [l Hl].
  destruct (clearCategory_cases c types e deleted changed w)
    as [[_ ->]|[_ [->| ->]]]; simpl.
  - exists l. exact Hl.
  - exists []. rewrite app_nil_r. reflexivity.
  - exists l. exact Hl.
Qed.

Lemma clearCategory_keeps_missing (c : DataType) (types : DataTypes)
    (st : MEntry * Z * list Role) (w : World) (q : string) :
  fi_exists (w_disk w) q = false ->
  fi_exists (w_disk (snd (clearCategory env c types st w))) q = false.
Proof.
  intros Hq. destruct st as [[e deleted] changed].
  pose proof (removePaths_keeps_missing (cat_paths c e) q w Hq) as Hq'.
  destruct (clearCategory_cases c types e deleted changed w)
    as [[_ ->]|[_ [->| ->]]]; simpl; assumption.
Qed.

Lemma cat_role_injective (c c' : DataType) : cat_role c = cat_role c' -> c = c'.
Proof. destruct c, c'; simpl; congruence. Qed.

(** The block of another category does not mark [c]. *)
Lemma clearCategory_role_other (c0 c : DataType) (types : DataTypes)
    (st : MEntry * Z * list Role) (w : World) :
  c <> c0 ->
  ~ In (cat_role c) (snd st) ->
  ~ In (cat_role c) (snd (fst (clearCategory env c0 types st w))).
Proof.
  intros Hne Hnot. destruct st as [[e deleted] changed].
  destruct (clearCategory_cases c0 types e deleted changed w)
    as [[_ ->]|[-> _]]; simpl; [|exact Hnot].
  intros Hin. apply in_app_or in Hin. destruct Hin as [Hin|[Hin|[]]].
  - apply Hnot, Hin.
  - apply Hne. symmetry. apply cat_role_injective, Hin.
Qed.

Lemma clearCategories_signals (cs : list DataType) (types : DataTypes) :
  forall st w, exists l,
    w_signals (snd (clearCategories env cs types st w)) = w_signals w ++ l.
Proof.
  induction cs as [|c cs IH]; intros st w.
  - exists []. simpl. rewrite app_nil_r. reflexivity.
  - cbn [clearCategories]. unfold bind.
    destruct (clearCategory_signals c types st w) as [l1 Hl1].
    destruct (clearCategory env c types st w) as [st1 w1]. simpl in Hl1.
    destruct (IH st1 w1) as [l2 Hl2].
    exists (l1 ++ l2). rewrite Hl2, Hl1, app_assoc. reflexivity.
Qed.

Lemma clearCategories_keeps_missing (cs : list DataType) (types : DataTypes)
    (q : string) :
  forall st w,
    fi_exists (w_disk w) q = false ->
    fi_exists (w_disk (snd (clearCategories env cs types st w))) q = false.
Proof.
  induction cs as [|c cs IH]; intros st w Hq; [exact Hq|].
  cbn [clearCategories]. unfold bind.
  pose proof (clearCategory_keeps_missing c types st w q Hq) as Hq1.
  destruct (clearCategory env c types st w) as [st1 w1]. simpl in Hq1.
  apply IH, Hq1.
Qed.

Lemma clearCategories_cleared (cs : list DataType) (types : DataTypes) :
  forall st w,
    cleared_from (fst (fst st))
      (fst (fst (fst (clearCategories env cs types st w)))).
Proof.
  induction cs as [|c cs IH]; intros st w; [apply cleared_from_refl|].
  cbn [clearCategories]. unfold bind.
  destruct st as [[e deleted] changed].
  destruct (clearCategory_cleared env c types e deleted changed w) as [H1 _].
  destruct (clearCategory env c types (e, deleted, changed) w) as [st1 w1].
  simpl in H1. eapply cleared_from_trans; [exact H1 | apply IH].
Qed.

Lemma clearCategories_role_other (cs : list DataType) (c : DataType)
    (types : DataTypes) :
  ~ In c cs ->
  forall st w,
    ~ In (cat_role c) (snd st) ->
    ~ In (cat_role c) (snd (fst (clearCategories env cs types st w))).
Proof.
  induction cs as [|c0 cs IH]; intros Hc st w Hnot; [exact Hnot|].
  cbn [clearCategories]. unfold bind.
  assert (Hne : c <> c0) by (intros ->; apply Hc; left; reflexivity).
  pose proof (clearCategory_role_other c0 c types st w Hne Hnot) as H1.
  destruct (clearCategory env c0 types st w) as [st1 w1]. simpl in H1.
  apply IH; [|exact H1]. intros Hin. apply Hc. right. exact Hin.
Qed.

(** When the blocks raise no [deletionError], a category they mark has
    size 0 and none of its paths is left on the disk. *)
Lemma clearCategories_without_failure (Hsafe : SAFE_MODE env = false)
    (types : DataTypes) (cs : list DataType) :
  NoDup cs ->
  forall st w,
    w_signals (snd (clearCategories env cs types st w)) = w_signals w ->
    forall c, In c cs ->
      ~ In (cat_role c) (snd st) ->
      In (cat_role c) (snd (fst (clearCategories env cs types st w))) ->
      cat_size c (fst (fst (fst (clearCategories env cs types st w)))) = 0 /\
      forall p, In p (cat_paths c (fst (fst st))) ->
        fi_exists (w_disk (snd (clearCategories env cs types st w))) p = false.
Proof.
  induction cs as [|c0 cs IH]; intros Hnodup st w Hsignals c Hc Hnot Hmarked;
    [contradiction|].
  inversion Hnodup as [|? ? Hc0 Hnodup']; subst.
  revert Hsignals Hmarked. cbn [clearCategories]. unfold bind.
  destruct st as [[e deleted] changed]. simpl in Hnot.
  destruct (clearCategory_signals c0 types (e, deleted, changed) w)
    as [l1 Hl1].
  pose proof (clearCategory_cases c0 types e deleted changed w) as Hcases.
  pose proof (clearCategory_cleared env c0 types e deleted changed w)
    as [Hcleared1 _].
  pose proof (fun Hne => clearCategory_role_other c0 c types
                           (e, deleted, changed) w Hne Hnot) as Hother.
  destruct (clearCategory env c0 types (e, deleted, changed) w)
    as [st1 w1] eqn:Hblock.
  cbn [fst snd] in *.
  destruct (clearCategories_signals cs types st1 w1) as [l2 Hl2].
  pose proof (clearCategories_cleared cs types st1 w1) as Hcleared2.
  intros Hsignals Hmarked.
  assert (Hquiet : l1 = [] /\ l2 = []).
  { rewrite Hl2, Hl1, <- app_assoc in Hsignals.
    rewrite <- (app_nil_r (w_signals w)) in Hsignals at 2.
    apply app_inv_head in Hsignals. apply app_eq_nil in Hsignals.
    exact Hsignals. }
  destruct Hquiet as [-> ->]. rewrite app_nil_r in Hl1, Hl2.
  destruct (DataType_eq_dec c c0) as [->|Hne].
  - (* the block of [c] itself *)
    destruct Hcases as [[Hgot Heq]|[Heq _]].
    + inversion Heq; subst st1 w1. cbn [fst snd] in *.
      split.
      * destruct Hcleared2 as (_ & _ & _ & _ & Hsizes).
        destruct (Hsizes c0) as [Hs|Hs]; [|exact Hs].
        rewrite Hs. apply zero_size_same.
      * intros p Hp.
        apply clearCategories_keeps_missing.
        apply (removePaths_without_failure (cat_paths c0 e) w Hsafe Hgot Hl1).
        exact Hp.
    + exfalso.
      apply (clearCategories_role_other cs c0 types Hc0 st1 w1);
        [|exact Hmarked].
      rewrite Heq. exact Hnot.
  - (* a later block *)
    destruct Hc as [Hc|Hc]; [congruence|].
    destruct (IH Hnodup' st1 w1 Hl2 c Hc (Hother Hne) Hmarked)
      as [Hzero Hgone].
    split; [exact Hzero|].
    intros p Hp. apply Hgone.
    destruct Hcleared1 as (_ & _ & _ & Hpaths & _).
    rewrite Hpaths. exact Hp.
Qed.

Lemma clearEntry_categories (e : MEntry) (deleted : Z) (types : DataTypes)
    (w : World) :
  clearEntry env e deleted types w =
  clearCategories env [ConfigData; CacheData; LocalData] types
    (e, deleted, []) w.
Proof.
  rewrite clearEntry_blocks. cbn [clearCategories]. unfold bind, ret.
  destruct (clearCategory env ConfigData types (e, deleted, []) w)
    as [st1 w1].
  destruct (clearCategory env CacheData types st1 w1) as [st2 w2].
  destruct (clearCategory env LocalData types st2 w2) as [st3 w3].
  reflexivity.
Qed.

Lemma measured_missing (d : disk) (paths : list string) :
  (forall p, In p paths -> fi_exists d p = false) -> measured d paths = 0.
Proof.
  intros Hgone. unfold measured.
  replace (Int64.sum (map (getSize d) paths)) with 0; [reflexivity|].
  induction paths as [|p rest IH]; [reflexivity|].
  simpl. rewrite getSize_missing by (apply Hgone; left; reflexivity).
  rewrite <- IH; [reflexivity|].
  intros q Hq. apply Hgone. right. exact Hq.
Qed.

(** After a [clearEntry] that raised no [deletionError], the cached size
    of a category it marked is again that of the recorded paths: 0, none
    of them being left. *)
Lemma clearEntry_without_failure (e : MEntry) (deleted : Z)
    (types : DataTypes) (w : World) (c : DataType) :
  SAFE_MODE env = false ->
  w_signals (snd (clearEntry env e deleted types w)) = w_signals w ->
  In (cat_role c) (snd (fst (clearEntry env e deleted types w))) ->
  cat_size c (fst (fst (fst (clearEntry env e deleted types w))))
  = measured (w_disk (snd (clearEntry env e deleted types w)))
      (cat_paths c (fst (fst (fst (clearEntry env e deleted types w))))).
Proof.
  intros Hsafe Hsignals Hmarked.
  pose proof (clearEntry_cleared env e deleted types w)
    as (_ & _ & _ & Hpaths & _).
  rewrite Hpaths.
  rewrite clearEntry_categories in *.
  assert (Hnodup : NoDup [ConfigData; CacheData; LocalData]).
  { repeat constructor; simpl; intuition discriminate. }
  assert (Hc : In c [ConfigData; CacheData; LocalData])
    by (destruct c; simpl; auto).
  destruct (clearCategories_without_failure Hsafe types _ Hnodup
              (e, deleted, []) w Hsignals c Hc (fun H => H) Hmarked)
    as [Hzero Hgone].
  rewrite Hzero. symmetry. apply measured_missing. exact Hgone.
Qed.

End CleanDeletion.

Lemma clearEntry_zeroes_size_keeps_paths_witness :
  let e := Entries.at_ "harbour-foo" (m_entries (w_model Examples.scanned)) in
  let r := fst (clearEntry Examples.env e 0 Examples.config_and_cache
                  Examples.scanned) in
  cat_size CacheData e = 50 /\
  cat_size CacheData (fst (fst r)) = 0 /\
  cat_paths CacheData (fst (fst r)) = ["/fake/cache/harbour-foo"] /\
  In CacheSizeRole (snd r).
Proof.
  intros e r.
  destruct (clearEntry_zeroes_size_keeps_paths Examples.env e 0
              Examples.config_and_cache Examples.scanned CacheData)
    as (Hz & Hp & Hin).
  - reflexivity.
  - vm_compute. reflexivity.
  - vm_compute. reflexivity.
  - split; [reflexivity|]. split; [exact Hz|].
    split; [vm_compute; reflexivity | exact Hin].
Defined.

(** C3 fails as stated: the config directory of [app.x] is deleted and
    100 bytes come back, the cached size is set to 0, and the path is
    still recorded for the category. *)
Lemma clearEntry_keeps_the_paths :
  let e := Entries.at_ "app.x" (m_entries (w_model Examples.scanned)) in
  let r := fst (clearEntry Examples.env e 0 Examples.config_and_cache
                  Examples.scanned) in
  testFlag Examples.config_and_cache ConfigData = true /\
  config_size e = 100 /\
  fst (removePaths Examples.env (config_paths e) Examples.scanned) = 100 /\
  config_size (fst (fst r)) = 0 /\
  config_paths (fst (fst r)) <> [].
Proof. vm_compute. repeat split; discriminate. Qed.

(** *** The map and the name list *)

Section EntriesFacts.

Import Entries.

Lemma lookup_insert_eq k e m : lookup k (insert k e m) = Some e.
Proof.
  induction m as [|[k' e'] m IH]; simpl.
  - rewrite String.eqb_refl. reflexivity.
  - destruct (String.eqb k k') eqn:E; simpl.
    + rewrite String.eqb_refl. reflexivity.
    + rewrite E. exact IH.
Qed.

Lemma lookup_insert_ne k k' e m :
  k <> k' -> lookup k' (insert k e m) = lookup k' m.
Proof.
  intros Hne. induction m as [|[k0 e0] m IH]; simpl.
  - destruct (String.eqb k' k) eqn:E; [|reflexivity].
    apply String.eqb_eq in E. congruence.
  - destruct (String.eqb k k0) eqn:E; simpl.
    + apply String.eqb_eq in E. subst k0.
      destruct (String.eqb k' k) eqn:E'; [|reflexivity].
      apply String.eqb_eq in E'. congruence.
    + destruct (String.eqb k' k0); [reflexivity | exact IH].
Qed.

Lemma lookup_remove_eq k m : lookup k (remove k m) = None.
Proof.
  induction m as [|[k' e'] m IH]; simpl; [reflexivity|].
  destruct (String.eqb k k') eqn:E; simpl; [exact IH|].
  rewrite E. exact IH.
Qed.

Lemma lookup_remove_ne k k' m :
  k <> k' -> lookup k' (remove k m) = lookup k' m.
Proof.
  intros Hne. induction m as [|[k0 e0] m IH]; simpl; [reflexivity|].
  destruct (String.eqb k k0) eqn:E; simpl.
  - apply String.eqb_eq in E. subst k0.
    destruct (String.eqb k' k) eqn:E'; [|exact IH].
    apply String.eqb_eq in E'. congruence.
  - destruct (String.eqb k' k0); [reflexivity | exact IH].
Qed.


Lemma lookup_keys k m : lookup k m <> None <-> In k (keys m).
Proof.
  unfold keys. induction m as [|[k' e'] m IH]; simpl.
  - split; [congruence | tauto].
  - destruct (String.eqb k k') eqn:E.
    + apply String.eqb_eq in E. split; [auto | congruence].
    + apply String.eqb_neq in E. rewrite IH. split; [auto|].
      intros [H|H]; [congruence | exact H].
Qed.

(** In a map that binds every key once, every binding is the one
    [lookup] finds. *)
Lemma In_lookup k e m : NoDup (keys m) -> In (k, e) m -> lookup k m = Some e.
Proof.
  unfold keys. induction m as [|[k' e'] m IH]; simpl; [tauto|].
  intros Hnd [Hin|Hin].
  - inversion Hin; subst. rewrite String.eqb_refl. reflexivity.
  - inversion Hnd as [|? ? Hk Hm]; subst.
    destruct (String.eqb k k') eqn:E.
    + apply String.eqb_eq in E. subst k'. exfalso. apply Hk.
      change k with (fst (k, e)). apply in_map, Hin.
    + apply IH; assumption.
Qed.

Lemma contains_lookup k e m : lookup k m = Some e -> contains k m = true.
Proof. unfold contains. intros H. rewrite H. reflexivity. Qed.

Lemma at_lookup k e m : lookup k m = Some e -> at_ k m = e.
Proof. unfold at_. intros H. rewrite H. reflexivity. Qed.

End EntriesFacts.



Lemma removeOne_NoDup (x : string) (l : list string) :
  NoDup l -> ~ In x (removeOne x l).
Proof.
  induction l as [|y l IH]; simpl; [tauto|].
  intros Hnd. inversion Hnd as [|? ? Hy Hl]; subst.
  destruct (String.eqb x y) eqn:E.
  - apply String.eqb_eq in E. subst y. exact Hy.
  - apply String.eqb_neq in E. simpl. intros [H|H]; [congruence|].
    apply (IH Hl H).
Qed.

(** *** deleteData and deleteUnusedData *)

Section Deletion.

Context {FS : FileSystem}.
Variable env : Platform.

Lemma fold_addEntry_rows (l : list MEntry) :
  forall m, rows (fold_left addEntry l m) = rows m.
Proof.
  induction l as [|e l IH]; intros m; simpl; [reflexivity|].
  rewrite IH. unfold addEntry. destruct (negb (installed e)); reflexivity.
Qed.

Lemma calculateTotal_rows (w : World) :
  rows (w_model (snd (calculateTotal w))) = rows (w_model w).
Proof.
  unfold calculateTotal. run.
  rewrite fold_addEntry_rows. reflexivity.
Qed.

Lemma finish_rows (deleted : Z) (w : World) :
  rows (w_model (snd ((when (deleted >? 0)
                         (calculateTotal ;; emit (dataDeleted deleted)) ;;
                       setBusy false) w)))
  = rows (w_model w).
Proof.
  unfold when, setBusy, bind at 1.
  destruct (deleted >? 0).
  - unfold bind at 1.
    pose proof (calculateTotal_rows w) as Hrows.
    destruct (calculateTotal w) as [[] w1]. simpl in Hrows.
    run. exact Hrows.
  - reflexivity.
Qed.

Lemma pruneOrUpdate_rows (name : string) (e : MEntry) (changed : list Role)
    (w : World) :
  rows (w_model (snd (pruneOrUpdate env name e changed w)))
  = pruned env name e (rows (w_model w)).
Proof.
  unfold pruneOrUpdate, pruned. run.
  destruct (entry_exists env e); reflexivity.
Qed.

Lemma lookup_pruned (name : string) (e : MEntry)
    (r : list string * Entries.t) :
  Entries.lookup name (snd (pruned env name e r))
    = (if entry_exists env e then Some e else None) /\
  forall k, name <> k ->
    Entries.lookup k (snd (pruned env name e r)) = Entries.lookup k (snd r).
Proof.
  unfold pruned. destruct (entry_exists env e); simpl.
  - split; [apply lookup_insert_eq|].
    intros k Hk. apply lookup_insert_ne, Hk.
  - split; [apply lookup_remove_eq|].
    intros k Hk. rewrite lookup_remove_ne by exact Hk.
    apply lookup_insert_ne, Hk.
Qed.

(** [deleteDataImpl] on a name the map does not bind: the early return. *)
Lemma deleteDataImpl_absent (name : string) (types : DataTypes) (w : World) :
  Entries.lookup name (m_entries (w_model w)) = None ->
  snd (deleteDataImpl env name types w) = w.
Proof.
  intros Habsent. unfold deleteDataImpl, bind, getModel, Entries.contains.
  rewrite Habsent. reflexivity.
Qed.

(** [deleteDataImpl] on a name of the map: the rows afterwards. *)
Lemma deleteDataImpl_rows (name : string) (types : DataTypes) (w : World)
    (e : MEntry) :
  Entries.lookup name (m_entries (w_model w)) = Some e ->
  exists e',
    cleared_from e e' /\
    rows (w_model (snd (deleteDataImpl env name types w)))
    = pruned env name e' (rows (w_model w)).
Proof.
  intros Hfound.
  exists (fst (fst (fst (clearEntry env e 0 types (snd (setBusy true w)))))).
  split; [apply clearEntry_cleared|].
  unfold deleteDataImpl. unfold bind at 1. unfold getModel at 1.
  rewrite (contains_lookup _ _ _ Hfound), (at_lookup _ _ _ Hfound).
  cbn [negb]. unfold bind at 1.
  destruct (setBusy true w) as [[] w1] eqn:Hbusy.
  assert (Hrows1 : rows (w_model w1) = rows (w_model w)).
  { unfold setBusy in Hbusy. revert Hbusy. run.
    intros H. inversion H. reflexivity. }
  unfold bind at 1. cbn [snd].
  pose proof (clearEntry_model env e 0 types w1) as Hmodel.
  destruct (clearEntry env e 0 types w1) as [[[e' deleted] changed] w2].
  cbn [fst snd] in *.
  unfold bind at 1.
  pose proof (pruneOrUpdate_rows name e' changed w2) as Hpruned.
  destruct (pruneOrUpdate env name e' changed w2) as [[] w3].
  cbn [snd] in Hpruned.
  rewrite finish_rows, Hpruned, Hmodel, Hrows1. reflexivity.
Qed.

Lemma derived_from_refl (m : Entries.t) : derived_from m m.
Proof.
  split; [auto|]. intros k x' H. exists x'. split; [exact H|].
  apply cleared_from_refl.
Qed.

Lemma derived_from_pruned (before_ : Entries.t) (name : string)
    (e e' : MEntry) (r : list string * Entries.t) :
  Entries.lookup name before_ = Some e ->
  installed e = false ->
  cleared_from e e' ->
  derived_from before_ (snd r) ->
  derived_from before_ (snd (pruned env name e' r)).
Proof.
  intros Hfound Hunused Hcleared [Hkeep Hfrom].
  destruct (lookup_pruned name e' r) as [Hname Hother].
  split.
  - intros k x Hk Hinst.
    assert (Hne : name <> k).
    { intros ->. rewrite Hfound in Hk. inversion Hk; subst. congruence. }
    rewrite (Hother k Hne). apply Hkeep; assumption.
  - intros k x' Hk.
    destruct (String.eqb name k) eqn:E.
    + apply String.eqb_eq in E. subst k. rewrite Hname in Hk.
      destruct (entry_exists env e'); [|discriminate].
      inversion Hk; subst. exists e. auto.
    + apply String.eqb_neq in E. rewrite (Hother k E) in Hk.
      apply Hfrom, Hk.
Qed.


(** The loop of [deleteUnusedDataImpl], for any property of the rows that
    pruning an unused record of the snapshot keeps. *)
Lemma deleteUnused_loop_rows (before_ : Entries.t)
    (P : list string * Entries.t -> Prop) (types : DataTypes)
    (Hstep : forall name e e' r,
        Entries.lookup name before_ = Some e -> installed e = false ->
        cleared_from e e' -> P r -> P (pruned env name e' r)) :
  forall (pending : list (string * MEntry)) (deleted : Z) (w : World),
    (forall k x, In (k, x) pending -> Entries.lookup k before_ = Some x) ->
    P (rows (w_model w)) ->
    P (rows (w_model (snd (deleteUnused_loop env types pending deleted w)))).
Proof.
  induction pending as [|[name e] rest IH]; intros deleted w Hsnap HP.
  - exact HP.
  - cbn [deleteUnused_loop].
    assert (Hrest : forall k x, In (k, x) rest ->
                                Entries.lookup k before_ = Some x).
    { intros k x Hin. apply Hsnap. right. exact Hin. }
    destruct (installed e) eqn:Hinst.
    + apply IH; assumption.
    + unfold bind at 1.
      pose proof (clearEntry_model env e deleted types w) as Hmodel.
      pose proof (clearEntry_cleared env e deleted types w) as Hcleared.
      destruct (clearEntry env e deleted types w)
        as [[[e' deleted'] changed] w1].
      cbn [fst snd] in *.
      unfold bind at 1.
      pose proof (pruneOrUpdate_rows name e' changed w1) as Hpruned.
      destruct (pruneOrUpdate env name e' changed w1) as [[] w2].
      cbn [snd] in Hpruned.
      apply IH; [exact Hrest|].
      rewrite Hpruned, Hmodel.
      apply (Hstep name e e'); auto.
      apply Hsnap. left. reflexivity.
Qed.

Lemma deleteUnusedDataImpl_rows (P : list string * Entries.t -> Prop)
    (types : DataTypes) (w : World)
    (Hstep : forall name e e' r,
        Entries.lookup name (m_entries (w_model w)) = Some e ->
        installed e = false ->
        cleared_from e e' -> P r -> P (pruned env name e' r)) :
  NoDup (Entries.keys (m_entries (w_model w))) ->
  P (rows (w_model w)) ->
  P (rows (w_model (snd (deleteUnusedDataImpl env types w)))).
Proof.
  intros Hnodup HP.
  unfold deleteUnusedDataImpl. unfold bind at 1.
  destruct (setBusy true w) as [[] w1] eqn:Hbusy.
  assert (Hmodel1 : m_entries (w_model w1) = m_entries (w_model w)
                    /\ rows (w_model w1) = rows (w_model w)).
  { unfold setBusy in Hbusy. revert Hbusy. run.
    intros H. inversion H. split; reflexivity. }
  destruct Hmodel1 as [Hentries1 Hrows1].
  unfold bind at 1. unfold getModel at 1. unfold bind at 1.
  pose proof (deleteUnused_loop_rows (m_entries (w_model w)) P types Hstep
                (m_entries (w_model w1)) 0 w1) as Hloop.
  destruct (deleteUnused_loop env types (m_entries (w_model w1)) 0 w1)
    as [deleted w2].
  cbn [snd] in Hloop.
  rewrite finish_rows. apply Hloop.
  - intros k x Hin. rewrite Hentries1 in Hin.
    apply In_lookup; assumption.
  - rewrite Hrows1. exact HP.
Qed.

End Deletion.

Section DeletionTheorems.

Context {FS : FileSystem}.
Variable env : Platform.

(** C8: [deleteUnusedDataImpl] leaves every installed record of the map
    exactly as it was, paths, sizes, title and icon included; and every
    record the map holds after [deleteUnusedDataImpl] or after
    [deleteDataImpl] is a record of before with the same installed
    field. *)
Theorem deletions_leave_installed_alone (types : DataTypes) (name : string)
    (w : World) :
  NoDup (Entries.keys (m_entries (w_model w))) ->
  let m := m_entries (w_model w) in
  let mu := m_entries (w_model (snd (deleteUnusedDataImpl env types w))) in
  let md := m_entries (w_model (snd (deleteDataImpl env name types w))) in
  (forall k x, Entries.lookup k m = Some x -> installed x = true ->
               Entries.lookup k mu = Some x) /\
  (forall k x', Entries.lookup k mu = Some x' ->
                exists x, Entries.lookup k m = Some x
                          /\ installed x' = installed x) /\
  (forall k x', Entries.lookup k md = Some x' ->
                exists x, Entries.lookup k m = Some x
                          /\ installed x' = installed x).
Proof.
  intros Hnodup m mu md.
  assert (Hunused : derived_from m mu).
  { apply (deleteUnusedDataImpl_rows env
             (fun r => derived_from m (snd r)) types w).
    - intros k e e' r Hk Hinst Hcl Hr.
      apply (derived_from_pruned env m k e e' r); assumption.
    - exact Hnodup.
    - apply derived_from_refl. }
  destruct Hunused as [Hkeep Hfrom].
  split; [exact Hkeep|]. split.
  - intros k x' Hk. destruct (Hfrom k x' Hk) as [x [Hx Hcl]].
    exists x. split; [exact Hx | apply Hcl].
  - intros k x' Hk. subst md.
    destruct (Entries.lookup name m) as [e|] eqn:Hname.
    + destruct (deleteDataImpl_rows env name types w e Hname)
        as [e' [Hcl Hrows]].
      assert (Hmd : m_entries (w_model (snd (deleteDataImpl env name types w)))
                    = snd (pruned env name e' (rows (w_model w)))).
      { rewrite <- Hrows. reflexivity. }
      rewrite Hmd in Hk.
      destruct (lookup_pruned env name e' (rows (w_model w)))
        as [Hself Hother].
      destruct (String.eqb name k) eqn:E.
      * apply String.eqb_eq in E. subst k. rewrite Hself in Hk.
        destruct (entry_exists env e'); [|discriminate].
        inversion Hk; subst. exists e. split; [exact Hname | apply Hcl].
      * apply String.eqb_neq in E. rewrite (Hother k E) in Hk.
        exists x'. split; [exact Hk | reflexivity].
    + rewrite (deleteDataImpl_absent env name types w Hname) in Hk.
      exists x'. split; [exact Hk | reflexivity].
Qed.

End DeletionTheorems.

Ltac distinct_names :=
  repeat (constructor; [simpl; intuition discriminate|]); constructor.

Lemma deletions_leave_installed_alone_witness :
  let w := Examples.scanned_mixed in
  let w' := snd (deleteUnusedDataImpl Examples.env_mixed Examples.all_types w) in
  NoDup (Entries.keys (m_entries (w_model w))) /\
  Entries.lookup "harbour-one" (m_entries (w_model w'))
    = Entries.lookup "harbour-one" (m_entries (w_model w)) /\
  SimFS.exists_ (w_disk w') "/fake/cache/harbour-two" = false.
Proof.
  intros w w'.
  assert (Hnd : NoDup (Entries.keys (m_entries (w_model w))))
    by (vm_compute; distinct_names).
  destruct (deletions_leave_installed_alone Examples.env_mixed
              Examples.all_types "harbour-two" w Hnd) as [Hkeep _].
  split; [exact Hnd|]. split; [|reflexivity].
  pose (x := Entries.at_ "harbour-one" (m_entries (w_model w))).
  assert (E : Entries.lookup "harbour-one" (m_entries (w_model w)) = Some x)
    by reflexivity.
  rewrite E. apply Hkeep; [exact E | reflexivity].
Defined.

(** *** The rescan *)

Section Rescan.

Context {FS : FileSystem}.
Variable env : Platform.
Variable d : disk.

Lemma processKnownPaths_filter (known : list string) :
  forall paths size,
    processKnownPaths d paths size known =
    (paths ++ filter (fi_exists d) known,
     Int64.accumulate size (map (getSize d) (filter (fi_exists d) known))).
Proof.
  unfold processKnownPaths.
  induction known as [|p known IH]; intros paths size; simpl.
  - rewrite app_nil_r. reflexivity.
  - unfold processKnownPath at 2. simpl.
    destruct (fi_exists d p); rewrite IH; simpl; [|reflexivity].
    rewrite <- app_assoc. reflexivity.
Qed.


Lemma measured_one (p : string) : measured d [p] = getSize d p.
Proof.
  unfold measured. simpl. rewrite Z.add_0_r.
  apply Int64Facts.wrap_small, getSize_in_range.
Qed.

Lemma default_consistent : sizes_consistent d MEntry_default.
Proof. intros c. destruct c; reflexivity. Qed.

Lemma addKnownApp_entries (st : list string * Entries.t) (app : KnownApp) :
  snd (addKnownApp env d st app) =
  if entry_exists env (known_entry d app)
  then Entries.insert (name app) (known_entry d app) (snd st)
  else snd st.
Proof.
  unfold addKnownApp, known_entry. simpl.
  destruct (processKnownPaths d [] 0 (config app)).
  destruct (processKnownPaths d [] 0 (cache app)).
  destruct (processKnownPaths d [] 0 (local_data app)).
  simpl. destruct (entry_exists env _); reflexivity.
Qed.

Lemma known_entry_consistent (app : KnownApp) :
  sizes_consistent d (known_entry d app).
Proof.
  intros c. unfold known_entry, measured.
  destruct c; simpl; rewrite processKnownPaths_filter; simpl;
    apply Int64Facts.accumulate_zero.
Qed.

Lemma known_records_consistent : all_consistent d (known_records env d).
Proof.
  unfold known_records.
  assert (H : forall apps st,
             all_consistent d (snd st) ->
             all_consistent d (snd (fold_left (addKnownApp env d) apps st))).
  { induction apps as [|app apps IH]; intros st Hst; [exact Hst|].
    cbn [fold_left]. apply IH. rewrite addKnownApp_entries.
    destruct (entry_exists env (known_entry d app)); [|exact Hst].
    intros k x Hk.
    destruct (String.eqb (name app) k) eqn:E.
    - apply String.eqb_eq in E. subst k.
      rewrite lookup_insert_eq in Hk. inversion Hk; subst x.
      apply known_entry_consistent.
    - apply String.eqb_neq in E. rewrite lookup_insert_ne in Hk by exact E.
      apply (Hst k x Hk). }
  apply H. intros k x Hk. discriminate Hk.
Qed.

Lemma recordDir_category (c : DataType) (dirpath : string) (size : Z)
    (e : MEntry) :
  cat_paths c (recordDir (root_index c) dirpath size e)
    = cat_paths c e ++ [dirpath] /\
  cat_size c (recordDir (root_index c) dirpath size e) = size /\
  forall c', c' <> c ->
    cat_paths c' (recordDir (root_index c) dirpath size e) = cat_paths c' e /\
    cat_size c' (recordDir (root_index c) dirpath size e) = cat_size c' e.
Proof.
  destruct c; simpl; repeat split;
    destruct c'; simpl; congruence.
Qed.

Lemma mergeDir_entries (i : nat) (st : list string * Entries.t)
    (dir : string * string) :
  snd (mergeDir env d i st dir) =
  if excluded env (fst dir) then snd st
  else Entries.insert (snd dir)
         (recordDir i (fst dir) (getSize d (fst dir))
            (Entries.at_ (snd dir) (snd st)))
         (snd st).
Proof.
  unfold mergeDir, excluded. destruct dir as [dirpath dirname]. simpl.
  destruct (negb (exclude_pattern_isEmpty env) && exclude_hasMatch env dirpath);
    reflexivity.
Qed.

Lemma at_insert_eq (k : string) (e : MEntry) (m : Entries.t) :
  Entries.at_ k (Entries.insert k e m) = e.
Proof. unfold Entries.at_. rewrite lookup_insert_eq. reflexivity. Qed.

Lemma at_insert_ne (k k' : string) (e : MEntry) (m : Entries.t) :
  k <> k' -> Entries.at_ k' (Entries.insert k e m) = Entries.at_ k' m.
Proof.
  intros H. unfold Entries.at_. rewrite lookup_insert_ne by exact H.
  reflexivity.
Qed.

Lemma at_consistent (k : string) (m : Entries.t) :
  all_consistent d m -> sizes_consistent d (Entries.at_ k m).
Proof.
  intros Hm. unfold Entries.at_.
  destruct (Entries.lookup k m) as [x|] eqn:Hx;
    [apply (Hm k x Hx) | apply default_consistent].
Qed.

Lemma sum_snoc (l : list Z) (x : Z) : Int64.sum (l ++ [x]) = Int64.sum l + x.
Proof. induction l as [|y l IH]; simpl; [|rewrite IH]; lia. Qed.

Lemma measured_snoc (l : list string) (p : string) :
  measured d (l ++ [p]) = Int64.add (measured d l) (getSize d p).
Proof.
  unfold measured. rewrite map_app. cbn [map].
  rewrite sum_snoc, Int64Facts.add_wrap_l. reflexivity.
Qed.

(** A directory of the root of [c'] leaves the category [c] of the
    record [k] alone when it is another category or another name. *)
Lemma mergeDir_other (c' c : DataType) (st : list string * Entries.t)
    (dir : string * string) (k : string) :
  c <> c' \/ snd dir <> k ->
  cat_paths c (Entries.at_ k (snd (mergeDir env d (root_index c') st dir)))
    = cat_paths c (Entries.at_ k (snd st)) /\
  cat_size c (Entries.at_ k (snd (mergeDir env d (root_index c') st dir)))
    = cat_size c (Entries.at_ k (snd st)).
Proof.
  intros Hother. rewrite mergeDir_entries.
  destruct (excluded env (fst dir)); [split; reflexivity|].
  destruct (String.eqb (snd dir) k) eqn:E.
  - apply String.eqb_eq in E. subst k.
    destruct Hother as [Hc|Hk]; [|congruence].
    rewrite at_insert_eq.
    destruct (recordDir_category c' (fst dir) (getSize d (fst dir))
                (Entries.at_ (snd dir) (snd st))) as (_ & _ & Hothers).
    apply (Hothers c Hc).
  - apply String.eqb_neq in E. rewrite at_insert_ne by exact E.
    split; reflexivity.
Qed.

(** A directory of the root of [c] that is not excluded: its path is
    appended to the category [c] of the record of its name, and the
    size of the category becomes that of the directory. *)
Lemma mergeDir_hit (c : DataType) (st : list string * Entries.t)
    (dir : string * string) :
  excluded env (fst dir) = false ->
  cat_paths c
    (Entries.at_ (snd dir) (snd (mergeDir env d (root_index c) st dir)))
    = cat_paths c (Entries.at_ (snd dir) (snd st)) ++ [fst dir] /\
  cat_size c
    (Entries.at_ (snd dir) (snd (mergeDir env d (root_index c) st dir)))
    = getSize d (fst dir).
Proof.
  intros Hexcl. rewrite mergeDir_entries, Hexcl, at_insert_eq.
  destruct (recordDir_category c (fst dir) (getSize d (fst dir))
              (Entries.at_ (snd dir) (snd st))) as (Hp & Hs & _).
  split; assumption.
Qed.

Lemma searchRoot_other (c' c : DataType) (k : string)
    (dirs : list (string * string)) :
  forall st,
    c <> c' \/ ~ In k (map snd dirs) ->
    cat_paths c
      (Entries.at_ k (snd (fold_left (mergeDir env d (root_index c')) dirs st)))
      = cat_paths c (Entries.at_ k (snd st)) /\
    cat_size c
      (Entries.at_ k (snd (fold_left (mergeDir env d (root_index c')) dirs st)))
      = cat_size c (Entries.at_ k (snd st)).
Proof.
  induction dirs as [|dir dirs IH]; intros st Hother; [split; reflexivity|].
  cbn [fold_left].
  destruct (IH (mergeDir env d (root_index c') st dir)) as [Hp Hs].
  { destruct Hother as [Hc|Hk]; [left; exact Hc|].
    right. intros Hin. apply Hk. right. exact Hin. }
  destruct (mergeDir_other c' c st dir k) as [Hp1 Hs1].
  { destruct Hother as [Hc|Hk]; [left; exact Hc|].
    right. intros Heq. apply Hk. left. exact Heq. }
  rewrite Hp, Hs. split; assumption.
Qed.

Lemma searchRoot_hit (c : DataType) (dir : string * string)
    (dirs : list (string * string)) :
  forall st,
    NoDup (map snd dirs) -> In dir dirs -> excluded env (fst dir) = false ->
    cat_paths c
      (Entries.at_ (snd dir)
         (snd (fold_left (mergeDir env d (root_index c)) dirs st)))
      = cat_paths c (Entries.at_ (snd dir) (snd st)) ++ [fst dir] /\
    cat_size c
      (Entries.at_ (snd dir)
         (snd (fold_left (mergeDir env d (root_index c)) dirs st)))
      = getSize d (fst dir).
Proof.
  induction dirs as [|dir0 dirs IH]; intros st Hnodup Hin Hexcl;
    [contradiction|].
  cbn [fold_left]. cbn [map] in Hnodup.
  inversion Hnodup as [|? ? Hhead Htail]; subst.
  destruct Hin as [Heq|Hin].
  - subst dir0.
    destruct (searchRoot_other c c (snd dir) dirs
                (mergeDir env d (root_index c) st dir)) as [Hp Hs];
      [right; exact Hhead|].
    rewrite Hp, Hs. apply mergeDir_hit, Hexcl.
  - destruct (IH (mergeDir env d (root_index c) st dir0) Htail Hin Hexcl)
      as [Hp Hs].
    destruct (mergeDir_other c c st dir0 (snd dir)) as [Hp1 Hs1].
    { right. intros Heq. apply Hhead. rewrite Heq. apply in_map, Hin. }
    rewrite Hp, Hs, Hp1. split; reflexivity.
Qed.

(** The second loop on the root of [c], [dirs] being what the iterator
    has still to deliver: the sizes stay those of the recorded paths
    when every directory goes to a category of size 0. *)
Lemma searchRoot_consistent (c : DataType) (dirs : list (string * string)) :
  forall st,
    NoDup (map snd dirs) ->
    (forall dir, In dir dirs -> excluded env (fst dir) = false ->
                 cat_size c (Entries.at_ (snd dir) (snd st)) = 0) ->
    all_consistent d (snd st) ->
    all_consistent d
      (snd (fold_left (mergeDir env d (root_index c)) dirs st)).
Proof.
  induction dirs as [|dir dirs IH]; intros st Hnodup Hzero Hst; [exact Hst|].
  cbn [fold_left]. cbn [map] in Hnodup.
  inversion Hnodup as [|? ? Hhead Htail]; subst.
  apply IH; [exact Htail | |].
  - intros dir0 Hin Hexcl0.
    destruct (mergeDir_other c c st dir (snd dir0)) as [_ Hs].
    { right. intros Heq. apply Hhead. rewrite Heq. apply in_map, Hin. }
    rewrite Hs. apply Hzero; [right; exact Hin | exact Hexcl0].
  - rewrite mergeDir_entries.
    destruct (excluded env (fst dir)) eqn:Hexcl; [exact Hst|].
    set (old := Entries.at_ (snd dir) (snd st)).
    assert (Hold : sizes_consistent d old) by (apply at_consistent, Hst).
    assert (Hempty : cat_size c old = 0).
    { apply Hzero; [left; reflexivity | exact Hexcl]. }
    destruct (recordDir_category c (fst dir) (getSize d (fst dir)) old)
      as (Hpaths & Hsize & Hothers).
    intros k x Hk.
    destruct (String.eqb (snd dir) k) eqn:E.
    + apply String.eqb_eq in E. subst k.
      rewrite lookup_insert_eq in Hk. inversion Hk; subst x.
      intros c'. destruct (DataType_eq_dec c' c) as [->|Hne].
      * rewrite Hpaths, Hsize, measured_snoc, <- (Hold c), Hempty.
        symmetry. apply Int64Facts.wrap_small, getSize_in_range.
      * destruct (Hothers c' Hne) as [Hp Hs]. rewrite Hp, Hs. apply Hold.
    + apply String.eqb_neq in E. rewrite lookup_insert_ne in Hk by exact E.
      apply (Hst k x Hk).
Qed.

End Rescan.

(** The world after a step, one projection at a time. *)

Section Steps.

Context {FS : FileSystem}.

Lemma bind_unit {B} (c : M unit) (k : unit -> M B) (w : World) :
  bind c k w = k tt (snd (c w)).
Proof. unfold bind. destruct (c w) as [[] w']. reflexivity. Qed.

Lemma bind_getDisk {B} (k : disk -> M B) (w : World) :
  bind getDisk k w = k (w_disk w) w.
Proof. reflexivity. Qed.

Lemma emit_disk s w : w_disk (snd (emit s w)) = w_disk w.
Proof. reflexivity. Qed.

Lemma emit_model s w : w_model (snd (emit s w)) = w_model w.
Proof. reflexivity. Qed.

Lemma modify_disk f w : w_disk (snd (modify f w)) = w_disk w.
Proof. reflexivity. Qed.

Lemma modify_model f w : w_model (snd (modify f w)) = f (w_model w).
Proof. reflexivity. Qed.

Lemma setBusy_disk b w : w_disk (snd (setBusy b w)) = w_disk w.
Proof. reflexivity. Qed.

Lemma setBusy_model b w : w_model (snd (setBusy b w)) = set_busy b (w_model w).
Proof. reflexivity. Qed.

Lemma calculateTotal_disk w : w_disk (snd (calculateTotal w)) = w_disk w.
Proof. reflexivity. Qed.

Lemma calculateTotal_names w :
  m_names (w_model (snd (calculateTotal w))) = m_names (w_model w).
Proof.
  pose proof (calculateTotal_rows w) as H. unfold rows in H. congruence.
Qed.

Lemma calculateTotal_entries w :
  m_entries (w_model (snd (calculateTotal w))) = m_entries (w_model w).
Proof.
  pose proof (calculateTotal_rows w) as H. unfold rows in H. congruence.
Qed.

End Steps.

Create Rewrite HintDb steps.

#[export] Hint Rewrite @emit_disk @emit_model @modify_disk @modify_model
  @setBusy_disk @setBusy_model @calculateTotal_disk @calculateTotal_names
  @calculateTotal_entries : steps.

Section RescanTheorems.

Context {FS : FileSystem}.
Variable env : Platform.

Lemma searchRoot_found (d : disk) (c : DataType)
    (st : list string * Entries.t) :
  searchRoot env d st (root_index c)
  = fold_left (mergeDir env d (root_index c)) (found_in_root env d c) st.
Proof. reflexivity. Qed.

Lemma probeDesktop_categories (d : disk) (k : string) (e e' : MEntry)
    (desktop_paths : list string) :
  probeDesktop d k e desktop_paths = Some e' ->
  forall c, cat_paths c e' = cat_paths c e /\ cat_size c e' = cat_size c e.
Proof.
  induction desktop_paths as [|path rest IH]; simpl; [discriminate|].
  destruct (fi_isFile d (desktop_tmpl path k)); [|exact IH].
  intros H c. inversion H; subst e'. destruct c; split; reflexivity.
Qed.

Lemma resolveInstalled_consistent (d : disk) (m : Entries.t) (k : string) :
  (forall k0 x, Entries.lookup k0 m = Some x -> sizes_consistent d x) ->
  forall k0 x, Entries.lookup k0 (resolveInstalled env d m k) = Some x ->
               sizes_consistent d x.
Proof.
  intros Hm k0 x. unfold resolveInstalled.
  destruct (probeDesktop d k (Entries.at_ k m) (ApplicationsLocation env))
    as [e'|] eqn:Hprobe; [|apply Hm].
  destruct (String.eqb k k0) eqn:E.
  - apply String.eqb_eq in E. subst k0. rewrite lookup_insert_eq.
    intros H. inversion H; subst x. intros c.
    destruct (probeDesktop_categories d k _ _ _ Hprobe c) as [Hp Hs].
    rewrite Hp, Hs. unfold Entries.at_.
    destruct (Entries.lookup k m) as [x0|] eqn:Hx0.
    + apply (Hm k x0 Hx0).
    + apply default_consistent.
  - apply String.eqb_neq in E. rewrite lookup_insert_ne by exact E.
    apply Hm.
Qed.

Lemma resolve_all_consistent (d : disk) (names : list string) :
  forall m,
    (forall k x, Entries.lookup k m = Some x -> sizes_consistent d x) ->
    forall k x,
      Entries.lookup k (fold_left (resolveInstalled env d) names m) = Some x ->
      sizes_consistent d x.
Proof.
  induction names as [|n names IH]; intros m Hm; [exact Hm|].
  simpl. apply IH. apply resolveInstalled_consistent, Hm.
Qed.

(** The third loop leaves the paths and the sizes of every record. *)
Lemma resolve_categories (d : disk) (names : list string) (k : string)
    (c : DataType) :
  forall m,
    cat_paths c (Entries.at_ k (fold_left (resolveInstalled env d) names m))
      = cat_paths c (Entries.at_ k m) /\
    cat_size c (Entries.at_ k (fold_left (resolveInstalled env d) names m))
      = cat_size c (Entries.at_ k m).
Proof.
  induction names as [|n names IH]; intros m; [split; reflexivity|].
  cbn [fold_left]. destruct (IH (resolveInstalled env d m n)) as [Hp Hs].
  rewrite Hp, Hs. unfold resolveInstalled.
  destruct (probeDesktop d n (Entries.at_ n m) (ApplicationsLocation env))
    as [e'|] eqn:Hprobe; [|split; reflexivity].
  destruct (String.eqb n k) eqn:E.
  - apply String.eqb_eq in E. subst n. rewrite at_insert_eq.
    apply (probeDesktop_categories d k _ _ _ Hprobe c).
  - apply String.eqb_neq in E. rewrite at_insert_ne by exact E.
    split; reflexivity.
Qed.

Lemma known_records_zero (d : disk) (c : DataType) (dir : string * string) :
  no_size_clash env d ->
  In dir (found_in_root env d c) -> excluded env (fst dir) = false ->
  cat_size c (Entries.at_ (snd dir) (known_records env d)) = 0.
Proof.
  intros Hclash Hin Hexcl. unfold Entries.at_.
  destruct (Entries.lookup (snd dir) (known_records env d)) as [x|] eqn:Hx.
  - apply (Hclash c dir x Hin Hexcl Hx).
  - destruct c; reflexivity.
Qed.

(** After the three loops of [resetImpl] every cached size is that of
    the recorded paths, if no directory was recorded for a category in
    which the first loop had left a size. *)
Lemma scan_consistent (d : disk) :
  no_size_clash env d -> all_consistent d (snd (scan env d)).
Proof.
  intros Hclash. unfold scan. cbn [snd fold_left].
  unfold all_consistent. apply resolve_all_consistent.
  fold (all_consistent d).
  set (st0 := fold_left (addKnownApp env d) (knownApps env) ([], [])).
  assert (H0 : all_consistent d (snd st0))
    by apply known_records_consistent.
  rewrite (searchRoot_found d ConfigData).
  set (st1 := fold_left (mergeDir env d (root_index ConfigData))
                (found_in_root env d ConfigData) st0).
  assert (H1 : all_consistent d (snd st1)).
  { apply searchRoot_consistent; [apply dirSubdirs_names | | exact H0].
    intros dir Hin Hexcl.
    apply (known_records_zero d ConfigData dir Hclash Hin Hexcl). }
  rewrite (searchRoot_found d CacheData).
  set (st2 := fold_left (mergeDir env d (root_index CacheData))
                (found_in_root env d CacheData) st1).
  assert (H2 : all_consistent d (snd st2)).
  { apply searchRoot_consistent; [apply dirSubdirs_names | | exact H1].
    intros dir Hin Hexcl.
    destruct (searchRoot_other env d ConfigData CacheData (snd dir)
                (found_in_root env d ConfigData) st0) as [_ Hs];
      [left; discriminate|].
    fold st1 in Hs. rewrite Hs.
    apply (known_records_zero d CacheData dir Hclash Hin Hexcl). }
  rewrite (searchRoot_found d LocalData).
  apply searchRoot_consistent; [apply dirSubdirs_names | | exact H2].
  intros dir Hin Hexcl.
  destruct (searchRoot_other env d CacheData LocalData (snd dir)
              (found_in_root env d CacheData) st1) as [_ Hs2];
    [left; discriminate|].
  destruct (searchRoot_other env d ConfigData LocalData (snd dir)
              (found_in_root env d ConfigData) st0) as [_ Hs1];
    [left; discriminate|].
  fold st1 in Hs1. fold st2 in Hs2. rewrite Hs2, Hs1.
  apply (known_records_zero d LocalData dir Hclash Hin Hexcl).
Qed.

(** What the three loops leave of a directory recorded for the category
    [c]: the record of its name has the paths the first loop left for
    [c] and then the directory, and the size of the directory alone. *)
Lemma scan_recorded_dir (d : disk) (c : DataType) (dir : string * string) :
  In dir (found_in_root env d c) -> excluded env (fst dir) = false ->
  cat_paths c (Entries.at_ (snd dir) (snd (scan env d)))
    = cat_paths c (Entries.at_ (snd dir) (known_records env d)) ++ [fst dir] /\
  cat_size c (Entries.at_ (snd dir) (snd (scan env d))) = getSize d (fst dir).
Proof.
  intros Hin Hexcl. unfold scan. cbn [snd fold_left].
  set (st0 := fold_left (addKnownApp env d) (knownApps env) ([], [])).
  change (known_records env d) with (snd st0).
  rewrite (searchRoot_found d ConfigData).
  set (st1 := fold_left (mergeDir env d (root_index ConfigData))
                (found_in_root env d ConfigData) st0).
  rewrite (searchRoot_found d CacheData).
  set (st2 := fold_left (mergeDir env d (root_index CacheData))
                (found_in_root env d CacheData) st1).
  rewrite (searchRoot_found d LocalData).
  set (st3 := fold_left (mergeDir env d (root_index LocalData))
                (found_in_root env d LocalData) st2).
  destruct (resolve_categories d (Entries.keys (snd st3)) (snd dir) c
              (snd st3)) as [Hp Hs].
  rewrite Hp, Hs. clear Hp Hs.
  pose proof (fun c' => dirSubdirs_names d
                          (nth (root_index c') (app_paths env) "") filters)
    as Hnames.
  destruct c.
  - destruct (searchRoot_other env d LocalData ConfigData (snd dir)
                (found_in_root env d LocalData) st2) as [Hp3 Hs3];
      [left; discriminate|].
    destruct (searchRoot_other env d CacheData ConfigData (snd dir)
                (found_in_root env d CacheData) st1) as [Hp2 Hs2];
      [left; discriminate|].
    fold st2 in Hp2, Hs2. fold st3 in Hp3, Hs3.
    rewrite Hp3, Hs3, Hp2, Hs2.
    apply searchRoot_hit; [apply (Hnames ConfigData) | exact Hin | exact Hexcl].
  - destruct (searchRoot_other env d LocalData CacheData (snd dir)
                (found_in_root env d LocalData) st2) as [Hp3 Hs3];
      [left; discriminate|].
    destruct (searchRoot_other env d ConfigData CacheData (snd dir)
                (found_in_root env d ConfigData) st0) as [Hp1 Hs1];
      [left; discriminate|].
    fold st1 in Hp1, Hs1. fold st3 in Hp3, Hs3.
    rewrite Hp3, Hs3, <- Hp1.
    apply searchRoot_hit; [apply (Hnames CacheData) | exact Hin | exact Hexcl].
  - destruct (searchRoot_other env d CacheData LocalData (snd dir)
                (found_in_root env d CacheData) st1) as [Hp2 Hs2];
      [left; discriminate|].
    destruct (searchRoot_other env d ConfigData LocalData (snd dir)
                (found_in_root env d ConfigData) st0) as [Hp1 Hs1];
      [left; discriminate|].
    fold st1 in Hp1, Hs1. fold st2 in Hp2, Hs2.
    rewrite <- Hp1, <- Hp2.
    apply searchRoot_hit; [apply (Hnames LocalData) | exact Hin | exact Hexcl].
Qed.

(** On qint64, adding to a size gives the size back only when what it
    was added to is 0. *)
Lemma add_same_zero (a g : Z) :
  Int64.in_range a -> Int64.in_range g -> Int64.add a g = g -> a = 0.
Proof.
  unfold Int64.in_range, Int64.add, Int64.wrap, Int64.modulus, Int64.half.
  intros Ha Hg Heq.
  pose proof (Z.div_mod (a + g + 2 ^ 63) (2 ^ 64) ltac:(lia)) as Hdiv.
  assert (Hq : a = 2 ^ 64 * ((a + g + 2 ^ 63) / 2 ^ 64)) by lia.
  lia.
Qed.

(** A directory recorded for a category in which the first loop had
    left a size makes the size of the category differ from that of its
    paths. *)
Lemma scan_clash (d : disk) :
  all_consistent d (snd (scan env d)) -> no_size_clash env d.
Proof.
  intros Hall c dir x Hin Hexcl Hx.
  destruct (scan_recorded_dir d c dir Hin Hexcl) as [Hp Hs].
  rewrite (at_lookup _ _ _ Hx) in Hp.
  assert (Hfinal : sizes_consistent d
                     (Entries.at_ (snd dir) (snd (scan env d)))).
  { unfold Entries.at_ in *.
    destruct (Entries.lookup (snd dir) (snd (scan env d))) as [x'|] eqn:Hx';
      [apply (Hall _ _ Hx') | apply default_consistent]. }
  specialize (Hfinal c). rewrite Hp, Hs, measured_snoc in Hfinal.
  pose proof (known_records_consistent env d _ _ Hx c) as Hknown.
  rewrite <- Hknown in Hfinal.
  apply (add_same_zero (cat_size c x) (getSize d (fst dir))).
  - rewrite Hknown. apply Int64Facts.wrap_in_range.
  - apply getSize_in_range.
  - symmetry. exact Hfinal.
Qed.

Lemma resetImpl_world (w : World) :
  w_disk (snd (resetImpl env w)) = w_disk w /\
  rows (w_model (snd (resetImpl env w))) = scan env (w_disk w).
Proof.
  unfold resetImpl. rewrite !bind_unit, bind_getDisk, !bind_unit.
  split.
  - autorewrite with steps. reflexivity.
  - unfold rows. autorewrite with steps.
    cbn [m_names m_entries set_busy set_resetting].
    autorewrite with steps.
    cbn [m_names m_entries set_entries set_names].
    destruct (scan env _); reflexivity.
Qed.

(** Every record of the first loop is the entry of a known app of that
    name. *)
Lemma known_records_lookup (d : disk) (k : string) (x : MEntry) :
  Entries.lookup k (known_records env d) = Some x ->
  exists app, In app (knownApps env) /\ name app = k /\
              x = known_entry d app.
Proof.
  unfold known_records.
  assert (H : forall apps st,
             incl apps (knownApps env) ->
             (Entries.lookup k (snd st) = Some x ->
              exists app, In app (knownApps env) /\ name app = k /\
                          x = known_entry d app) ->
             Entries.lookup k
               (snd (fold_left (addKnownApp env d) apps st)) = Some x ->
             exists app, In app (knownApps env) /\ name app = k /\
                         x = known_entry d app).
  { induction apps as [|app apps IH]; intros st Hincl Hst; [exact Hst|].
    cbn [fold_left]. apply IH; [intros a Ha; apply Hincl; right; exact Ha|].
    rewrite addKnownApp_entries.
    destruct (entry_exists env (known_entry d app)); [|exact Hst].
    destruct (String.eqb (name app) k) eqn:E.
    - apply String.eqb_eq in E. subst k. rewrite lookup_insert_eq.
      intros Hx. inversion Hx. exists app.
      split; [apply Hincl; left; reflexivity | split; reflexivity].
    - apply String.eqb_neq in E. rewrite lookup_insert_ne by exact E.
      exact Hst. }
  apply H; [apply incl_refl|]. intros Hx. discriminate Hx.
Qed.

(** No directory is recorded for a category for which a known app of
    its name has a candidate path that exists: no clash. *)
Lemma no_known_path_no_clash (d : disk) :
  (forall c dir app p,
      In dir (found_in_root env d c) -> excluded env (fst dir) = false ->
      In app (knownApps env) -> name app = snd dir ->
      In p (known_paths c app) -> fi_exists d p = false) ->
  no_size_clash env d.
Proof.
  intros Hnone c dir x Hin Hexcl Hx.
  destruct (known_records_lookup d _ _ Hx) as [app [Happ [Hname ->]]].
  rewrite (known_entry_consistent d app c).
  assert (Hpaths : cat_paths c (known_entry d app)
                   = filter (fi_exists d) (known_paths c app)).
  { destruct c; cbn [cat_paths known_entry config_paths cache_paths
                     data_paths known_paths];
      rewrite processKnownPaths_filter; reflexivity. }
  rewrite Hpaths.
  assert (Hfilter : forall l, (forall p, In p l -> fi_exists d p = false) ->
                              filter (fi_exists d) l = []).
  { induction l as [|q l IH]; intros Hl; [reflexivity|].
    cbn [filter]. rewrite (Hl q) by (left; reflexivity).
    apply IH. intros p Hp. apply Hl. right. exact Hp. }
  rewrite Hfilter; [reflexivity|].
  intros p Hp. apply (Hnone c dir app p); assumption.
Qed.

(** C2, as the code has it: after [resetImpl], on the disk it scanned,
    the cached size of every category of every record is the qint64 sum
    of [getSize] over the paths recorded for the category exactly when
    no directory the second loop recorded for a category went to a
    record in which the first loop had left a size other than 0 for that
    category (the loop assigns the size of the directory, it does not
    add it); there is no such directory when none is recorded for a
    category for which a known app of its name has a candidate path
    that exists.  [clearEntry] never measures again: it leaves the recorded
    paths as they are and each cached size either as it was or 0; in a
    build without SAFE_MODE, when it raised no [deletionError], the size
    of a category it marked (0) is again that of the recorded paths,
    none of which is left on the disk. *)
Theorem cached_sizes_of_recorded_paths (w : World) :
  let w' := snd (resetImpl env w) in
  w_disk w' = w_disk w /\
  ((forall k x, Entries.lookup k (m_entries (w_model w')) = Some x ->
                sizes_consistent (w_disk w') x)
   <-> no_size_clash env (w_disk w)) /\
  ((forall c dir app p,
       In dir (found_in_root env (w_disk w) c) ->
       excluded env (fst dir) = false ->
       In app (knownApps env) -> name app = snd dir ->
       In p (known_paths c app) -> fi_exists (w_disk w) p = false) ->
   no_size_clash env (w_disk w)) /\
  (forall e deleted types w0,
     let r := clearEntry env e deleted types w0 in
     cleared_from e (fst (fst (fst r))) /\
     forall c,
       SAFE_MODE env = false ->
       w_signals (snd r) = w_signals w0 ->
       In (cat_role c) (snd (fst r)) ->
       cat_size c (fst (fst (fst r)))
       = measured (w_disk (snd r)) (cat_paths c (fst (fst (fst r))))).
Proof.
  cbv zeta.
  destruct (resetImpl_world w) as [Hdisk Hrows].
  assert (Hentries : m_entries (w_model (snd (resetImpl env w)))
                     = snd (scan env (w_disk w)))
    by (rewrite <- Hrows; reflexivity).
  split; [exact Hdisk|]. split.
  - rewrite Hdisk, Hentries. split.
    + apply scan_clash.
    + apply scan_consistent.
  - split; [apply no_known_path_no_clash|].
    intros e deleted types w0. split.
    + apply clearEntry_cleared.
    + intros c Hsafe Hsignals Hmarked.
      apply clearEntry_without_failure; assumption.
Qed.

End RescanTheorems.

(** The scenario of the specification: no directory goes to a category
    that holds a size, both records are consistent after the rescan, and
    the cache of [harbour-foo], deleted without a failure, is consistent
    again.  And a merge: the cache directory of [harbour-k] goes to the
    record the first loop made for the known app of that name, whose
    cache was empty, and the record is consistent. *)
Lemma cached_sizes_of_recorded_paths_witness :
  let w := Examples.world Examples.disk0 MModel_init in
  let w' := snd (resetImpl Examples.env w) in
  let e := Entries.at_ "harbour-foo" (m_entries (w_model w')) in
  let r := clearEntry Examples.env e 0 Examples.config_and_cache w' in
  let wm := Examples.world Examples.disk_merge MModel_init in
  let wm' := snd (resetImpl Examples.env_merge wm) in
  let k := Entries.at_ "harbour-k" (m_entries (w_model wm')) in
  no_size_clash Examples.env (w_disk w) /\
  sizes_consistent (w_disk w')
    (Entries.at_ "app.x" (m_entries (w_model w'))) /\
  sizes_consistent (w_disk w') e /\
  cat_size CacheData e = 50 /\
  cat_size CacheData (fst (fst (fst r)))
  = measured (w_disk (snd r)) (cat_paths CacheData (fst (fst (fst r)))) /\
  no_size_clash Examples.env_merge (w_disk wm) /\
  sizes_consistent (w_disk wm') k /\
  config_paths k = ["/fake/config/harbour-k"] /\ config_size k = 100 /\
  cache_paths k = ["/fake/cache/harbour-k"] /\ cache_size k = 8.
Proof.
  intros w w' e r wm wm' k.
  assert (Hclash : no_size_clash Examples.env (w_disk w)).
  { intros c dir x Hin _ Hx. destruct c; vm_compute in Hin;
      try contradiction.
    destruct Hin as [<-|[]]. vm_compute in Hx. discriminate Hx. }
  assert (Hmerge : no_size_clash Examples.env_merge (w_disk wm)).
  { intros c dir x Hin Hexcl Hx. destruct c; vm_compute in Hin;
      try contradiction; destruct Hin as [<-|[]].
    - vm_compute in Hexcl. discriminate Hexcl.
    - vm_compute in Hx. inversion Hx. reflexivity. }
  destruct (cached_sizes_of_recorded_paths Examples.env w)
    as (_ & Hsizes & _ & Hclear).
  destruct (cached_sizes_of_recorded_paths Examples.env_merge wm)
    as (_ & Hmerged & _).
  destruct (Hclear e 0 Examples.config_and_cache w') as [_ Hclean].
  split; [exact Hclash|].
  split; [apply (proj2 Hsizes Hclash "app.x"); vm_compute; reflexivity|].
  split; [apply (proj2 Hsizes Hclash "harbour-foo"); vm_compute; reflexivity|].
  split; [reflexivity|].
  split.
  { apply Hclean.
    - reflexivity.
    - vm_compute. reflexivity.
    - vm_compute. auto. }
  split; [exact Hmerge|].
  split; [apply (proj2 Hmerged Hmerge "harbour-k"); vm_compute; reflexivity|].
  vm_compute. repeat split.
Defined.

(** C2 fails as stated, twice.  After a deletion: of the two config
    files of [app.y] one is deleted and one is locked; the cached size is
    set to 0 while the locked file, still recorded and still on the disk,
    measures 5 bytes; the record is still in the map, its cache untouched
    with its 7 bytes.  After a rescan: a harbour directory called like a
    known app is appended to the config paths of the known app and the
    cached size is overwritten with the size of the directory alone. *)
Lemma cached_size_is_not_that_of_the_recorded_paths :
  (let w' := snd (deleteDataImpl Examples.env_locked "app.y"
                    Examples.config_only Examples.scanned_locked) in
   exists e',
     Entries.lookup "app.y" (m_entries (w_model w')) = Some e' /\
     config_paths e' = ["/d/a"; "/d/b"] /\
     config_size e' = 0 /\
     measured (w_disk w') (config_paths e') = 5 /\
     cache_paths e' = ["/d/c"] /\ cache_size e' = 7) /\
  (let w' := Examples.scanned_clash in
   exists e',
     Entries.lookup "harbour-foo" (m_entries (w_model w')) = Some e' /\
     config_paths e' = ["/fake/config/foo.conf"; "/fake/config/harbour-foo"] /\
     config_size e' = 50 /\
     measured (w_disk w') (config_paths e') = 150).
Proof.
  split; eexists; (split; [vm_compute; reflexivity|]);
    vm_compute; repeat split.
Qed.

(** ** Further properties of the code *)

(** *** processKnownPaths *)

Section KnownPaths.

Context {FS : FileSystem}.

(** [processKnownPaths] keeps the paths it is given and appends the
    candidates that exist, in their order; the size grows by the qint64
    sum of their sizes; candidates that do not exist leave both as they
    are. *)
Theorem processKnownPaths_appends_existing (d : disk) (paths : list string)
    (size : Z) (known : list string) :
  Int64.in_range size ->
  let found := filter (fi_exists d) known in
  fst (processKnownPaths d paths size known) = paths ++ found /\
  snd (processKnownPaths d paths size known)
    = Int64.wrap (size + Int64.sum (map (getSize d) found)) /\
  (forall p, In p (fst (processKnownPaths d paths size known)) <->
             In p paths \/ (In p known /\ fi_exists d p = true)) /\
  ((forall p, In p known -> fi_exists d p = false) ->
   processKnownPaths d paths size known = (paths, size)).
Proof.
  intros Hsize found. rewrite processKnownPaths_filter. fold found. simpl.
  split; [reflexivity|]. split.
  - rewrite <- (Int64Facts.wrap_small size Hsize) at 1.
    apply Int64Facts.accumulate_wrap.
  - split.
    + intros p. rewrite in_app_iff. unfold found. rewrite filter_In.
      reflexivity.
    + intros Hnone.
      assert (Hfound : found = []).
      { unfold found. clear -Hnone.
        induction known as [|q known IH]; [reflexivity|].
        simpl. rewrite (Hnone q) by (left; reflexivity).
        apply IH. intros p Hp. apply Hnone. right. exact Hp. }
      rewrite Hfound, app_nil_r. reflexivity.
Qed.

End KnownPaths.

Lemma processKnownPaths_appends_existing_witness :
  let r := processKnownPaths (FS := SimFS.fileSystem) Examples.disk_locked
             ["/d/c"] 7 ["/d/a"; "/d/none"; "/d/b"] in
  Int64.in_range 7 /\
  fst r = ["/d/c"; "/d/a"; "/d/b"] /\ snd r = 7 + (10 + 5).
Proof.
  intros r.
  assert (Hsize : Int64.in_range 7)
    by (vm_compute; split; [discriminate | reflexivity]).
  destruct (processKnownPaths_appends_existing (FS := SimFS.fileSystem)
              Examples.disk_locked ["/d/c"] 7 ["/d/a"; "/d/none"; "/d/b"]
              Hsize) as (Hpaths & Hsum & _).
  split; [exact Hsize|].
  unfold r.
  split; [rewrite Hpaths; reflexivity | rewrite Hsum; reflexivity].
Defined.

(** *** removePaths in the two builds *)

Section SafeMode.

Context {FS : FileSystem}.
Variable env : Platform.

Lemma removePaths_loop_safe (Hsafe : SAFE_MODE env = true)
    (paths : list string) :
  forall res w,
    removePaths_loop env paths res w
    = (Int64.accumulate res (map (getSize (w_disk w)) paths), w).
Proof.
  induction paths as [|p rest IH]; intros res w; [reflexivity|].
  cbn [removePaths_loop]. unfold bind at 1. unfold getDisk at 1.
  rewrite Hsafe, IH. reflexivity.
Qed.

(** In a build with SAFE_MODE [removePaths] deletes nothing and emits
    nothing: on a batch without an empty path it returns the qint64 sum
    of the sizes of all the paths and leaves the world as it was. *)
Theorem removePaths_safe_mode (paths : list string) (w : World) :
  SAFE_MODE env = true ->
  ~ In "" paths ->
  removePaths env paths w
  = (Int64.wrap (Int64.sum (map (getSize (w_disk w)) paths)), w).
Proof.
  intros Hsafe Hnonempty. unfold removePaths.
  destruct (existsb isEmpty paths) eqn:E.
  - apply existsb_isEmpty in E. contradiction.
  - rewrite (removePaths_loop_safe Hsafe), Int64Facts.accumulate_zero.
    reflexivity.
Qed.

Lemma removePaths_loop_errors (paths : list string) :
  forall res w, exists l,
    w_signals (snd (removePaths_loop env paths res w)) = w_signals w ++ l /\
    Forall (deletionError_of paths) l.
Proof.
  induction paths as [|p rest IH]; intros res w.
  - exists []. simpl. rewrite app_nil_r. split; [reflexivity | constructor].
  - assert (Hwiden : forall l, Forall (deletionError_of rest) l ->
                               Forall (deletionError_of (p :: rest)) l).
    { intros l. apply Forall_impl. intros s [q [Hs Hq]].
      exists q. split; [exact Hs | right; exact Hq]. }
    cbn [removePaths_loop]. unfold bind at 1. unfold getDisk at 1.
    destruct (SAFE_MODE env).
    + destruct (IH (Int64.add res (getSize (w_disk w) p)) w) as [l [Hl Hall]].
      exists l. split; [exact Hl | apply Hwiden, Hall].
    + unfold removePath. run.
      destruct (removal (w_disk w) p) as [d' ok]. simpl.
      destruct ok.
      * destruct (IH (Int64.add res (getSize (w_disk w) p))
                    (mkWorld d' (w_model w) (w_signals w))) as [l [Hl Hall]].
        exists l. split; [exact Hl | apply Hwiden, Hall].
      * destruct (IH res (mkWorld d' (w_model w)
                            (w_signals w ++ [deletionError p])))
          as [l [Hl Hall]].
        exists ([deletionError p] ++ l). simpl in *. rewrite Hl.
        rewrite <- app_assoc. split; [reflexivity|].
        constructor; [|apply Hwiden, Hall].
        exists p. split; [reflexivity | left; reflexivity].
Qed.

(** Whatever the build and the batch, [removePaths] leaves the model
    alone, emits nothing but [deletionError]s for paths of the batch,
    after the signals emitted before, and brings no path into
    existence. *)
Theorem removePaths_frame (paths : list string) (w : World) :
  w_model (snd (removePaths env paths w)) = w_model w /\
  (exists l,
     w_signals (snd (removePaths env paths w)) = w_signals w ++ l /\
     Forall (deletionError_of paths) l) /\
  (forall q, fi_exists (w_disk w) q = false ->
             fi_exists (w_disk (snd (removePaths env paths w))) q = false).
Proof.
  split; [apply removePaths_model|]. split.
  - unfold removePaths. destruct (existsb isEmpty paths).
    + exists []. simpl. rewrite app_nil_r. split; [reflexivity | constructor].
    + apply removePaths_loop_errors.
  - intros q. apply removePaths_keeps_missing.
Qed.

End SafeMode.

Lemma removePaths_safe_mode_witness :
  let w := Examples.world Examples.disk_locked MModel_init in
  SAFE_MODE Examples.env_safe = true /\
  ~ In "" Examples.batch /\
  removePaths Examples.env_safe Examples.batch w = (10 + 5 + 7, w).
Proof.
  intros w.
  assert (Hsafe : SAFE_MODE Examples.env_safe = true) by reflexivity.
  assert (Hne : ~ In "" Examples.batch).
  { simpl. intros [H|[H|[H|[]]]]; discriminate H. }
  split; [exact Hsafe|]. split; [exact Hne|].
  rewrite (removePaths_safe_mode Examples.env_safe Examples.batch w Hsafe Hne).
  reflexivity.
Defined.

(** *** clearEntry: what it skips and what it marks *)

Section ClearEntryRoles.

Context {FS : FileSystem}.
Variable env : Platform.

Lemma clearCategory_idle (c : DataType) (types : DataTypes)
    (st : MEntry * Z * list Role) (w : World) :
  (testFlag types c = true -> cat_size c (fst (fst st)) <= 0) ->
  clearCategory env c types st w = (st, w).
Proof.
  destruct st as [[e deleted] changed]. simpl. intros Hidle.
  unfold clearCategory.
  destruct (testFlag types c); [|reflexivity].
  replace (cat_size c e >? 0) with false; [reflexivity|].
  symmetry. rewrite Z.gtb_ltb. apply Z.ltb_ge. apply Hidle. reflexivity.
Qed.

(** When no requested category has a positive cached size, [clearEntry]
    hands nothing to [removePaths]: the entry, the running total and the
    world are as before, and no role is marked. *)
Theorem clearEntry_nothing_to_clear (e : MEntry) (deleted : Z)
    (types : DataTypes) (w : World) :
  nothing_to_clear types e ->
  clearEntry env e deleted types w = ((e, deleted, []), w).
Proof.
  intros Hidle. rewrite clearEntry_blocks. unfold bind.
  rewrite (clearCategory_idle ConfigData) by (apply Hidle).
  rewrite (clearCategory_idle CacheData) by (apply Hidle).
  rewrite (clearCategory_idle LocalData) by (apply Hidle).
  reflexivity.
Qed.

(** A block with what made it run. *)
Lemma clearCategory_why (c : DataType) (types : DataTypes) (e : MEntry)
    (deleted : Z) (changed : list Role) (w : World) :
  (testFlag types c = true /\ cat_size c e > 0 /\
   fst (fst (fst (clearCategory env c types (e, deleted, changed) w)))
     = zero_size c e /\
   snd (fst (clearCategory env c types (e, deleted, changed) w))
     = changed ++ [cat_role c])
  \/
  (fst (fst (fst (clearCategory env c types (e, deleted, changed) w))) = e /\
   snd (fst (clearCategory env c types (e, deleted, changed) w)) = changed).
Proof.
  destruct (clearCategory_effect env c types e deleted changed w) as [_ Hr].
  rewrite Hr.
  destruct (testFlag types c) eqn:Hflag; [|right; auto].
  destruct (cat_size c e >? 0) eqn:Hsize; [|right; auto].
  destruct (fst (removePaths env (cat_paths c e) w) >? 0); [|right; auto].
  left. simpl. apply Z.gtb_lt in Hsize. repeat split. lia.
Qed.

Lemma clearCategories_roles (types : DataTypes) (cs : list DataType) :
  forall st w,
    let out := fst (clearCategories env cs types st w) in
    (forall x, In x (snd st) -> In x (snd out)) /\
    (forall x, In x (snd out) ->
               In x (snd st) \/ exists c, In c cs /\ x = cat_role c) /\
    (forall c, In (cat_role c) (snd out) ->
               In (cat_role c) (snd st) \/
               (testFlag types c = true /\ cat_size c (fst (fst st)) > 0 /\
                cat_size c (fst (fst out)) = 0)) /\
    (forall c, cat_size c (fst (fst out)) = cat_size c (fst (fst st)) \/
               In (cat_role c) (snd out)).
Proof.
  induction cs as [|c0 cs IH]; intros st w.
  - simpl. repeat split; auto.
  - cbn [clearCategories]. unfold bind.
    destruct st as [[e deleted] changed].
    pose proof (clearCategory_why c0 types e deleted changed w) as Hwhy.
    destruct (clearCategory env c0 types (e, deleted, changed) w)
      as [[[e1 d1] ch1] w1].
    cbn [fst snd] in Hwhy.
    pose proof (clearCategories_cleared env cs types (e1, d1, ch1) w1)
      as (_ & _ & _ & _ & Hsizes).
    destruct (IH (e1, d1, ch1) w1) as (Hmono & Hfrom & Hwhy' & Hsame).
    cbn [fst snd] in *. cbv zeta.
    assert (Hmono1 : forall x, In x changed -> In x ch1).
    { intros x Hx. destruct Hwhy as [(_ & _ & _ & ->)|[_ ->]];
        [apply in_or_app; left|]; exact Hx. }
    split; [intros x Hx; apply Hmono, Hmono1, Hx|].
    split; [|split].
    + intros x Hx. destruct (Hfrom x Hx) as [Hx1|[c [Hc ->]]].
      * destruct Hwhy as [(_ & _ & _ & ->)|[_ ->]]; [|left; exact Hx1].
        apply in_app_or in Hx1. destruct Hx1 as [Hx1|[<-|[]]];
          [left; exact Hx1|].
        right. exists c0. split; [left|]; reflexivity.
      * right. exists c. split; [right; exact Hc | reflexivity].
    + intros c Hc.
      destruct Hwhy as [(Hflag & Hpos & -> & ->)|[-> ->]].
      * destruct (DataType_eq_dec c c0) as [->|Hne].
        -- right. split; [exact Hflag|]. split; [exact Hpos|].
           destruct (Hsizes c0) as [Hs|Hs]; [|exact Hs].
           rewrite Hs. apply zero_size_same.
        -- destruct (Hwhy' c Hc) as [Hc1|(Hf & Hp & Hz)].
           ++ apply in_app_or in Hc1. destruct Hc1 as [Hc1|[Hc1|[]]];
                [left; exact Hc1|].
              exfalso. apply Hne. symmetry.
              apply (cat_role_injective _ _ Hc1).
           ++ right. rewrite zero_size_other in Hp by exact Hne. auto.
      * apply (Hwhy' c Hc).
    + intros c.
      destruct (Hsame c) as [Hs|Hin]; [|right; exact Hin].
      destruct Hwhy as [(_ & _ & -> & ->)|[-> _]]; [|left; exact Hs].
      destruct (DataType_eq_dec c c0) as [->|Hne].
      * right. apply Hmono. apply in_or_app. right. left. reflexivity.
      * left. rewrite Hs. apply zero_size_other, Hne.
Qed.

(** The roles [clearEntry] reports are those of the categories it set
    to 0: a reported category was requested, had a positive cached size
    and has size 0 now; the size of a category that is not reported is
    what it was; and nothing but the three size roles is ever
    reported. *)
Theorem clearEntry_reports_what_it_zeroes (e : MEntry) (deleted : Z)
    (types : DataTypes) (w : World) (c : DataType) :
  let out := fst (clearEntry env e deleted types w) in
  (In (cat_role c) (snd out) <->
   testFlag types c = true /\ cat_size c e > 0 /\
   cat_size c (fst (fst out)) = 0) /\
  (~ In (cat_role c) (snd out) ->
   cat_size c (fst (fst out)) = cat_size c e) /\
  (forall x, In x (snd out) -> exists c', x = cat_role c').
Proof.
  cbv zeta. rewrite clearEntry_categories.
  destruct (clearCategories_roles types [ConfigData; CacheData; LocalData]
              (e, deleted, []) w) as (_ & Hfrom & Hwhy & Hsame).
  cbn [fst snd] in *. cbv zeta in *.
  split; [split|split].
  - intros Hc. destruct (Hwhy c Hc) as [[]|H]. exact H.
  - intros (_ & Hpos & Hzero).
    destruct (Hsame c) as [Hs|Hin]; [|exact Hin]. lia.
  - intros Hnot. destruct (Hsame c) as [Hs|Hin]; [exact Hs | contradiction].
  - intros x Hx. destruct (Hfrom x Hx) as [[]|[c' [_ ->]]].
    exists c'. reflexivity.
Qed.

End ClearEntryRoles.

Lemma clearEntry_nothing_to_clear_witness :
  let e := Entries.at_ "app.x" (m_entries (w_model Examples.scanned)) in
  nothing_to_clear (mkDataTypes false true true) e /\
  clearEntry Examples.env e 0 (mkDataTypes false true true) Examples.scanned
  = ((e, 0, []), Examples.scanned).
Proof.
  intros e.
  assert (Hidle : nothing_to_clear (mkDataTypes false true true) e).
  { intros c. destruct c; simpl; intros H; [discriminate H| |];
      vm_compute; discriminate. }
  split; [exact Hidle|].
  apply (clearEntry_nothing_to_clear Examples.env e 0 _ _ Hidle).
Defined.

(** *** calculateTotal: the unused totals, and stale totals *)

Section UnusedTotals.

Context {FS : FileSystem}.

Lemma fold_addEntry_unused (l : list MEntry) :
  forall m,
    let unused := filter (fun e => negb (installed e)) l in
    m_unused_config_size (fold_left addEntry l m)
      = Int64.accumulate (m_unused_config_size m) (map config_size unused) /\
    m_unused_cache_size (fold_left addEntry l m)
      = Int64.accumulate (m_unused_cache_size m) (map cache_size unused) /\
    m_unused_localdata_size (fold_left addEntry l m)
      = Int64.accumulate (m_unused_localdata_size m) (map data_size unused) /\
    m_unused_apps_count (fold_left addEntry l m)
      = Nat.iter (List.length unused) int_incr (m_unused_apps_count m).
Proof.
  induction l as [|e l IH]; intros m; [repeat split|].
  cbn [fold_left filter]. cbv zeta.
  destruct (IH (addEntry m e)) as (Hconfig & Hcache & Hlocal & Hcount).
  rewrite Hconfig, Hcache, Hlocal, Hcount.
  unfold addEntry, Int64.accumulate.
  destruct (negb (installed e)); cbn [map fold_left List.length];
    repeat split.
  rewrite Nat.iter_succ_r. reflexivity.
Qed.

Lemma iter_int_incr (n : nat) :
  Z.of_nat n < 2 ^ 31 -> Nat.iter n int_incr 0 = Z.of_nat n.
Proof.
  induction n as [|n IH]; intros Hn; [reflexivity|].
  rewrite Nat2Z.inj_succ in Hn. rewrite Nat.iter_succ.
  rewrite IH by lia. unfold int_incr.
  rewrite Z.mod_small by lia. lia.
Qed.

Lemma fold_addEntry_frame (l : list MEntry) :
  forall m, zeroTotals (fold_left addEntry l m) = zeroTotals m.
Proof.
  induction l as [|e l IH]; intros m; [reflexivity|].
  simpl. rewrite IH. unfold addEntry.
  destruct (negb (installed e)); reflexivity.
Qed.

(** [calculateTotal] leaves in each unused total the qint64 sum of the
    field of the same name over the entries that are not installed, and
    in [m_unused_apps_count] their number (when it fits an int); it
    emits [totalChanged] and nothing else, and changes neither the disk
    nor the rows nor the two flags. *)
Theorem calculateTotal_unused_totals (w : World) :
  let m := w_model w in
  let m' := w_model (snd (calculateTotal w)) in
  m_unused_config_size m' = sum_unused config_size m /\
  m_unused_cache_size m' = sum_unused cache_size m /\
  m_unused_localdata_size m' = sum_unused data_size m /\
  (count_unused m < 2 ^ 31 -> m_unused_apps_count m' = count_unused m) /\
  w_signals (snd (calculateTotal w)) = w_signals w ++ [totalChanged] /\
  w_disk (snd (calculateTotal w)) = w_disk w /\
  zeroTotals m' = zeroTotals m.
Proof.
  unfold calculateTotal, sum_unused, unused_entries, count_unused. run.
  destruct (fold_addEntry_unused (map snd (m_entries (w_model w)))
              (zeroTotals (w_model w)))
    as (Hconfig & Hcache & Hlocal & Hcount).
  rewrite Hconfig, Hcache, Hlocal, Hcount, fold_addEntry_frame. simpl.
  rewrite !Int64Facts.accumulate_zero.
  repeat split.
  intros Hfits.
  assert (Hlen : List.length
                   (filter (fun e => negb (installed e))
                      (map snd (m_entries (w_model w))))
                 = List.length
                     (filter (fun x => negb (installed (snd x)))
                        (m_entries (w_model w)))).
  { generalize (m_entries (w_model w)). intros l.
    induction l as [|x l IH]; [reflexivity|]. simpl.
    destruct (negb (installed (snd x))); simpl; rewrite IH; reflexivity. }
  rewrite Hlen. apply iter_int_incr. exact Hfits.
Qed.

(** The totals [calculateTotal] leaves depend on the map alone: what the
    totals held before is forgotten, and computing them a second time
    changes nothing. *)
Theorem calculateTotal_forgets_old_totals (w : World) :
  w_model (snd (calculateTotal (snd (calculateTotal w))))
    = w_model (snd (calculateTotal w)) /\
  forall w2,
    m_entries (w_model w2) = m_entries (w_model w) ->
    totals (w_model (snd (calculateTotal w2)))
    = totals (w_model (snd (calculateTotal w))).
Proof.
  split.
  - unfold calculateTotal. run.
    pose proof (fold_addEntry_rows (map snd (m_entries (w_model w)))
                  (zeroTotals (w_model w))) as Hrows.
    pose proof (fold_addEntry_frame (map snd (m_entries (w_model w)))
                  (zeroTotals (w_model w))) as Hframe.
    set (m1 := fold_left addEntry (map snd (m_entries (w_model w)))
                 (zeroTotals (w_model w))) in *.
    unfold rows in Hrows. inversion Hrows as [[Hnames Hentries]].
    rewrite Hentries, Hframe. reflexivity.
  - intros w2 Hentries. unfold calculateTotal. run. rewrite Hentries.
    generalize (map snd (m_entries (w_model w))). intros l.
    assert (Hgen : forall m1 m2, totals m1 = totals m2 ->
              totals (fold_left addEntry l m1)
              = totals (fold_left addEntry l m2)).
    { induction l as [|e l IH]; intros m1 m2 H; [exact H|].
      simpl. apply IH. unfold totals in *. inversion H.
      unfold addEntry. destruct (negb (installed e)); simpl; congruence. }
    apply Hgen. reflexivity.
Qed.

End UnusedTotals.

(** *** data, rowCount and roleNames *)

Lemma valid_row (index : QModelIndex) : isValid index = true -> 0 <= row index.
Proof.
  unfold isValid. intros H.
  apply andb_true_iff in H. destruct H as [H _].
  apply andb_true_iff in H. destruct H as [H _].
  apply Z.leb_le, H.
Qed.

Lemma row_name (m : MModel) (index : QModelIndex) :
  isValid index = true ->
  row index < rowCount m rootIndex ->
  exists k, nth_error (m_names m) (Z.to_nat (row index)) = Some k.
Proof.
  intros Hvalid Hrow. apply valid_row in Hvalid.
  unfold rowCount in Hrow. simpl in Hrow.
  destruct (nth_error (m_names m) (Z.to_nat (row index))) as [k|] eqn:E.
  - exists k. reflexivity.
  - apply nth_error_None in E. lia.
Qed.

(** For a valid index [data] answers exactly on the rows: it reads past
    the end of [m_names] when the row is not below [rowCount], and on a
    row it answers every role, the name role with the name of the row
    and the size roles with the sizes the map holds for that name (those
    of a default entry, 0, when the map has no such name). *)
Theorem data_answers_on_the_rows (m : MModel) (index : QModelIndex)
    (role : Role) :
  isValid index = true ->
  (data m index role = None <-> rowCount m rootIndex <= row index) /\
  (row index < rowCount m rootIndex ->
   exists k,
     nth_error (m_names m) (Z.to_nat (row index)) = Some k /\
     data m index NameRole = Some (QVariantString k) /\
     data m index ConfigSizeRole
       = Some (QVariantLongLong (config_size (Entries.at_ k (m_entries m)))) /\
     data m index CacheSizeRole
       = Some (QVariantLongLong (cache_size (Entries.at_ k (m_entries m)))) /\
     data m index LocalDataSizeRole
       = Some (QVariantLongLong (data_size (Entries.at_ k (m_entries m)))) /\
     (Entries.lookup k (m_entries m) = None ->
      data m index ConfigSizeRole = Some (QVariantLongLong 0))).
Proof.
  intros Hvalid. pose proof (valid_row index Hvalid) as Hrow0. split.
  - unfold data, rowCount. rewrite Hvalid. simpl.
    destruct (nth_error (m_names m) (Z.to_nat (row index))) as [k|] eqn:E.
    + split; [discriminate|]. intros Hpast. exfalso.
      assert (Hlt : (Z.to_nat (row index) < List.length (m_names m))%nat).
      { apply nth_error_Some. congruence. }
      lia.
    + split; [|reflexivity]. intros _. apply nth_error_None in E. lia.
  - intros Hrow. destruct (row_name m index Hvalid Hrow) as [k Hk].
    exists k. unfold data. rewrite Hvalid, Hk. simpl.
    repeat split. intros Hnone. unfold Entries.at_. rewrite Hnone.
    reflexivity.
Qed.

(** On a row the sort key is the title the row shows, after "0" for an
    installed app and "1" for one that is not; the title shown is the
    name of the row when the entry has no title. *)
Theorem data_sort_key (m : MModel) (index : QModelIndex) :
  isValid index = true ->
  row index < rowCount m rootIndex ->
  exists k shown installed_,
    data m index NameRole = Some (QVariantString k) /\
    data m index TitleRole = Some (QVariantString shown) /\
    data m index InstalledRole = Some (QVariantBool installed_) /\
    data m index SortRole
      = Some (QVariantString
                ((if installed_ then "0" else "1") ++ shown)%string) /\
    (title (Entries.at_ k (m_entries m)) = "" -> shown = k) /\
    (title (Entries.at_ k (m_entries m)) <> "" ->
     shown = title (Entries.at_ k (m_entries m))).
Proof.
  intros Hvalid Hrow. destruct (row_name m index Hvalid Hrow) as [k Hk].
  set (e := Entries.at_ k (m_entries m)).
  exists k, (if isEmpty (title e) then k else title e), (installed e).
  unfold data. rewrite Hvalid, Hk. fold e. simpl.
  split; [reflexivity|]. split; [reflexivity|]. split; [reflexivity|].
  split; [destruct (installed e); reflexivity|].
  split.
  - intros Hempty. rewrite Hempty. reflexivity.
  - intros Htitle. destruct (isEmpty (title e)) eqn:E; [|reflexivity].
    apply isEmpty_true in E. contradiction.
Qed.

(** The sort key of a row of an installed app comes before the sort key
    of a row of an app that is not installed, whatever the titles. *)
Theorem data_sort_key_installed_first (m : MModel) (i j : QModelIndex) :
  data m i InstalledRole = Some (QVariantBool true) ->
  data m j InstalledRole = Some (QVariantBool false) ->
  exists si sj,
    data m i SortRole = Some (QVariantString si) /\
    data m j SortRole = Some (QVariantString sj) /\
    String.compare si sj = Lt.
Proof.
  unfold data. intros Hi Hj.
  destruct (negb (isValid i)); [discriminate|].
  destruct (negb (isValid j)); [discriminate|].
  destruct (nth_error (m_names m) (Z.to_nat (row i))) as [ki|];
    [|discriminate].
  destruct (nth_error (m_names m) (Z.to_nat (row j))) as [kj|];
    [|discriminate].
  inversion Hi as [Hi']. inversion Hj as [Hj']. rewrite Hi', Hj'. simpl.
  eexists. eexists. split; [reflexivity|]. split; [reflexivity|].
  reflexivity.
Qed.

(** Every role [roleNames] gives a name to has a case in the switch of
    [data]: on every row the answer is a valid QVariant, not the
    [QVariant()] that ends the function, and holds a QString for the
    name, the title and the icon (whatever the string, the icon of an
    entry for which no icon file was found being the empty one), a bool
    for installed and a qint64 for the three sizes.  A role with neither
    a name nor a case gets [QVariant()].  The roles and the names of
    [roleNames] are pairwise distinct, and the sort role has no name. *)
Theorem roleNames_are_answered (m : MModel) (index : QModelIndex)
    (role : Role) (label : string) :
  In (role, label) roleNames ->
  isValid index = true ->
  row index < rowCount m rootIndex ->
  (exists v, data m index role = Some v /\
             variant_isValid v = true /\ role_holds role v = true) /\
  data m index IconRole
    = Some (QVariantString
              (icon (Entries.at_ (nth (Z.to_nat (row index)) (m_names m) "")
                       (m_entries m)))) /\
  (forall r, data m index (OtherRole r) = Some QVariantNull) /\
  NoDup (map fst roleNames) /\ NoDup (map snd roleNames) /\
  ~ In SortRole (map fst roleNames).
Proof.
  intros Hrole Hvalid Hrow.
  destruct (row_name m index Hvalid Hrow) as [k Hk].
  split; [|split; [|split]].
  - unfold data. rewrite Hvalid, Hk. simpl.
    unfold roleNames in Hrole. simpl in Hrole.
    repeat (destruct Hrole as [Hrole|Hrole];
            [inversion Hrole; subst; eexists;
             split; [reflexivity | split; reflexivity]|]).
    contradiction.
  - unfold data. rewrite Hvalid, Hk. simpl.
    rewrite (nth_error_nth _ _ "" Hk). reflexivity.
  - intros r. unfold data. rewrite Hvalid, Hk. reflexivity.
  - split; [|split].
    + unfold roleNames. simpl.
      repeat (constructor; [simpl; intuition discriminate|]). constructor.
    + unfold roleNames. simpl.
      repeat (constructor; [simpl; intuition discriminate|]). constructor.
    + unfold roleNames. simpl. intuition discriminate.
Qed.

Lemma data_answers_on_the_rows_witness :
  let m := w_model Examples.scanned in
  isValid (mkIndex 1 0 true) = true /\
  data m (mkIndex 1 0 true) NameRole = Some (QVariantString "harbour-foo") /\
  data m (mkIndex 1 0 true) CacheSizeRole = Some (QVariantLongLong 50) /\
  (data m (mkIndex 2 0 true) IconRole = None <-> 2 <= 2).
Proof.
  intros m.
  assert (Hvalid : isValid (mkIndex 1 0 true) = true) by reflexivity.
  destruct (data_answers_on_the_rows m (mkIndex 1 0 true) NameRole Hvalid)
    as [_ Hrow].
  destruct Hrow as (k & Hk & Hname & _ & Hcache & _);
    [vm_compute; reflexivity|].
  assert (Hk' : k = "harbour-foo") by (vm_compute in Hk; congruence).
  subst k.
  destruct (data_answers_on_the_rows m (mkIndex 2 0 true) IconRole eq_refl)
    as [Hpast _].
  split; [exact Hvalid|]. split; [exact Hname|].
  split; [rewrite Hcache; reflexivity | exact Hpast].
Defined.

Lemma data_sort_key_witness :
  let m := w_model Examples.scanned_mixed in
  isValid (mkIndex 0 0 true) = true /\
  row (mkIndex 0 0 true) < rowCount m rootIndex /\
  data m (mkIndex 0 0 true) SortRole = Some (QVariantString "0One") /\
  data m (mkIndex 1 0 true) SortRole = Some (QVariantString "1harbour-two").
Proof.
  intros m.
  assert (Hvalid : isValid (mkIndex 0 0 true) = true) by reflexivity.
  assert (Hrow : row (mkIndex 0 0 true) < rowCount m rootIndex)
    by (vm_compute; reflexivity).
  destruct (data_sort_key m (mkIndex 0 0 true) Hvalid Hrow)
    as (k & shown & b & _ & Htitle & Hinst & Hsort & _).
  vm_compute in Htitle. vm_compute in Hinst.
  inversion Htitle; subst shown. inversion Hinst; subst b.
  split; [exact Hvalid|]. split; [exact Hrow|].
  split; [exact Hsort | reflexivity].
Defined.

Lemma data_sort_key_installed_first_witness :
  let m := w_model Examples.scanned_mixed in
  data m (mkIndex 0 0 true) InstalledRole = Some (QVariantBool true) /\
  data m (mkIndex 1 0 true) InstalledRole = Some (QVariantBool false) /\
  exists si sj,
    data m (mkIndex 0 0 true) SortRole = Some (QVariantString si) /\
    data m (mkIndex 1 0 true) SortRole = Some (QVariantString sj) /\
    String.compare si sj = Lt.
Proof.
  intros m.
  assert (Hi : data m (mkIndex 0 0 true) InstalledRole
               = Some (QVariantBool true)) by reflexivity.
  assert (Hj : data m (mkIndex 1 0 true) InstalledRole
               = Some (QVariantBool false)) by reflexivity.
  split; [exact Hi|]. split; [exact Hj|].
  apply (data_sort_key_installed_first m _ _ Hi Hj).
Defined.

Lemma roleNames_are_answered_witness :
  let m := w_model Examples.scanned in
  In (TitleRole, "title") roleNames /\
  isValid (mkIndex 0 0 true) = true /\
  row (mkIndex 0 0 true) < rowCount m rootIndex /\
  (exists v, data m (mkIndex 0 0 true) TitleRole = Some v /\
             variant_isValid v = true /\ role_holds TitleRole v = true) /\
  data m (mkIndex 0 0 true) IconRole = Some (QVariantString "").
Proof.
  intros m.
  assert (Hin : In (TitleRole, "title") roleNames)
    by (unfold roleNames; simpl; auto).
  assert (Hrow : row (mkIndex 0 0 true) < rowCount m rootIndex)
    by (vm_compute; reflexivity).
  split; [exact Hin|]. split; [reflexivity|]. split; [exact Hrow|].
  destruct (roleNames_are_answered m (mkIndex 0 0 true) TitleRole "title"
              Hin eq_refl Hrow) as (Hanswer & Hicon & _).
  split; [exact Hanswer | exact Hicon].
Defined.

(** *** resetImpl: what it leaves *)

Section SignalSteps.

Context {FS : FileSystem}.

Lemma emit_signals s w : w_signals (snd (emit s w)) = w_signals w ++ [s].
Proof. reflexivity. Qed.

Lemma modify_signals f w : w_signals (snd (modify f w)) = w_signals w.
Proof. reflexivity. Qed.

Lemma setBusy_signals b w :
  w_signals (snd (setBusy b w)) = w_signals w ++ [busyChanged].
Proof. reflexivity. Qed.

Lemma calculateTotal_signals w :
  w_signals (snd (calculateTotal w)) = w_signals w ++ [totalChanged].
Proof. reflexivity. Qed.

Lemma calculateTotal_model w :
  w_model (snd (calculateTotal w))
  = fold_left addEntry (map snd (m_entries (w_model w)))
      (zeroTotals (w_model w)).
Proof. reflexivity. Qed.

End SignalSteps.

Create Rewrite HintDb signal_steps.

#[export] Hint Rewrite @emit_signals @modify_signals @setBusy_signals
  @calculateTotal_signals : signal_steps.

Section ResetProtocol.

Context {FS : FileSystem}.
Variable env : Platform.

Lemma resetImpl_model_of_disk (w1 w2 : World) :
  w_disk w1 = w_disk w2 ->
  w_model (snd (resetImpl env w1)) = w_model (snd (resetImpl env w2)).
Proof.
  intros Hdisk. unfold resetImpl.
  rewrite !bind_unit, !bind_getDisk, !bind_unit.
  autorewrite with steps. rewrite !calculateTotal_model.
  autorewrite with steps. rewrite Hdisk. reflexivity.
Qed.

(** [resetImpl] only reads the disk, and the model it leaves is a
    function of the disk alone: what the model held before (rows, totals,
    flags) is forgotten, so a second rescan of an unchanged disk leaves
    the same model.  It ends with both flags down, having emitted, in
    this order, busyChanged, the start of the model reset,
    resettingChanged, the end of the reset, totalChanged, busyChanged
    and resettingChanged. *)
Theorem resetImpl_rebuilds_from_the_disk (w : World) :
  w_disk (snd (resetImpl env w)) = w_disk w /\
  (forall w2, w_disk w2 = w_disk w ->
              w_model (snd (resetImpl env w2))
              = w_model (snd (resetImpl env w))) /\
  w_model (snd (resetImpl env (snd (resetImpl env w))))
    = w_model (snd (resetImpl env w)) /\
  m_busy (w_model (snd (resetImpl env w))) = false /\
  m_resetting (w_model (snd (resetImpl env w))) = false /\
  w_signals (snd (resetImpl env w))
    = w_signals w ++ [busyChanged; modelAboutToBeReset; resettingChanged;
                      modelReset; totalChanged; busyChanged;
                      resettingChanged].
Proof.
  destruct (resetImpl_world env w) as [Hdisk _].
  split; [exact Hdisk|].
  split; [intros w2 H2; apply resetImpl_model_of_disk, H2|].
  split; [apply resetImpl_model_of_disk, Hdisk|].
  unfold resetImpl. rewrite !bind_unit, !bind_getDisk, !bind_unit.
  split; [autorewrite with steps; reflexivity|].
  split; [autorewrite with steps; reflexivity|].
  autorewrite with signal_steps. rewrite <- !app_assoc. reflexivity.
Qed.

End ResetProtocol.

(** *** resetImpl: the records it builds *)

Section MapKeys.

Import Entries.

Lemma keys_insert (k : string) (e : MEntry) (m : t) :
  keys (insert k e m) = if contains k m then keys m else keys m ++ [k].
Proof.
  unfold contains, keys. induction m as [|[k' e'] m IH]; simpl.
  - reflexivity.
  - destruct (String.eqb k k') eqn:E; simpl.
    + apply String.eqb_eq in E. subst k'. reflexivity.
    + rewrite IH. destruct (lookup k m); reflexivity.
Qed.

Lemma contains_keys (k : string) (m : t) :
  contains k m = true <-> In k (keys m).
Proof.
  rewrite <- lookup_keys. unfold contains.
  destruct (lookup k m); split; congruence.
Qed.

Lemma NoDup_keys_insert (k : string) (e : MEntry) (m : t) :
  NoDup (keys m) -> NoDup (keys (insert k e m)).
Proof.
  intros Hm. rewrite keys_insert.
  destruct (contains k m) eqn:E; [exact Hm|].
  apply NoDup_app; [exact Hm | repeat constructor; simpl; tauto |].
  intros x Hx [<-|[]].
  apply contains_keys in Hx. congruence.
Qed.

Lemma keys_remove (k k' : string) (m : t) :
  In k' (keys (remove k m)) <-> k' <> k /\ In k' (keys m).
Proof.
  rewrite <- !lookup_keys.
  destruct (String.eqb k k') eqn:E.
  - apply String.eqb_eq in E. subst k'. rewrite lookup_remove_eq.
    split; [congruence | intros [H _]; congruence].
  - apply String.eqb_neq in E. rewrite lookup_remove_ne by exact E.
    split; [intros H; split; congruence | tauto].
Qed.

Lemma NoDup_keys_remove (k : string) (m : t) :
  NoDup (keys m) -> NoDup (keys (remove k m)).
Proof.
  unfold keys. induction m as [|[k' e'] m IH]; simpl; intros H;
    [constructor|].
  inversion H as [|? ? Hk' Hm]; subst.
  destruct (String.eqb k k'); [apply IH, Hm|].
  simpl. constructor; [|apply IH, Hm].
  intros Hin. apply Hk'.
  apply (proj1 (keys_remove k k' m)) in Hin. apply Hin.
Qed.

Lemma insert_same (k : string) (e : MEntry) (m : t) :
  lookup k m = Some e -> insert k e m = m.
Proof.
  induction m as [|[k' e'] m IH]; simpl; [discriminate|].
  destruct (String.eqb k k') eqn:E.
  - apply String.eqb_eq in E. subst k'. intros H. inversion H. reflexivity.
  - intros H. rewrite IH by exact H. reflexivity.
Qed.

End MapKeys.

Section Records.

Context {FS : FileSystem}.
Variable env : Platform.
Variable d : disk.

Lemma scan_discovered :
  scan env d
  = (fst (discovered env d),
     fold_left (resolveInstalled env d)
       (Entries.keys (snd (discovered env d))) (snd (discovered env d))).
Proof. reflexivity. Qed.

(** Whatever holds of the empty map and is kept by the insertion of a
    known app that exists() and by the recording of a directory holds of
    the map the first two loops build. *)
Lemma discovered_ind (P : Entries.t -> Prop) :
  P [] ->
  (forall app m,
      In app (knownApps env) -> entry_exists env (known_entry d app) = true ->
      P m ->
      P (Entries.insert (name app) (known_entry d app) m)) ->
  (forall c dir m,
      In dir (found_in_root env d c) -> excluded env (fst dir) = false ->
      P m ->
      P (Entries.insert (snd dir)
           (recordDir (root_index c) (fst dir) (getSize d (fst dir))
              (Entries.at_ (snd dir) m)) m)) ->
  P (snd (discovered env d)).
Proof.
  intros Hnil Hknown Hdir.
  assert (Hphase1 : forall apps st,
             incl apps (knownApps env) -> P (snd st) ->
             P (snd (fold_left (addKnownApp env d) apps st))).
  { induction apps as [|app apps IH]; intros st Hincl Hst; [exact Hst|].
    simpl. apply IH; [intros a Ha; apply Hincl; right; exact Ha|].
    rewrite addKnownApp_entries.
    destruct (entry_exists env (known_entry d app)) eqn:Hex; [|exact Hst].
    apply Hknown; [apply Hincl; left; reflexivity | exact Hex | exact Hst]. }
  assert (Hphase2 : forall c dirs st,
             incl dirs (found_in_root env d c) -> P (snd st) ->
             P (snd (fold_left (mergeDir env d (root_index c)) dirs st))).
  { intros c. induction dirs as [|dir dirs IH]; intros st Hincl Hst;
      [exact Hst|].
    simpl. apply IH; [intros a Ha; apply Hincl; right; exact Ha|].
    rewrite mergeDir_entries.
    destruct (excluded env (fst dir)) eqn:Hexcl; [exact Hst|].
    apply Hdir; [apply Hincl; left; reflexivity | exact Hexcl | exact Hst]. }
  unfold discovered. cbn [fold_left].
  rewrite (searchRoot_found env d LocalData).
  apply Hphase2; [apply incl_refl|].
  rewrite (searchRoot_found env d CacheData).
  apply Hphase2; [apply incl_refl|].
  rewrite (searchRoot_found env d ConfigData).
  apply Hphase2; [apply incl_refl|].
  apply Hphase1; [apply incl_refl | exact Hnil].
Qed.

Lemma discovered_keys : NoDup (Entries.keys (snd (discovered env d))).
Proof.
  apply discovered_ind.
  - constructor.
  - intros app m _ _. apply NoDup_keys_insert.
  - intros c dir m _ _. apply NoDup_keys_insert.
Qed.

Lemma recordDir_meta (i : nat) (dirpath : string) (size : Z) (e : MEntry) :
  installed (recordDir i dirpath size e) = installed e /\
  title (recordDir i dirpath size e) = title e /\
  icon (recordDir i dirpath size e) = icon e.
Proof. destruct i as [|[|[|i]]]; repeat split. Qed.

Lemma discovered_not_yet_installed :
  forall k x, Entries.lookup k (snd (discovered env d)) = Some x ->
              not_yet_installed x.
Proof.
  apply (discovered_ind
           (fun m => forall k x, Entries.lookup k m = Some x ->
                                 not_yet_installed x)).
  - intros k x H. discriminate H.
  - intros app m _ _ Hm k x Hk.
    destruct (String.eqb (name app) k) eqn:E.
    + apply String.eqb_eq in E. subst k. rewrite lookup_insert_eq in Hk.
      inversion Hk. repeat split.
    + apply String.eqb_neq in E. rewrite lookup_insert_ne in Hk by exact E.
      apply (Hm k x Hk).
  - intros c dir m _ _ Hm k x Hk.
    destruct (String.eqb (snd dir) k) eqn:E.
    + apply String.eqb_eq in E. subst k. rewrite lookup_insert_eq in Hk.
      inversion Hk.
      destruct (recordDir_meta (root_index c) (fst dir) (getSize d (fst dir))
                  (Entries.at_ (snd dir) m)) as (Hi & Ht & Hc).
      unfold not_yet_installed. rewrite Hi, Ht, Hc.
      unfold Entries.at_.
      destruct (Entries.lookup (snd dir) m) as [x0|] eqn:Hx0.
      * apply (Hm _ _ Hx0).
      * repeat split.
    + apply String.eqb_neq in E. rewrite lookup_insert_ne in Hk by exact E.
      apply (Hm k x Hk).
Qed.

(** The third loop, name by name. *)
Lemma resolve_other (names : list string) (k : string) :
  ~ In k names ->
  forall m, Entries.lookup k (fold_left (resolveInstalled env d) names m)
            = Entries.lookup k m.
Proof.
  induction names as [|n names IH]; intros Hk m; [reflexivity|].
  simpl. rewrite IH by (intros H; apply Hk; right; exact H).
  unfold resolveInstalled.
  destruct (probeDesktop d n (Entries.at_ n m) (ApplicationsLocation env));
    [|reflexivity].
  apply lookup_insert_ne. intros ->. apply Hk. left. reflexivity.
Qed.

Lemma resolve_one (names : list string) (k : string) :
  NoDup names -> In k names ->
  forall m,
    Entries.lookup k (fold_left (resolveInstalled env d) names m)
    = match probeDesktop d k (Entries.at_ k m) (ApplicationsLocation env) with
      | Some e' => Some e'
      | None => Entries.lookup k m
      end.
Proof.
  induction names as [|n names IH]; intros Hnodup Hk m; [contradiction|].
  inversion Hnodup as [|? ? Hn Hnames]; subst. simpl.
  destruct (String.eqb n k) eqn:E.
  - apply String.eqb_eq in E. subst n.
    rewrite resolve_other by exact Hn.
    unfold resolveInstalled.
    destruct (probeDesktop d k (Entries.at_ k m) (ApplicationsLocation env));
      [apply lookup_insert_eq | reflexivity].
  - apply String.eqb_neq in E.
    destruct Hk as [Hk|Hk]; [congruence|].
    rewrite (IH Hnames Hk).
    assert (Hsame : Entries.lookup k (resolveInstalled env d m n)
                    = Entries.lookup k m).
    { unfold resolveInstalled.
      destruct (probeDesktop d n (Entries.at_ n m)
                  (ApplicationsLocation env)); [|reflexivity].
      apply lookup_insert_ne, E. }
    unfold Entries.at_ at 1. rewrite Hsame. fold (Entries.at_ k m).
    reflexivity.
Qed.

Lemma probeDesktop_file (k : string) (e : MEntry)
    (desktop_paths : list string) :
  probeDesktop d k e desktop_paths
  = match find (fi_isFile d)
            (map (fun path => desktop_tmpl path k) desktop_paths) with
    | Some f =>
        Some (mkMEntry true (config_size e) (cache_size e) (data_size e)
                (desktop_value d f name_key "")
                (match findIcon d (desktop_value d f icon_key k)
                         icon_tmpls with
                 | Some i => i
                 | None => icon e
                 end)
                (config_paths e) (cache_paths e) (data_paths e))
    | None => None
    end.
Proof.
  induction desktop_paths as [|path rest IH]; [reflexivity|].
  cbn [probeDesktop map find].
  destruct (fi_isFile d (desktop_tmpl path k)); [reflexivity | exact IH].
Qed.

(** What the third loop leaves under a name of the map. *)
Lemma scan_lookup (k : string) (x : MEntry) :
  Entries.lookup k (snd (scan env d)) = Some x ->
  exists x0,
    Entries.lookup k (snd (discovered env d)) = Some x0 /\
    match probeDesktop d k x0 (ApplicationsLocation env) with
    | Some e' => x = e'
    | None => x = x0
    end.
Proof.
  rewrite scan_discovered. cbn [snd]. intros Hk.
  destruct (in_dec string_dec k (Entries.keys (snd (discovered env d))))
    as [Hin|Hnot].
  - rewrite (resolve_one _ k discovered_keys Hin) in Hk.
    apply lookup_keys in Hin.
    destruct (Entries.lookup k (snd (discovered env d))) as [x0|] eqn:Hx0;
      [|congruence].
    exists x0. split; [reflexivity|].
    unfold Entries.at_ in Hk. rewrite Hx0 in Hk.
    destruct (probeDesktop d k x0 (ApplicationsLocation env));
      congruence.
  - rewrite (resolve_other _ k Hnot) in Hk.
    exfalso. apply Hnot. apply lookup_keys. congruence.
Qed.

End Records.

Section RescanNames.

Context {FS : FileSystem}.
Variable env : Platform.
Variable d : disk.

Lemma addKnownApp_names (st : list string * Entries.t) (app : KnownApp) :
  fst (addKnownApp env d st app) =
  if entry_exists env (known_entry d app)
  then fst st ++ [name app] else fst st.
Proof.
  unfold addKnownApp, known_entry. simpl.
  destruct (processKnownPaths d [] 0 (config app)).
  destruct (processKnownPaths d [] 0 (cache app)).
  destruct (processKnownPaths d [] 0 (local_data app)).
  simpl. destruct (entry_exists env _); reflexivity.
Qed.

(** The first loop appends a name whenever it inserts: with no two
    known apps of the same name the list of names stays the list of
    keys. *)
Lemma known_apps_names (apps : list KnownApp) :
  NoDup (map name apps) ->
  forall st,
    fst st = Entries.keys (snd st) ->
    (forall k, In k (Entries.keys (snd st)) -> ~ In k (map name apps)) ->
    fst (fold_left (addKnownApp env d) apps st)
    = Entries.keys (snd (fold_left (addKnownApp env d) apps st)).
Proof.
  induction apps as [|app apps IH]; intros Hnd st Hst Hfresh; [exact Hst|].
  cbn [fold_left]. cbn [map] in Hnd, Hfresh.
  inversion Hnd as [|? ? Hhead Htail]; subst.
  apply IH; [exact Htail | |].
  - rewrite addKnownApp_names, addKnownApp_entries.
    destruct (entry_exists env (known_entry d app)); [|exact Hst].
    rewrite keys_insert.
    destruct (Entries.contains (name app) (snd st)) eqn:E.
    + apply contains_keys in E. exfalso. apply (Hfresh _ E).
      left. reflexivity.
    + rewrite Hst. reflexivity.
  - intros k Hk Hin. rewrite addKnownApp_entries in Hk.
    destruct (entry_exists env (known_entry d app)).
    + rewrite keys_insert in Hk.
      destruct (Entries.contains (name app) (snd st)).
      * apply (Hfresh k Hk). right. exact Hin.
      * apply in_app_or in Hk. destruct Hk as [Hk|[Hk|[]]].
        -- apply (Hfresh k Hk). right. exact Hin.
        -- subst k. contradiction.
    + apply (Hfresh k Hk). right. exact Hin.
Qed.

Lemma mergeDir_names (i : nat) (st : list string * Entries.t)
    (dir : string * string) :
  fst st = Entries.keys (snd st) ->
  fst (mergeDir env d i st dir) = Entries.keys (snd (mergeDir env d i st dir)).
Proof.
  intros Hst. unfold mergeDir. destruct dir as [dirpath dirname].
  destruct (negb (exclude_pattern_isEmpty env) && exclude_hasMatch env dirpath);
    [exact Hst|].
  cbn [fst snd]. rewrite keys_insert.
  destruct (Entries.contains dirname (snd st)); cbn [negb];
    rewrite Hst; reflexivity.
Qed.

Lemma searchRoot_names (i : nat) (st : list string * Entries.t) :
  fst st = Entries.keys (snd st) ->
  fst (searchRoot env d st i) = Entries.keys (snd (searchRoot env d st i)).
Proof.
  unfold searchRoot.
  generalize (dirSubdirs d (nth i (app_paths env) "") filters).
  intros dirs. revert st.
  induction dirs as [|dir dirs IH]; intros st Hst; [exact Hst|].
  cbn [fold_left]. apply IH, mergeDir_names, Hst.
Qed.

Lemma discovered_names :
  NoDup (map name (knownApps env)) ->
  fst (discovered env d) = Entries.keys (snd (discovered env d)).
Proof.
  intros Hnd. unfold discovered. cbn [fold_left].
  do 3 apply searchRoot_names.
  apply known_apps_names; [exact Hnd | reflexivity |].
  intros k [].
Qed.

(** The third loop writes under names the map has: it keeps the keys. *)
Lemma resolve_keys (names : list string) :
  forall m,
    incl names (Entries.keys m) ->
    Entries.keys (fold_left (resolveInstalled env d) names m)
    = Entries.keys m.
Proof.
  induction names as [|n names IH]; intros m Hincl; [reflexivity|].
  cbn [fold_left].
  assert (Hn : Entries.keys (resolveInstalled env d m n) = Entries.keys m).
  { unfold resolveInstalled.
    destruct (probeDesktop d n (Entries.at_ n m) (ApplicationsLocation env));
      [|reflexivity].
    rewrite keys_insert.
    replace (Entries.contains n m) with true; [reflexivity|].
    symmetry. apply contains_keys, Hincl. left. reflexivity. }
  rewrite IH; [exact Hn|].
  rewrite Hn. intros k Hk. apply Hincl. right. exact Hk.
Qed.

Lemma scan_keys :
  Entries.keys (snd (scan env d)) = Entries.keys (snd (discovered env d)).
Proof.
  rewrite scan_discovered. cbn [snd]. apply resolve_keys, incl_refl.
Qed.

(** With or without two known apps of one name, the names listed are
    the keys of the map. *)
Lemma discovered_listed (k : string) :
  In k (fst (discovered env d)) <-> In k (Entries.keys (snd (discovered env d))).
Proof.
  assert (Hknown : forall apps st,
             (In k (fst st) <-> In k (Entries.keys (snd st))) ->
             (In k (fst (fold_left (addKnownApp env d) apps st)) <->
              In k (Entries.keys
                      (snd (fold_left (addKnownApp env d) apps st))))).
  { induction apps as [|app apps IH]; intros st Hst; [exact Hst|].
    cbn [fold_left]. apply IH.
    rewrite addKnownApp_names, addKnownApp_entries.
    destruct (entry_exists env (known_entry d app)); [|exact Hst].
    rewrite keys_insert.
    destruct (Entries.contains (name app) (snd st)) eqn:E.
    - apply contains_keys in E. rewrite in_app_iff. cbn [In].
      split; [|tauto].
      intros [H|[H|[]]]; [tauto | subst k; exact E].
    - rewrite !in_app_iff. tauto. }
  assert (Hdirs : forall i dirs st,
             (In k (fst st) <-> In k (Entries.keys (snd st))) ->
             (In k (fst (fold_left (mergeDir env d i) dirs st)) <->
              In k (Entries.keys
                      (snd (fold_left (mergeDir env d i) dirs st))))).
  { intros i. induction dirs as [|dir dirs IH]; intros st Hst; [exact Hst|].
    cbn [fold_left]. apply IH.
    unfold mergeDir. destruct dir as [dirpath dirname].
    destruct (negb (exclude_pattern_isEmpty env)
              && exclude_hasMatch env dirpath); [exact Hst|].
    cbn [fst snd]. rewrite keys_insert.
    destruct (Entries.contains dirname (snd st)); cbn [negb];
      [exact Hst|].
    rewrite !in_app_iff. tauto. }
  unfold discovered. cbn [fold_left]. unfold searchRoot.
  do 3 apply Hdirs. apply Hknown. reflexivity.
Qed.

End RescanNames.

Section RescanPaths.

Context {FS : FileSystem}.
Variable env : Platform.
Variable d : disk.

Lemma recorded_at (m : Entries.t) (k : string) (c : DataType) (p : string) :
  In p (cat_paths c (Entries.at_ k m)) -> recorded m k c p.
Proof.
  unfold Entries.at_, recorded.
  destruct (Entries.lookup k m) as [x|].
  - intros H. exists x. split; [reflexivity | exact H].
  - destruct c; intros [].
Qed.

Lemma recordDir_keeps (i : nat) (dirpath : string) (size : Z) (e : MEntry)
    (c : DataType) (p : string) :
  In p (cat_paths c e) -> In p (cat_paths c (recordDir i dirpath size e)).
Proof.
  destruct i as [|[|[|i]]]; destruct c; cbn [recordDir cat_paths
    config_paths cache_paths data_paths]; rewrite ?in_app_iff; auto.
Qed.

Lemma recordDir_paths (i : nat) (dirpath : string) (size : Z) (e : MEntry)
    (c : DataType) (p : string) :
  In p (cat_paths c (recordDir i dirpath size e)) ->
  In p (cat_paths c e) \/ (i = root_index c /\ p = dirpath).
Proof.
  destruct i as [|[|[|i]]]; destruct c; cbn [recordDir cat_paths
    config_paths cache_paths data_paths root_index];
    rewrite ?in_app_iff; cbn [In]; intuition auto.
Qed.

(** The third loop neither adds nor drops a recorded path. *)
Lemma recorded_scan (k : string) (c : DataType) (p : string) :
  recorded (snd (scan env d)) k c p
  <-> recorded (snd (discovered env d)) k c p.
Proof.
  split.
  - intros [x [Hx Hp]].
    destruct (scan_lookup env d k x Hx) as [x0 [Hx0 Hres]].
    exists x0. split; [exact Hx0|].
    destruct (probeDesktop d k x0 (ApplicationsLocation env)) as [e'|] eqn:E.
    + subst x. destruct (probeDesktop_categories d k x0 e' _ E c) as [<- _].
      exact Hp.
    + subst x. exact Hp.
  - intros [x0 [Hx0 Hp]].
    assert (Hin : In k (Entries.keys (snd (discovered env d)))).
    { apply lookup_keys. congruence. }
    pose proof (resolve_one env d _ k (discovered_keys env d) Hin
                  (snd (discovered env d))) as Hone.
    unfold Entries.at_ in Hone. rewrite Hx0 in Hone.
    rewrite scan_discovered. cbn [snd].
    destruct (probeDesktop d k x0 (ApplicationsLocation env)) as [e'|] eqn:E.
    + exists e'. split; [exact Hone|].
      destruct (probeDesktop_categories d k x0 e' _ E c) as [-> _].
      exact Hp.
    + exists x0. split; [exact Hone | exact Hp].
Qed.

Lemma mergeDir_keeps (i : nat) (st : list string * Entries.t)
    (dir : string * string) (k : string) (c : DataType) (p : string) :
  recorded (snd st) k c p ->
  recorded (snd (mergeDir env d i st dir)) k c p.
Proof.
  intros [x [Hx Hp]]. rewrite mergeDir_entries.
  destruct (excluded env (fst dir)); [exists x; auto|].
  destruct (String.eqb (snd dir) k) eqn:E.
  - apply String.eqb_eq in E. rewrite E.
    eexists. split; [apply lookup_insert_eq|].
    apply recordDir_keeps. rewrite (at_lookup _ _ _ Hx). exact Hp.
  - apply String.eqb_neq in E. exists x.
    split; [|exact Hp]. rewrite lookup_insert_ne by exact E. exact Hx.
Qed.

Lemma searchRoot_keeps (i : nat) (st : list string * Entries.t)
    (k : string) (c : DataType) (p : string) :
  recorded (snd st) k c p -> recorded (snd (searchRoot env d st i)) k c p.
Proof.
  unfold searchRoot.
  generalize (dirSubdirs d (nth i (app_paths env) "") filters).
  intros dirs. revert st.
  induction dirs as [|dir dirs IH]; intros st Hst; [exact Hst|].
  cbn [fold_left]. apply IH, mergeDir_keeps, Hst.
Qed.

Lemma searchRoot_records (c : DataType) (st : list string * Entries.t)
    (k p : string) :
  from_root env d k c p ->
  recorded (snd (searchRoot env d st (root_index c))) k c p.
Proof.
  intros [Hin Hexcl]. rewrite searchRoot_found.
  revert st Hin. generalize (found_in_root env d c). intros dirs.
  induction dirs as [|dir dirs IH]; intros st Hin; [contradiction|].
  cbn [fold_left]. destruct Hin as [Hdir|Hin]; [|apply IH, Hin].
  subst dir.
  assert (Hnow : recorded
                   (snd (mergeDir env d (root_index c) st (p, k))) k c p).
  { rewrite mergeDir_entries. cbn [fst snd]. rewrite Hexcl.
    eexists. split; [apply lookup_insert_eq|].
    destruct (recordDir_category c p (getSize d p)
                (Entries.at_ k (snd st))) as [-> _].
    apply in_or_app. right. left. reflexivity. }
  revert Hnow. generalize (mergeDir env d (root_index c) st (p, k)).
  clear IH. induction dirs as [|dir dirs IH]; intros st' H; [exact H|].
  cbn [fold_left]. apply IH, mergeDir_keeps, H.
Qed.

Lemma discovered_records (k : string) (c : DataType) (p : string) :
  from_root env d k c p -> recorded (snd (discovered env d)) k c p.
Proof.
  intros H. unfold discovered. cbn [fold_left].
  destruct c.
  - do 2 apply searchRoot_keeps.
    apply (searchRoot_records ConfigData), H.
  - apply searchRoot_keeps.
    apply (searchRoot_records CacheData), H.
  - apply (searchRoot_records LocalData), H.
Qed.

Lemma discovered_provenance (k : string) (c : DataType) (p : string) :
  recorded (snd (discovered env d)) k c p ->
  from_known env d k c p \/ from_root env d k c p.
Proof.
  revert k c p.
  apply (discovered_ind env d
           (fun m => forall k c p, recorded m k c p ->
                       from_known env d k c p \/ from_root env d k c p)).
  - intros k c p [x [Hx _]]. discriminate Hx.
  - intros app m Happ _ Hm k c p [x [Hx Hp]].
    destruct (String.eqb (name app) k) eqn:E.
    + apply String.eqb_eq in E. rewrite <- E in Hx.
      rewrite lookup_insert_eq in Hx. inversion Hx; subst x. clear Hx.
      left. exists app. split; [exact Happ|]. split; [exact E|].
      assert (Hfilter : In p (filter (fi_exists d) (known_paths c app))).
      { destruct c; cbn [cat_paths known_entry config_paths cache_paths
                         data_paths known_paths] in *;
          rewrite processKnownPaths_filter in Hp; exact Hp. }
      apply filter_In in Hfilter. exact Hfilter.
    + apply String.eqb_neq in E. rewrite lookup_insert_ne in Hx by exact E.
      apply Hm. exists x. auto.
  - intros c0 dir m Hdir Hexcl Hm k c p [x [Hx Hp]].
    destruct (String.eqb (snd dir) k) eqn:E.
    + apply String.eqb_eq in E. rewrite <- E in Hx.
      rewrite lookup_insert_eq in Hx. inversion Hx; subst x. clear Hx.
      apply recordDir_paths in Hp. destruct Hp as [Hp|[Hc Hp]].
      * apply Hm. rewrite <- E. apply recorded_at, Hp.
      * right.
        assert (c0 = c) by (destruct c0, c; simpl in Hc; congruence).
        subst c0 p k. split; [|exact Hexcl].
        destruct dir. exact Hdir.
    + apply String.eqb_neq in E. rewrite lookup_insert_ne in Hx by exact E.
      apply Hm. exists x. auto.
Qed.

End RescanPaths.

Section RescanResults.

Context {FS : FileSystem}.
Variable env : Platform.

Lemma resetImpl_scanned (w : World) :
  m_names (w_model (snd (resetImpl env w))) = fst (scan env (w_disk w)) /\
  m_entries (w_model (snd (resetImpl env w))) = snd (scan env (w_disk w)).
Proof.
  destruct (resetImpl_world env w) as [_ Hrows].
  unfold rows in Hrows. rewrite <- Hrows. split; reflexivity.
Qed.

(** After [resetImpl] the map binds every key once and the rows are
    exactly its keys, each listed once, when no two elements of
    [knownApps()] have the same name. (The first loop appends the name
    of every known app that exists to [m_names] and inserts it in the map
    without looking whether the map has it.) *)
Theorem resetImpl_well_formed (w : World) :
  NoDup (map name (knownApps env)) ->
  well_formed (w_model (snd (resetImpl env w))).
Proof.
  intros Hnd. destruct (resetImpl_scanned w) as [Hnames Hentries].
  unfold well_formed. rewrite Hnames, Hentries, scan_keys.
  rewrite scan_discovered. cbn [fst].
  rewrite (discovered_names env (w_disk w) Hnd).
  pose proof (discovered_keys env (w_disk w)) as Hkeys.
  split; [exact Hkeys|]. split; [exact Hkeys|]. tauto.
Qed.

(** After [resetImpl] a record is installed exactly when one of the
    directories of [ApplicationsLocation] holds a desktop file called
    like it. With the first such file, the title is the file's
    [Desktop Entry/Name] (empty without one) and the icon the first of
    the two icon files that exists for its [Desktop Entry/Icon] (for the
    name of the record without one), empty when neither exists; with no
    such file, title and icon are empty. *)
Theorem resetImpl_installed_by_desktop_file (w : World) (k : string)
    (x : MEntry) :
  Entries.lookup k (m_entries (w_model (snd (resetImpl env w)))) = Some x ->
  match desktop_file env (w_disk w) k with
  | Some f =>
      installed x = true /\
      title x = desktop_value (w_disk w) f name_key "" /\
      icon x = match findIcon (w_disk w)
                       (desktop_value (w_disk w) f icon_key k) icon_tmpls with
               | Some i => i
               | None => ""
               end
  | None => installed x = false /\ title x = "" /\ icon x = ""
  end.
Proof.
  destruct (resetImpl_scanned w) as [_ Hentries]. rewrite Hentries.
  intros Hx.
  destruct (scan_lookup env (w_disk w) k x Hx) as [x0 [Hx0 Hres]].
  destruct (discovered_not_yet_installed env (w_disk w) k x0 Hx0)
    as (Hinst & Htitle & Hicon).
  rewrite probeDesktop_file in Hres. unfold desktop_file.
  destruct (find (fi_isFile (w_disk w))
              (map (fun path => desktop_tmpl path k)
                 (ApplicationsLocation env))) as [f|].
  - subst x. cbn [installed title icon]. rewrite Hicon.
    repeat split.
  - subst x. repeat split; assumption.
Qed.

(** After [resetImpl] every directory the iterator finds in one of the
    three roots, and that the exclusion pattern does not match, is
    recorded as a path of that category under the directory's name, and
    the name is one of the rows [data] answers for. *)
Theorem resetImpl_lists_what_it_finds (w : World) (k : string) (c : DataType)
    (p : string) :
  from_root env (w_disk w) k c p ->
  recorded (m_entries (w_model (snd (resetImpl env w)))) k c p /\
  exists index,
    isValid index = true /\
    row index < rowCount (w_model (snd (resetImpl env w))) rootIndex /\
    data (w_model (snd (resetImpl env w))) index NameRole
      = Some (QVariantString k).
Proof.
  intros Hroot. destruct (resetImpl_scanned w) as [Hnames Hentries].
  assert (Hrec : recorded (snd (scan env (w_disk w))) k c p).
  { apply recorded_scan, discovered_records, Hroot. }
  split; [rewrite Hentries; exact Hrec|].
  assert (Hin : In k (m_names (w_model (snd (resetImpl env w))))).
  { rewrite Hnames, scan_discovered. cbn [fst].
    apply discovered_listed. rewrite <- scan_keys.
    apply lookup_keys. destruct Hrec as [x [Hx _]]. congruence. }
  apply In_nth_error in Hin. destruct Hin as [n Hn].
  exists (mkIndex (Z.of_nat n) 0 true).
  split.
  - unfold isValid. cbn [row column hasModel].
    replace (0 <=? Z.of_nat n) with true
      by (symmetry; apply Z.leb_le; lia).
    reflexivity.
  - split.
    + assert (Hlt : (n < List.length
                            (m_names (w_model (snd (resetImpl env w)))))%nat).
      { apply nth_error_Some. congruence. }
      change (rowCount (w_model (snd (resetImpl env w))) rootIndex)
        with (Z.of_nat (List.length
                          (m_names (w_model (snd (resetImpl env w)))))).
      cbn [row]. lia.
    + unfold data, isValid. cbn [row column hasModel].
      replace (0 <=? Z.of_nat n) with true
        by (symmetry; apply Z.leb_le; lia).
      cbn [andb negb Z.leb]. rewrite Nat2Z.id, Hn. reflexivity.
Qed.

(** After [resetImpl] every path recorded for a category of a record is
    either a candidate path of a known app of that name, for that
    category, that exists on the disk, or a directory of that name that
    the iterator finds in the root of the category and that the
    exclusion pattern does not match. *)
Theorem resetImpl_records_what_it_found (w : World) (k : string)
    (c : DataType) (p : string) :
  recorded (m_entries (w_model (snd (resetImpl env w)))) k c p ->
  from_known env (w_disk w) k c p \/ from_root env (w_disk w) k c p.
Proof.
  destruct (resetImpl_scanned w) as [_ Hentries]. rewrite Hentries.
  intros Hrec. apply discovered_provenance, recorded_scan, Hrec.
Qed.

End RescanResults.

Lemma resetImpl_well_formed_witness :
  NoDup (map name (knownApps Examples.env)) /\
  well_formed (w_model Examples.scanned).
Proof.
  assert (H : NoDup (map name (knownApps Examples.env))).
  { simpl. constructor; [simpl; tauto | constructor]. }
  split; [exact H|].
  exact (resetImpl_well_formed Examples.env
           (Examples.world Examples.disk0 MModel_init) H).
Defined.

Lemma resetImpl_installed_by_desktop_file_witness :
  exists x,
    Entries.lookup "harbour-one" (m_entries (w_model Examples.scanned_mixed))
      = Some x /\
    installed x = true /\ title x = "One" /\
    icon x = "/usr/share/icons/hicolor/86x86/apps/harbour-one.png".
Proof.
  eexists. split; [vm_compute; reflexivity|].
  exact (resetImpl_installed_by_desktop_file Examples.env_mixed
           (Examples.world Examples.disk_mixed MModel_init)
           "harbour-one" _ eq_refl).
Defined.

Lemma resetImpl_lists_what_it_finds_witness :
  from_root (FS := SimFS.fileSystem) Examples.env Examples.disk0
    "harbour-foo" CacheData "/fake/cache/harbour-foo" /\
  recorded (m_entries (w_model Examples.scanned))
    "harbour-foo" CacheData "/fake/cache/harbour-foo".
Proof.
  assert (H : from_root (FS := SimFS.fileSystem) Examples.env Examples.disk0
                "harbour-foo" CacheData "/fake/cache/harbour-foo").
  { split; [left; reflexivity | reflexivity]. }
  split; [exact H|].
  exact (proj1 (resetImpl_lists_what_it_finds Examples.env
                  (Examples.world Examples.disk0 MModel_init) _ _ _ H)).
Defined.

Lemma resetImpl_records_what_it_found_witness :
  recorded (m_entries (w_model Examples.scanned))
    "app.x" ConfigData "/fake/config/app.x" /\
  (from_known (FS := SimFS.fileSystem) Examples.env Examples.disk0
     "app.x" ConfigData "/fake/config/app.x" \/
   from_root (FS := SimFS.fileSystem) Examples.env Examples.disk0
     "app.x" ConfigData "/fake/config/app.x").
Proof.
  assert (H : recorded (m_entries (w_model Examples.scanned))
                "app.x" ConfigData "/fake/config/app.x").
  { eexists. split; [vm_compute; reflexivity | left; reflexivity]. }
  split; [exact H|].
  exact (resetImpl_records_what_it_found Examples.env
           (Examples.world Examples.disk0 MModel_init) _ _ _ H).
Defined.

(** *** deleteData and deleteUnusedData: the rows, the signals, the totals *)

Section DeletionInvariant.

Context {FS : FileSystem}.
Variable env : Platform.

Lemma In_removeOne (x k : string) (l : list string) :
  k <> x -> (In k (removeOne x l) <-> In k l).
Proof.
  intros Hk. induction l as [|y l IH]; simpl; [tauto|].
  destruct (String.eqb x y) eqn:E.
  - apply String.eqb_eq in E. subst y. split; [auto|].
    intros [H|H]; [congruence | exact H].
  - simpl. rewrite IH. tauto.
Qed.

Lemma NoDup_removeOne (x : string) (l : list string) :
  NoDup l -> NoDup (removeOne x l).
Proof.
  induction l as [|y l IH]; simpl; intros H; [constructor|].
  inversion H as [|? ? Hy Hl]; subst.
  destruct (String.eqb x y) eqn:E; [exact Hl|].
  apply String.eqb_neq in E.
  constructor; [|apply IH, Hl].
  intros Hin. apply Hy. apply (In_removeOne x y l); [congruence | exact Hin].
Qed.

Lemma well_formed_rows (m m' : MModel) :
  rows m' = rows m -> well_formed m -> well_formed m'.
Proof.
  unfold rows, well_formed. intros H. inversion H as [[Hn He]].
  rewrite Hn, He. tauto.
Qed.

(** Writing back under a key of the map, then dropping the row and the
    binding together or neither, keeps the rows and the map in step. *)
Lemma pruned_well_formed (name : string) (e : MEntry) (m m' : MModel) :
  well_formed m ->
  In name (Entries.keys (m_entries m)) ->
  rows m' = pruned env name e (rows m) ->
  well_formed m'.
Proof.
  intros (Hkeys & Hnames & Hsame) Hin Hrows.
  assert (Hins : Entries.keys (Entries.insert name e (m_entries m))
                 = Entries.keys (m_entries m)).
  { rewrite keys_insert. apply contains_keys in Hin. rewrite Hin.
    reflexivity. }
  unfold rows, pruned in Hrows. cbn [fst snd] in Hrows.
  unfold well_formed.
  destruct (entry_exists env e); inversion Hrows as [[Hn He]];
    rewrite Hn, He.
  - rewrite Hins. tauto.
  - split; [apply NoDup_keys_remove; rewrite Hins; exact Hkeys|].
    split; [apply NoDup_removeOne, Hnames|].
    intros k. rewrite keys_remove, Hins.
    destruct (string_dec k name) as [->|Hne].
    + split; [|tauto]. intros H. exfalso.
      apply (removeOne_NoDup name (m_names m) Hnames H).
    + rewrite (In_removeOne name k _ Hne), Hsame. tauto.
Qed.

Lemma deleteUnused_loop_well_formed (types : DataTypes) :
  forall (pending : list (string * MEntry)) (deleted : Z) (w : World),
    NoDup (map fst pending) ->
    (forall k, In k (map fst pending) ->
               In k (Entries.keys (m_entries (w_model w)))) ->
    well_formed (w_model w) ->
    well_formed
      (w_model (snd (deleteUnused_loop env types pending deleted w))).
Proof.
  induction pending as [|[name e] rest IH]; intros deleted w Hnd Hin Hwf;
    [exact Hwf|].
  cbn [deleteUnused_loop]. cbn [map fst] in Hnd, Hin.
  inversion Hnd as [|? ? Hhead Htail]; subst.
  destruct (installed e).
  - apply IH; [exact Htail | | exact Hwf].
    intros k Hk. apply Hin. right. exact Hk.
  - unfold bind at 1.
    pose proof (clearEntry_model env e deleted types w) as Hmodel.
    destruct (clearEntry env e deleted types w)
      as [[[e' deleted'] changed] w1].
    cbn [fst snd] in *.
    unfold bind at 1.
    pose proof (pruneOrUpdate_rows env name e' changed w1) as Hpruned.
    destruct (pruneOrUpdate env name e' changed w1) as [[] w2].
    cbn [snd] in Hpruned. rewrite Hmodel in Hpruned.
    apply IH; [exact Htail | |].
    + intros k Hk.
      assert (Hne : name <> k) by (intros ->; contradiction).
      destruct (lookup_pruned env name e' (rows (w_model w))) as [_ Hother].
      apply lookup_keys.
      change (m_entries (w_model w2)) with (snd (rows (w_model w2))).
      rewrite Hpruned, (Hother k Hne).
      apply lookup_keys, Hin. right. exact Hk.
    + apply (pruned_well_formed name e' (w_model w)); [exact Hwf | | exact Hpruned].
      apply Hin. left. reflexivity.
Qed.

(** When the rows and the map are in step (every key bound once, the
    rows the keys, each once), they still are after [deleteDataImpl] and
    after [deleteUnusedDataImpl], whatever is removed. *)
Theorem deletions_keep_rows_and_map_in_step (name : string)
    (types : DataTypes) (w : World) :
  well_formed (w_model w) ->
  well_formed (w_model (snd (deleteDataImpl env name types w))) /\
  well_formed (w_model (snd (deleteUnusedDataImpl env types w))).
Proof.
  intros Hwf. split.
  - destruct (Entries.lookup name (m_entries (w_model w))) as [e|] eqn:Hfound.
    + destruct (deleteDataImpl_rows env name types w e Hfound)
        as [e' [_ Hrows]].
      apply (pruned_well_formed name e' (w_model w));
        [exact Hwf | | exact Hrows].
      apply lookup_keys. congruence.
    + rewrite (deleteDataImpl_absent env name types w Hfound). exact Hwf.
  - unfold deleteUnusedDataImpl. rewrite bind_unit.
    unfold bind at 1. unfold getModel at 1. unfold bind at 1.
    pose proof (deleteUnused_loop_well_formed types
                  (m_entries (w_model (snd (setBusy true w)))) 0
                  (snd (setBusy true w))) as Hloop.
    destruct (deleteUnused_loop env types
                (m_entries (w_model (snd (setBusy true w)))) 0
                (snd (setBusy true w))) as [deleted w2].
    cbn [snd] in Hloop.
    apply (well_formed_rows (w_model w2)); [apply finish_rows|].
    apply Hloop.
    + apply Hwf.
    + intros k Hk. exact Hk.
    + exact Hwf.
Qed.

End DeletionInvariant.

Lemma deletions_keep_rows_and_map_in_step_witness :
  well_formed (w_model Examples.scanned) /\
  well_formed
    (w_model (snd (deleteDataImpl Examples.env "harbour-foo"
                     Examples.all_types Examples.scanned))) /\
  well_formed
    (w_model (snd (deleteUnusedDataImpl Examples.env Examples.all_types
                     Examples.scanned))).
Proof.
  assert (H : well_formed (w_model Examples.scanned)).
  { vm_compute.
    split; [|split; [|tauto]];
      (constructor; [simpl; intuition discriminate|]);
      (constructor; [simpl; tauto | constructor]). }
  split; [exact H|].
  exact (deletions_keep_rows_and_map_in_step Examples.env "harbour-foo"
           Examples.all_types Examples.scanned H).
Defined.

Section DeletionProtocol.

Context {FS : FileSystem}.
Variable env : Platform.

Lemma pruneOrUpdate_world (name : string) (e : MEntry) (changed : list Role)
    (w : World) :
  w_disk (snd (pruneOrUpdate env name e changed w)) = w_disk w /\
  w_signals (snd (pruneOrUpdate env name e changed w))
    = w_signals w
      ++ row_signals (indexOf name (m_names (w_model w)))
           (entry_exists env e) changed /\
  totals (w_model (snd (pruneOrUpdate env name e changed w)))
    = totals (w_model w) /\
  m_busy (w_model (snd (pruneOrUpdate env name e changed w)))
    = m_busy (w_model w).
Proof.
  unfold pruneOrUpdate, row_signals. run.
  destruct (entry_exists env e); simpl; repeat split.
  rewrite <- app_assoc. reflexivity.
Qed.

Lemma fold_addEntry_busy (b : bool) (l : list MEntry) :
  forall m,
    fold_left addEntry l (set_busy b m) = set_busy b (fold_left addEntry l m).
Proof.
  induction l as [|e l IH]; intros m; [reflexivity|].
  cbn [fold_left]. rewrite <- IH. f_equal.
  unfold addEntry. destruct (negb (installed e)); reflexivity.
Qed.

(** What follows [pruneOrUpdate] in both deletions. *)
Lemma finish_world (n : Z) (w : World) :
  let w' := snd ((when (n >? 0) (calculateTotal ;; emit (dataDeleted n)) ;;
                  setBusy false) w) in
  w_disk w' = w_disk w /\
  w_signals w' = w_signals w ++ deleted_signals n ++ [busyChanged] /\
  m_busy (w_model w') = false /\
  (n <= 0 -> totals (w_model w') = totals (w_model w)) /\
  (n > 0 -> totals (w_model w')
            = totals (w_model (snd (calculateTotal w')))).
Proof.
  cbv zeta. unfold when, deleted_signals.
  destruct (n >? 0) eqn:Hn.
  - rewrite !bind_unit.
    split; [reflexivity|]. split.
    { rewrite setBusy_signals, emit_signals, calculateTotal_signals.
      rewrite <- !app_assoc. reflexivity. }
    split; [reflexivity|]. split.
    { intros Hle. apply Z.gtb_lt in Hn. lia. }
    intros _.
    rewrite calculateTotal_model, setBusy_model, emit_model,
      calculateTotal_model.
    set (l := map snd (m_entries (w_model w))).
    pose proof (fold_addEntry_rows l (zeroTotals (w_model w))) as Hrows.
    pose proof (fold_addEntry_frame l (zeroTotals (w_model w))) as Hframe.
    set (m1 := fold_left addEntry l (zeroTotals (w_model w))) in *.
    assert (Hentries : m_entries (set_busy false m1) = m_entries (w_model w)).
    { unfold rows in Hrows. inversion Hrows. reflexivity. }
    rewrite Hentries. fold l.
    assert (Hzero : zeroTotals (set_busy false m1)
                    = set_busy false (zeroTotals (w_model w))).
    { change (zeroTotals (set_busy false m1))
        with (set_busy false (zeroTotals m1)).
      rewrite Hframe. reflexivity. }
    rewrite Hzero, fold_addEntry_busy. fold m1. reflexivity.
  - rewrite bind_unit. cbn [ret snd].
    split; [reflexivity|]. split; [reflexivity|]. split; [reflexivity|].
    split; [reflexivity|]. intros Hpos. rewrite Z.gtb_ltb in Hn.
    apply Z.ltb_ge in Hn. lia.
Qed.

Lemma deleteDataImpl_found (name : string) (types : DataTypes) (w : World)
    (e : MEntry) :
  Entries.lookup name (m_entries (w_model w)) = Some e ->
  snd (deleteDataImpl env name types w)
  = snd ((when (snd (fst (fst (clearEntry env e 0 types
                                 (snd (setBusy true w))))) >? 0)
            (calculateTotal ;;
             emit (dataDeleted
                     (snd (fst (fst (clearEntry env e 0 types
                                       (snd (setBusy true w)))))))) ;;
          setBusy false)
           (snd (pruneOrUpdate env name
                   (fst (fst (fst (clearEntry env e 0 types
                                     (snd (setBusy true w))))))
                   (snd (fst (clearEntry env e 0 types
                                (snd (setBusy true w)))))
                   (snd (clearEntry env e 0 types
                           (snd (setBusy true w))))))).
Proof.
  intros Hfound.
  unfold deleteDataImpl. unfold bind at 1. unfold getModel at 1.
  rewrite (contains_lookup _ _ _ Hfound), (at_lookup _ _ _ Hfound).
  cbn [negb]. rewrite bind_unit. unfold bind at 1.
  destruct (clearEntry env e 0 types (snd (setBusy true w)))
    as [[[e' n] changed] w2].
  cbn [fst snd]. rewrite bind_unit. reflexivity.
Qed.

Lemma deletionError_of_incl (l1 l2 : list string) (errors : list Signal) :
  incl l1 l2 ->
  Forall (deletionError_of l1) errors -> Forall (deletionError_of l2) errors.
Proof.
  intros Hincl. apply Forall_impl. intros s [p [Hs Hp]].
  exists p. split; [exact Hs | apply Hincl, Hp].
Qed.

Lemma removePaths_errors (paths : list string) (w : World) :
  exists errors,
    w_signals (snd (removePaths env paths w)) = w_signals w ++ errors /\
    Forall (deletionError_of paths) errors.
Proof.
  unfold removePaths. destruct (existsb isEmpty paths).
  - exists []. simpl. rewrite app_nil_r. split; [reflexivity | constructor].
  - apply removePaths_loop_errors.
Qed.

Lemma clearCategories_errors (cs : list DataType) (types : DataTypes)
    (paths : list string) :
  forall st w,
    (forall c, incl (cat_paths c (fst (fst st))) paths) ->
    exists errors,
      w_signals (snd (clearCategories env cs types st w))
        = w_signals w ++ errors /\
      w_model (snd (clearCategories env cs types st w)) = w_model w /\
      Forall (deletionError_of paths) errors.
Proof.
  induction cs as [|c cs IH]; intros st w Hpaths.
  - exists []. simpl. rewrite app_nil_r. repeat split. constructor.
  - cbn [clearCategories]. unfold bind.
    destruct st as [[e deleted] changed]. cbn [fst] in Hpaths.
    destruct (removePaths_errors (cat_paths c e) w) as [l1 [Hl1 Hall1]].
    pose proof (removePaths_model env (cat_paths c e) w) as Hm1.
    apply (deletionError_of_incl _ paths _ (Hpaths c)) in Hall1.
    destruct (clearCategory_cases env c types e deleted changed w)
      as [[_ Hrun]|[Hsame Hworld]].
    + rewrite Hrun.
      destruct (IH (zero_size c e,
                    Int64.add deleted (fst (removePaths env (cat_paths c e) w)),
                    changed ++ [cat_role c])
                  (snd (removePaths env (cat_paths c e) w)))
        as [l2 [Hl2 [Hm2 Hall2]]].
      { intros c'. cbn [fst]. rewrite zero_size_paths. apply Hpaths. }
      exists (l1 ++ l2). rewrite Hl2, Hl1, app_assoc, Hm2, Hm1.
      repeat split. apply Forall_app. split; assumption.
    + destruct (clearCategory env c types (e, deleted, changed) w)
        as [st1 w1]. cbn [fst snd] in Hsame, Hworld. subst st1.
      destruct (IH (e, deleted, changed) w1 Hpaths)
        as [l2 [Hl2 [Hm2 Hall2]]].
      destruct Hworld as [->| ->].
      * exists l2. repeat split; assumption.
      * exists (l1 ++ l2). rewrite Hl2, Hl1, app_assoc, Hm2, Hm1.
        repeat split. apply Forall_app. split; assumption.
Qed.

Lemma clearEntry_errors (e : MEntry) (deleted : Z) (types : DataTypes)
    (w : World) :
  exists errors,
    w_signals (snd (clearEntry env e deleted types w))
      = w_signals w ++ errors /\
    Forall (deletionError_of (entry_paths e)) errors.
Proof.
  rewrite clearEntry_categories.
  destruct (clearCategories_errors [ConfigData; CacheData; LocalData] types
              (entry_paths e) (e, deleted, []) w) as [l [Hl [_ Hall]]].
  - intros c p Hp. unfold entry_paths. cbn [fst] in Hp.
    rewrite !in_app_iff. destruct c; cbn [cat_paths] in Hp; auto.
  - exists l. split; assumption.
Qed.

(** What [deleteDataImpl] emits for a name of the map, [out] being what
    [clearEntry] hands back: [busyChanged] first and last; in between a
    [deletionError] for paths of the entry only, then either
    [dataChanged] for the row with the roles [clearEntry] marked or the
    two row-removal signals, as the entry exists() or not, then
    [totalChanged] and [dataDeleted] with the bytes deleted if they are
    more than 0 and nothing otherwise.  The model is not busy afterwards.
    The totals are recomputed from the map only when the bytes deleted
    are more than 0: otherwise they stay as they were, also when the row
    was removed. *)
Theorem deleteData_signals_and_totals (name : string) (types : DataTypes)
    (w : World) (e : MEntry) :
  Entries.lookup name (m_entries (w_model w)) = Some e ->
  let w' := snd (deleteDataImpl env name types w) in
  let out := fst (clearEntry env e 0 types (snd (setBusy true w))) in
  let row := indexOf name (m_names (w_model w)) in
  (exists errors,
     Forall (deletionError_of (entry_paths e)) errors /\
     w_signals w'
     = w_signals w ++ [busyChanged] ++ errors
       ++ row_signals row (entry_exists env (fst (fst out))) (snd out)
       ++ deleted_signals (snd (fst out)) ++ [busyChanged]) /\
  m_busy (w_model w') = false /\
  (snd (fst out) <= 0 -> totals (w_model w') = totals (w_model w)) /\
  (snd (fst out) > 0 ->
   totals (w_model w') = totals (w_model (snd (calculateTotal w')))).
Proof.
  intros Hfound. cbv zeta.
  rewrite (deleteDataImpl_found name types w e Hfound).
  destruct (clearEntry_errors e 0 types (snd (setBusy true w)))
    as [errors [Herrors Hall]].
  pose proof (clearEntry_model env e 0 types (snd (setBusy true w)))
    as Hmodel.
  destruct (clearEntry env e 0 types (snd (setBusy true w)))
    as [[[e' n] changed] w2].
  cbn [fst snd] in *.
  destruct (pruneOrUpdate_world name e' changed w2)
    as (_ & Hsig3 & Htot3 & _).
  destruct (finish_world n (snd (pruneOrUpdate env name e' changed w2)))
    as (_ & Hsig4 & Hbusy4 & Hstale & Hfresh).
  cbv zeta in Hsig4, Hbusy4, Hstale, Hfresh.
  split; [|split; [exact Hbusy4 | split]].
  - exists errors. split; [exact Hall|].
    rewrite Hsig4, Hsig3, Herrors, Hmodel, setBusy_signals.
    rewrite <- !app_assoc. reflexivity.
  - intros Hle. rewrite (Hstale Hle), Htot3, Hmodel. reflexivity.
  - exact Hfresh.
Qed.

(** [deleteDataImpl] leaves every record under another name as it is,
    in the map and among the rows, and creates no node on the disk. *)
Theorem deleteData_leaves_the_other_records (name : string)
    (types : DataTypes) (w : World) (k : string) :
  k <> name ->
  let w' := snd (deleteDataImpl env name types w) in
  Entries.lookup k (m_entries (w_model w'))
    = Entries.lookup k (m_entries (w_model w)) /\
  (In k (m_names (w_model w')) <-> In k (m_names (w_model w))) /\
  (forall q, fi_exists (w_disk w) q = false -> fi_exists (w_disk w') q = false).
Proof.
  intros Hk. cbv zeta.
  destruct (Entries.lookup name (m_entries (w_model w))) as [e|] eqn:Hfound.
  - split; [|split].
    + destruct (deleteDataImpl_rows env name types w e Hfound)
        as [e' [_ Hrows]].
      destruct (lookup_pruned env name e' (rows (w_model w))) as [_ Hother].
      change (m_entries (w_model (snd (deleteDataImpl env name types w))))
        with (snd (rows (w_model (snd (deleteDataImpl env name types w))))).
      rewrite Hrows. apply Hother. congruence.
    + destruct (deleteDataImpl_rows env name types w e Hfound)
        as [e' [_ Hrows]].
      change (m_names (w_model (snd (deleteDataImpl env name types w))))
        with (fst (rows (w_model (snd (deleteDataImpl env name types w))))).
      rewrite Hrows. unfold pruned.
      destruct (entry_exists env e'); cbn [fst rows]; [tauto|].
      apply In_removeOne, Hk.
    + intros q Hq.
      rewrite (deleteDataImpl_found name types w e Hfound).
      pose proof (clearCategories_keeps_missing env
                    [ConfigData; CacheData; LocalData] types q
                    (e, 0, []) (snd (setBusy true w)) Hq) as Hkeep.
      rewrite <- clearEntry_categories in Hkeep.
      destruct (clearEntry env e 0 types (snd (setBusy true w)))
        as [[[e' n] changed] w2].
      cbn [fst snd] in *.
      destruct (pruneOrUpdate_world name e' changed w2) as (Hdisk3 & _).
      destruct (finish_world n (snd (pruneOrUpdate env name e' changed w2)))
        as (Hdisk4 & _).
      cbv zeta in Hdisk4. rewrite Hdisk4, Hdisk3. exact Hkeep.
  - rewrite (deleteDataImpl_absent env name types w Hfound). tauto.
Qed.

Lemma set_busy_twice (b b' : bool) (m : MModel) :
  set_busy b (set_busy b' m) = set_busy b m.
Proof. reflexivity. Qed.

(** With a name of the map whose entry exists() and has no positive
    cached size in a requested category (no category requested, for
    one), [deleteDataImpl] deletes nothing and leaves the disk, the rows,
    the map and the totals as they are; it emits [busyChanged], a
    [dataChanged] for the row with no role, and [busyChanged]. *)
Theorem deleteData_nothing_to_clear (name : string) (types : DataTypes)
    (w : World) (e : MEntry) :
  Entries.lookup name (m_entries (w_model w)) = Some e ->
  nothing_to_clear types e ->
  entry_exists env e = true ->
  deleteDataImpl env name types w
  = (tt, mkWorld (w_disk w) (set_busy false (w_model w))
           (w_signals w
            ++ [busyChanged;
                dataChanged (indexOf name (m_names (w_model w)))
                  (indexOf name (m_names (w_model w))) [];
                busyChanged])).
Proof.
  intros Hfound Hidle Hexists.
  unfold deleteDataImpl. unfold bind at 1. unfold getModel at 1.
  rewrite (contains_lookup _ _ _ Hfound), (at_lookup _ _ _ Hfound).
  cbn [negb]. rewrite bind_unit. unfold bind at 1.
  rewrite clearEntry_blocks. unfold bind at 1 2.
  rewrite (clearCategory_idle env ConfigData) by (apply Hidle).
  rewrite (clearCategory_idle env CacheData) by (apply Hidle).
  rewrite (clearCategory_idle env LocalData) by (apply Hidle).
  unfold pruneOrUpdate, when, setBusy. run.
  rewrite Hexists. simpl.
  rewrite (insert_same _ _ _ Hfound), <- !app_assoc.
  destruct (w_model w); reflexivity.
Qed.

Lemma deleteUnused_loop_installed (types : DataTypes) :
  forall (pending : list (string * MEntry)) (deleted : Z) (w : World),
    (forall k x, In (k, x) pending -> installed x = true) ->
    deleteUnused_loop env types pending deleted w = (deleted, w).
Proof.
  induction pending as [|[name e] rest IH]; intros deleted w Hall;
    [reflexivity|].
  cbn [deleteUnused_loop].
  rewrite (Hall name e) by (left; reflexivity).
  apply IH. intros k x Hin. apply (Hall k x). right. exact Hin.
Qed.

(** When every binding of the map is installed, [deleteUnusedDataImpl]
    touches neither the disk nor the rows, the map or the totals, and
    emits [busyChanged] twice and nothing else. *)
Theorem deleteUnusedData_nothing_unused (types : DataTypes) (w : World) :
  (forall k x, In (k, x) (m_entries (w_model w)) -> installed x = true) ->
  deleteUnusedDataImpl env types w
  = (tt, mkWorld (w_disk w) (set_busy false (w_model w))
           (w_signals w ++ [busyChanged; busyChanged])).
Proof.
  intros Hall.
  unfold deleteUnusedDataImpl. rewrite bind_unit.
  unfold bind at 1. unfold getModel at 1. unfold bind at 1.
  rewrite deleteUnused_loop_installed by exact Hall.
  unfold when, setBusy. run. rewrite <- app_assoc. reflexivity.
Qed.

End DeletionProtocol.

Lemma deleteData_signals_and_totals_witness :
  Entries.lookup "harbour-foo" (m_entries (w_model Examples.scanned))
    = Some Examples.foo_entry /\
  m_busy (w_model (snd (deleteDataImpl Examples.env "harbour-foo"
                          Examples.all_types Examples.scanned))) = false.
Proof.
  assert (H : Entries.lookup "harbour-foo"
                (m_entries (w_model Examples.scanned))
              = Some Examples.foo_entry) by (vm_compute; reflexivity).
  split; [exact H|].
  exact (proj1 (proj2 (deleteData_signals_and_totals Examples.env
                         "harbour-foo" Examples.all_types Examples.scanned
                         Examples.foo_entry H))).
Defined.

Lemma deleteData_leaves_the_other_records_witness :
  "app.x" <> "harbour-foo" /\
  Entries.lookup "app.x"
    (m_entries (w_model (snd (deleteDataImpl Examples.env "harbour-foo"
                                Examples.all_types Examples.scanned))))
  = Entries.lookup "app.x" (m_entries (w_model Examples.scanned)).
Proof.
  assert (H : "app.x" <> "harbour-foo") by discriminate.
  split; [exact H|].
  exact (proj1 (deleteData_leaves_the_other_records Examples.env
                  "harbour-foo" Examples.all_types Examples.scanned
                  "app.x" H)).
Defined.

Lemma deleteData_nothing_to_clear_witness :
  Entries.lookup "harbour-foo" (m_entries (w_model Examples.scanned))
    = Some Examples.foo_entry /\
  nothing_to_clear Examples.no_types Examples.foo_entry /\
  entry_exists Examples.env Examples.foo_entry = true /\
  deleteDataImpl Examples.env "harbour-foo" Examples.no_types Examples.scanned
  = (tt, mkWorld (w_disk Examples.scanned)
           (set_busy false (w_model Examples.scanned))
           (w_signals Examples.scanned
            ++ [busyChanged; dataChanged 1 1 []; busyChanged])).
Proof.
  assert (H1 : Entries.lookup "harbour-foo"
                 (m_entries (w_model Examples.scanned))
               = Some Examples.foo_entry) by (vm_compute; reflexivity).
  assert (H2 : nothing_to_clear Examples.no_types Examples.foo_entry).
  { intros c Hc. destruct c; discriminate Hc. }
  assert (H3 : entry_exists Examples.env Examples.foo_entry = true)
    by reflexivity.
  split; [exact H1|]. split; [exact H2|]. split; [exact H3|].
  exact (deleteData_nothing_to_clear Examples.env "harbour-foo"
           Examples.no_types Examples.scanned Examples.foo_entry H1 H2 H3).
Defined.

Lemma deleteUnusedData_nothing_unused_witness :
  (forall k x, In (k, x) (m_entries (w_model Examples.scanned_installed)) ->
               installed x = true) /\
  deleteUnusedDataImpl Examples.env_mixed Examples.all_types
    Examples.scanned_installed
  = (tt, mkWorld (w_disk Examples.scanned_installed)
           (set_busy false (w_model Examples.scanned_installed))
           (w_signals Examples.scanned_installed
            ++ [busyChanged; busyChanged])).
Proof.
  assert (H : forall k x,
             In (k, x) (m_entries (w_model Examples.scanned_installed)) ->
             installed x = true).
  { intros k x Hin. vm_compute in Hin. destruct Hin as [Hin|[]].
    inversion Hin. reflexivity. }
  split; [exact H|].
  exact (deleteUnusedData_nothing_unused Examples.env_mixed
           Examples.all_types Examples.scanned_installed H).
Defined.

(** *** Records without data *)

Section Pruning.

Context {FS : FileSystem}.
Variable env : Platform.












End Pruning.


